(** * mkdocs_rag: chunking, ingestion and retrieval of the documentation RAG backend

    A shallow embedding of [backend/rag/ingestion.py], [backend/rag/vector_store.py],
    [backend/rag/llm_providers.py], [backend/rag/retriever.py] and of the sources
    that [backend/main.py] builds for a chat answer, with the properties of the
    normalizer, of the chunker, of the ingestion run and of the query path stated
    over it.

    Python [str] values are modelled as lists of characters whose code points are
    below 256 ([ascii]); [int] values as [Z]; lengths and list positions as [nat]. *)

From Stdlib Require Import Ascii String ZArith QArith Qminmax Lqa Lia Bool Arith List.
From Stdlib Require Import DecimalString.
Import ListNotations.

Abbreviation str := (list ascii).

Coercion list_ascii_of_string : string >-> list.

Close Scope Q_scope.
Open Scope string_scope.
Open Scope list_scope.
Open Scope nat_scope.

(* ================================================================= *)
(** ** Python string primitives *)

Module Str.

Definition code (c : ascii) : nat := nat_of_ascii c.

(** [str.isspace] on one character, which is also what [\s] matches in a
    [str] pattern: the code points below 256 that Python counts as whitespace. *)
Definition is_space (c : ascii) : bool :=
  let n := code c in
  ((9 <=? n) && (n <=? 13)) || ((28 <=? n) && (n <=? 32)) || (n =? 133) || (n =? 160).

Definition nl : ascii := ascii_of_nat 10.

Definition is_nl (c : ascii) : bool := Ascii.eqb c nl.

Fixpoint lstrip (s : str) : str :=
  match s with
  | c :: s' => if is_space c then lstrip s' else s
  | [] => []
  end.

Definition rstrip (s : str) : str := rev (lstrip (rev s)).

(** [s.strip()] *)
Definition strip (s : str) : str := rstrip (lstrip s).

Definition cons_word (w : str) (ws : list str) : list str :=
  match w with
  | [] => ws
  | _ => w :: ws
  end.

(** The word at the head of [s] (empty when [s] starts with whitespace) and the
    words after it. *)
Fixpoint split_aux (s : str) : str * list str :=
  match s with
  | [] => ([], [])
  | c :: s' =>
      let (w, ws) := split_aux s' in
      if is_space c then ([], cons_word w ws) else (c :: w, ws)
  end.

(** [s.split()]: the maximal runs of non-whitespace characters. *)
Definition split (s : str) : list str :=
  let (w, ws) := split_aux s in cons_word w ws.

(** [sep.join(l)] *)
Fixpoint join (sep : str) (l : list str) : str :=
  match l with
  | [] => []
  | [x] => x
  | x :: l' => x ++ sep ++ join sep l'
  end.

(** [s.startswith(p)] *)
Fixpoint startswith (p s : str) : bool :=
  match p, s with
  | [], _ => true
  | a :: p', b :: s' => Ascii.eqb a b && startswith p' s'
  | _ :: _, [] => false
  end.

(** [p in s] *)
Fixpoint contains (p s : str) : bool :=
  startswith p s || match s with [] => false | _ :: s' => contains p s' end.

Definition eqb (a b : str) : bool :=
  if list_eq_dec ascii_dec a b then true else false.

(** [str(n)] for a non-negative [int]. *)
Definition of_nat (n : nat) : str :=
  list_ascii_of_string (NilEmpty.string_of_uint (Nat.to_uint n)).

(** Index normalisation of a slice bound, as [l[i:j]] does it. *)
Definition clamp (len i : Z) : Z :=
  if (i <? 0)%Z then Z.max (i + len) 0 else Z.min i len.

(** [l[i:j]] *)
Definition slice {A} (l : list A) (i j : Z) : list A :=
  let len := Z.of_nat (length l) in
  let a := Z.to_nat (clamp len i) in
  let b := Z.to_nat (clamp len j) in
  firstn (b - a) (skipn a l).

(** [s.replace(old, new)] for a non-empty [old]: the occurrences of [old] are
    found from left to right and do not overlap.  [skip] counts the
    characters of the last occurrence that are still to be passed over. *)
Fixpoint replace_scan (old new s : str) (skip : nat) : str :=
  match s with
  | [] => []
  | c :: s' =>
      match skip with
      | S n => replace_scan old new s' n
      | O =>
          if startswith old s
          then new ++ replace_scan old new s' (Nat.pred (length old))
          else c :: replace_scan old new s' 0
      end
  end.

Definition replace (s old new : str) : str := replace_scan old new s 0.

End Str.

(* ================================================================= *)
(** ** The fragment of [re] the sources use

    Every pattern of the repository is a sequence of character classes, each
    with a repetition range and a greedy or lazy quantifier; groups are
    consecutive stretches of the sequence.  A pattern is therefore a list of
    segments, a segment a list of atoms, and a match reports the text that
    each segment consumed. *)

Module Re.

Record atom := Atom {
  cls : ascii -> bool;
  lo : nat;
  hi : option nat;
  greedy : bool
}.

Definition chr (c : ascii) : ascii -> bool := Ascii.eqb c.
Definition non (c : ascii) : ascii -> bool := fun x => negb (Ascii.eqb c x).
Definition any : ascii -> bool := fun _ => true.
(** [.] without DOTALL *)
Definition dot : ascii -> bool := fun x => negb (Str.is_nl x).

Definition one (p : ascii -> bool) : atom := Atom p 1 (Some 1) true.
Definition plus (p : ascii -> bool) : atom := Atom p 1 None true.
Definition star (p : ascii -> bool) : atom := Atom p 0 None true.
Definition lazy_star (p : ascii -> bool) : atom := Atom p 0 None false.
Definition range (p : ascii -> bool) (a b : nat) : atom := Atom p a (Some b) true.
Definition at_least (p : ascii -> bool) (a : nat) : atom := Atom p a None true.
Definition lit (c : ascii) : atom := one (chr c).

Definition exhausted (h : option nat) : bool :=
  match h with Some O => true | _ => false end.

Definition dec (h : option nat) : option nat := option_map Nat.pred h.

Section Matcher.
Context {A : Type}.

(** Greedy repetition: take as many characters as the range allows, then give
    them back one at a time until the continuation succeeds.  The
    continuation gets the text taken and the rest of the input. *)
Fixpoint rep_greedy (p : ascii -> bool) (l : nat) (h : option nat) (s : str)
  (k : str -> str -> option A) {struct s} : option A :=
  let stop := if Nat.eqb l 0 then k [] s else None in
  if exhausted h then stop
  else match s with
       | c :: s' =>
           if p c
           then match rep_greedy p (Nat.pred l) (dec h) s' (fun m r => k (c :: m) r) with
                | Some a => Some a
                | None => stop
                end
           else stop
       | [] => stop
       end.

(** Lazy repetition: try the continuation first, take one more character when
    it fails. *)
Fixpoint rep_lazy (p : ascii -> bool) (l : nat) (h : option nat) (s : str)
  (k : str -> str -> option A) {struct s} : option A :=
  let more :=
    if exhausted h then None
    else match s with
         | c :: s' =>
             if p c
             then rep_lazy p (Nat.pred l) (dec h) s' (fun m r => k (c :: m) r)
             else None
         | [] => None
         end in
  if Nat.eqb l 0
  then match k [] s with
       | Some a => Some a
       | None => more
       end
  else more.

Fixpoint match_atoms (r : list atom) (s : str) (k : str -> str -> option A) : option A :=
  match r with
  | [] => k [] s
  | a :: r' =>
      (if greedy a then rep_greedy else rep_lazy) (cls a) (lo a) (hi a) s
        (fun m1 s1 => match_atoms r' s1 (fun m2 s2 => k (m1 ++ m2) s2))
  end.

End Matcher.

(** [pattern.match] at the head of [s]: the text each segment consumed and the
    rest of the input. *)
Fixpoint match_segs (segs : list (list atom)) (s : str) : option (list str * str) :=
  match segs with
  | [] => Some ([], s)
  | r :: segs' =>
      match_atoms r s (fun m s' =>
        match match_segs segs' s' with
        | Some (gs, rest) => Some (m :: gs, rest)
        | None => None
        end)
  end.

(** [re.sub]: leftmost non-overlapping matches, each replaced by
    [repl groups].  [skip] counts the characters of the previous match that
    are still to be passed over.  No pattern of the sources matches the empty
    string. *)
Fixpoint sub_scan (segs : list (list atom)) (repl : list str -> str)
  (s : str) (skip : nat) : str :=
  match s with
  | [] => []
  | c :: s' =>
      match skip with
      | S n => sub_scan segs repl s' n
      | O =>
          match match_segs segs s with
          | Some (gs, _) =>
              match length (concat gs) with
              | O => repl gs ++ c :: sub_scan segs repl s' 0
              | S n => repl gs ++ sub_scan segs repl s' n
              end
          | None => c :: sub_scan segs repl s' 0
          end
      end
  end.

Definition sub (segs : list (list atom)) (repl : list str -> str) (s : str) : str :=
  sub_scan segs repl s 0.

(** [re.sub] for a pattern that starts with [^] (no MULTILINE): only a match at
    the very start of the string is replaced. *)
Definition sub_at_start (segs : list (list atom)) (repl : list str -> str) (s : str) : str :=
  match match_segs segs s with
  | Some (gs, rest) => repl gs ++ rest
  | None => s
  end.

(** [re.split] for a pattern with one capturing group, segment [grp]: the text
    before the first match, and then for each match its group and the text
    after it. *)
Fixpoint split_scan (segs : list (list atom)) (grp : nat) (s : str) (skip : nat)
  : str * list str :=
  match s with
  | [] => ([], [])
  | c :: s' =>
      match skip with
      | S n => split_scan segs grp s' n
      | O =>
          match match_segs segs s with
          | Some (gs, _) =>
              let (p, ps) := split_scan segs grp s' (Nat.pred (length (concat gs))) in
              ([], nth grp gs [] :: p :: ps)
          | None =>
              let (p, ps) := split_scan segs grp s' 0 in (c :: p, ps)
          end
      end
  end.

Definition split (segs : list (list atom)) (grp : nat) (s : str) : list str :=
  let (p, ps) := split_scan segs grp s 0 in p :: ps.

(** Replacement templates: [''] and [r'\1']. *)
Definition drop : list str -> str := fun _ => [].
Definition group1 : list str -> str := fun gs => nth 1 gs [].

End Re.

(* ================================================================= *)
(** ** [hashlib.md5(s.encode()).hexdigest()]

    The MD5 digest of RFC 1321 over the UTF-8 encoding of the string, written
    as 32 lowercase hexadecimal digits.  32-bit words are [Z] values reduced
    with [Z.land _ 0xffffffff]. *)

Module MD5.

Local Open Scope Z_scope.

Definition mask : Z := 0xffffffff.
Definition w32 (x : Z) : Z := Z.land x mask.
Definition not32 (x : Z) : Z := Z.lxor x mask.
Definition rotl (x c : Z) : Z := w32 (Z.lor (Z.shiftl x c) (Z.shiftr x (32 - c))).

Definition K : list Z := [
  0xd76aa478; 0xe8c7b756; 0x242070db; 0xc1bdceee;
  0xf57c0faf; 0x4787c62a; 0xa8304613; 0xfd469501;
  0x698098d8; 0x8b44f7af; 0xffff5bb1; 0x895cd7be;
  0x6b901122; 0xfd987193; 0xa679438e; 0x49b40821;
  0xf61e2562; 0xc040b340; 0x265e5a51; 0xe9b6c7aa;
  0xd62f105d; 0x02441453; 0xd8a1e681; 0xe7d3fbc8;
  0x21e1cde6; 0xc33707d6; 0xf4d50d87; 0x455a14ed;
  0xa9e3e905; 0xfcefa3f8; 0x676f02d9; 0x8d2a4c8a;
  0xfffa3942; 0x8771f681; 0x6d9d6122; 0xfde5380c;
  0xa4beea44; 0x4bdecfa9; 0xf6bb4b60; 0xbebfbc70;
  0x289b7ec6; 0xeaa127fa; 0xd4ef3085; 0x04881d05;
  0xd9d4d039; 0xe6db99e5; 0x1fa27cf8; 0xc4ac5665;
  0xf4292244; 0x432aff97; 0xab9423a7; 0xfc93a039;
  0x655b59c3; 0x8f0ccc92; 0xffeff47d; 0x85845dd1;
  0x6fa87e4f; 0xfe2ce6e0; 0xa3014314; 0x4e0811a1;
  0xf7537e82; 0xbd3af235; 0x2ad7d2bb; 0xeb86d391 ].

Definition R : list Z :=
  [7; 12; 17; 22; 7; 12; 17; 22; 7; 12; 17; 22; 7; 12; 17; 22;
   5; 9; 14; 20; 5; 9; 14; 20; 5; 9; 14; 20; 5; 9; 14; 20;
   4; 11; 16; 23; 4; 11; 16; 23; 4; 11; 16; 23; 4; 11; 16; 23;
   6; 10; 15; 21; 6; 10; 15; 21; 6; 10; 15; 21; 6; 10; 15; 21].

(** [s.encode()]: UTF-8, for code points below 256. *)
Definition utf8 (s : str) : list Z :=
  flat_map (fun c =>
    let n := Z.of_nat (nat_of_ascii c) in
    if n <? 128 then [n]
    else [Z.lor 0xC0 (Z.shiftr n 6); Z.lor 0x80 (Z.land n 0x3F)]) s.

Fixpoint le_bytes (n : nat) (x : Z) : list Z :=
  match n with
  | O => []
  | S n' => Z.land x 0xFF :: le_bytes n' (Z.shiftr x 8)
  end.

Definition pad (m : list Z) : list Z :=
  let len := Z.of_nat (length m) in
  m ++ [0x80] ++ repeat 0 (Z.to_nat ((55 - len) mod 64)) ++ le_bytes 8 (8 * len).

Fixpoint le_words (n : nat) (bytes : list Z) : list Z :=
  match n, bytes with
  | S n', b0 :: b1 :: b2 :: b3 :: rest =>
      (b0 + Z.shiftl b1 8 + Z.shiftl b2 16 + Z.shiftl b3 24) :: le_words n' rest
  | _, _ => []
  end.

Definition state : Type := Z * Z * Z * Z.

Definition round (M : list Z) (st : state) (i : nat) : state :=
  let '(a, b, c, d) := st in
  let '(f, g) :=
    if (i <? 16)%nat then (Z.lor (Z.land b c) (Z.land (not32 b) d), i)
    else if (i <? 32)%nat then (Z.lor (Z.land d b) (Z.land (not32 d) c), ((5 * i + 1) mod 16)%nat)
    else if (i <? 48)%nat then (Z.lxor (Z.lxor b c) d, ((3 * i + 5) mod 16)%nat)
    else (Z.lxor c (Z.lor b (not32 d)), ((7 * i) mod 16)%nat) in
  let f' := w32 (f + a + nth i K 0 + nth g M 0) in
  (d, w32 (b + rotl f' (nth i R 0)), b, c).

Definition block (st : state) (bytes : list Z) : state :=
  let '(a0, b0, c0, d0) := st in
  let '(a, b, c, d) := fold_left (round (le_words 16 bytes)) (seq 0 64) st in
  (w32 (a0 + a), w32 (b0 + b), w32 (c0 + c), w32 (d0 + d)).

Fixpoint blocks (n : nat) (st : state) (bytes : list Z) : state :=
  match n with
  | O => st
  | S n' => blocks n' (block st (firstn 64 bytes)) (skipn 64 bytes)
  end.

Definition digest (m : list Z) : list Z :=
  let p := pad m in
  let '(a, b, c, d) :=
    blocks (length p / 64) (0x67452301, 0xefcdab89, 0x98badcfe, 0x10325476) p in
  le_bytes 4 a ++ le_bytes 4 b ++ le_bytes 4 c ++ le_bytes 4 d.

Definition hex_digit (x : Z) : ascii :=
  nth (Z.to_nat x) (list_ascii_of_string "0123456789abcdef") "0"%char.

Definition hex (bytes : list Z) : str :=
  flat_map (fun b => [hex_digit (Z.shiftr b 4); hex_digit (Z.land b 0xF)]) bytes.

Definition hexdigest (s : str) : str := hex (digest (utf8 s)).

End MD5.

(* ================================================================= *)
(** ** [config.py] and [rag/models.py] *)

Record Settings := {
  groq_api_key : str;
  generation_model : str;
  groq_generation_model : str;
  chunk_size : Z;
  chunk_overlap : Z;
  top_k_results : Z;
  max_history_messages : Z
}.

Definition default_settings : Settings :=
  {| groq_api_key := [];
     generation_model := "gemini-2.5-flash";
     groq_generation_model := "llama-3.1-8b-instant";
     chunk_size := 500;
     chunk_overlap := 100;
     top_k_results := 5;
     max_history_messages := 10 |}.

(** A [dict] with string keys and values, in insertion order. *)
Definition Metadata := list (str * str).

(** [d.get(k, default)] *)
Fixpoint dict_get (d : Metadata) (k default : str) : str :=
  match d with
  | [] => default
  | (k', v) :: d' => if Str.eqb k k' then v else dict_get d' k default
  end.

Module DocumentChunk.
Section WithVec.
(** Embedding vectors come from the embedding service and are never
    inspected. *)
Variable Vec : Type.
Record t := {
  id : str;
  doc_path : str;
  title : str;
  text : str;
  embedding : option Vec;
  metadata : Metadata
}.
End WithVec.
Arguments id {Vec} _.
Arguments doc_path {Vec} _.
Arguments title {Vec} _.
Arguments text {Vec} _.
Arguments embedding {Vec} _.
Arguments metadata {Vec} _.
End DocumentChunk.

Module RetrievedChunk.
Record t := {
  doc_path : str;
  title : str;
  text : str;
  score : Q;
  metadata : Metadata
}.
End RetrievedChunk.

Record QueryResult := {
  answer : str;
  chunks : list RetrievedChunk.t;
  query_text : str
}.

Record ChatMessage := {
  role : str;
  content : str
}.

(* ================================================================= *)
(** ** Effects: exceptions, the log, and runs that do not end *)

(** An exception, by its message. *)
Definition Exception := str.

Inductive LogEntry :=
| Info (msg : str)
| Warning (msg : str)
| Error (msg : str).

Inductive Outcome (A : Type) :=
| Ok (a : A)
| Raise (e : Exception)
| Diverge.

Arguments Ok {A} a.
Arguments Raise {A} e.
Arguments Diverge {A}.

Module Eff.
Section WithState.
Variable S : Type.

Definition M (A : Type) : Type := S -> Outcome A * S.

Definition ret {A} (a : A) : M A := fun s => (Ok a, s).

Definition bind {A B} (m : M A) (k : A -> M B) : M B :=
  fun s =>
    match m s with
    | (Ok a, s') => k a s'
    | (Raise e, s') => (Raise e, s')
    | (Diverge, s') => (Diverge, s')
    end.

Definition raise {A} (e : Exception) : M A := fun s => (Raise e, s).

Definition diverge {A} : M A := fun s => (Diverge, s).

(** [try: m except Exception as e: h e] *)
Definition try_except {A} (m : M A) (h : Exception -> M A) : M A :=
  fun s =>
    match m s with
    | (Raise e, s') => h e s'
    | r => r
    end.

Definition get : M S := fun s => (Ok s, s).
Definition modify (f : S -> S) : M unit := fun s => (Ok tt, f s).

(** The result of a call to an outside service. *)
Definition lift {A} (r : Exception + A) : M A :=
  match r with
  | inl e => raise e
  | inr a => ret a
  end.

End WithState.
Arguments ret {S A} a.
Arguments bind {S A B} m k.
Arguments raise {S A} e.
Arguments diverge {S A}.
Arguments try_except {S A} m h.
Arguments get {S}.
Arguments modify {S} f.
Arguments lift {S A} r.
End Eff.

Declare Scope eff_scope.
Delimit Scope eff_scope with eff.
Notation "x <- m ;; k" := (Eff.bind m (fun x => k))
  (at level 61, m at next level, right associativity) : eff_scope.
Notation "m ;; k" := (Eff.bind m (fun _ => k))
  (at level 61, right associativity) : eff_scope.
Notation "' pat <- m ;; k" := (Eff.bind m (fun x => match x with pat => k end))
  (at level 61, pat pattern, m at next level, right associativity) : eff_scope.

(* ================================================================= *)
(** ** The state the services share *)

Section World.
Variable Vec : Type.

(** One record of the vector collection. *)
Record StoredRecord := {
  rec_id : str;
  rec_embedding : option Vec;
  rec_document : str;
  rec_metadata : Metadata
}.

(** The collection of the vector store, the log, and the prompts that were
    sent to a text generator. *)
Record World := {
  collection : list StoredRecord;
  log : list LogEntry;
  prompts : list str
}.

Definition logger (e : LogEntry) : Eff.M World unit :=
  Eff.modify (fun w =>
    {| collection := collection w; log := log w ++ [e]; prompts := prompts w |}).

Definition set_collection (c : list StoredRecord) : Eff.M World unit :=
  Eff.modify (fun w =>
    {| collection := c; log := log w; prompts := prompts w |}).

Definition record_prompt (p : str) : Eff.M World unit :=
  Eff.modify (fun w =>
    {| collection := collection w; log := log w; prompts := prompts w ++ [p] |}).

End World.

Arguments rec_id {Vec} _.
Arguments rec_embedding {Vec} _.
Arguments rec_document {Vec} _.
Arguments rec_metadata {Vec} _.
Arguments collection {Vec} _.
Arguments log {Vec} _.
Arguments prompts {Vec} _.
Arguments logger {Vec} e.
Arguments set_collection {Vec} c.
Arguments record_prompt {Vec} p.

(* ================================================================= *)
(** ** [rag/vector_store.py] *)

Module VectorStore.

Local Open Scope eff_scope.

(** What [collection.query] answers: each field is absent or holds one row
    per query embedding. *)
Record QueryResults := {
  ids : option (list (list str));
  metadatas : option (list (list Metadata));
  documents : option (list (list str));
  distances : option (list (list Q))
}.

(** [max(a, b)] on two numbers: [b] only when it is greater than [a]. *)
Definition py_max (a b : Q) : Q := if Qle_bool b a then a else b.

(** [score = max(0.0, 1.0 - distance)] *)
Definition score_of_distance (distance : Q) : Q := py_max 0 (1 - distance).

(** [results[f][0]] when [results.get(f) and results[f][0]] holds. *)
Definition first_row {X} (field : option (list (list X))) : option (list X) :=
  match field with
  | Some ((_ :: _) as row :: _) => Some row
  | _ => None
  end.

(** [metadata[key] = value] *)
Fixpoint dict_set (d : Metadata) (k v : str) : Metadata :=
  match d with
  | [] => [(k, v)]
  | (k', v') :: d' => if Str.eqb k k' then (k, v) :: d' else (k', v') :: dict_set d' k v
  end.

Section WithVec.
Variable Vec : Type.
(** [collection.query(query_embeddings=[e], n_results=k, ...)] on a
    collection. *)
Variable store_query : list (StoredRecord Vec) -> Vec -> Z -> Exception + QueryResults.

Definition M := Eff.M (World Vec).

(** [self.collection.count()], taken to return: the number of records of the
    collection. *)
Definition count : M nat :=
  w <- Eff.get ;; Eff.ret (length (collection w)).

Definition clear : M unit :=
  set_collection [] ;;
  logger (Info "Vector store cleared").

Definition record_of (chunk : DocumentChunk.t Vec) : StoredRecord Vec :=
  {| rec_id := DocumentChunk.id chunk;
     rec_embedding := DocumentChunk.embedding chunk;
     rec_document := DocumentChunk.text chunk;
     rec_metadata :=
       fold_left (fun m kv => dict_set m (fst kv) (snd kv))
         (DocumentChunk.metadata chunk)
         [(list_ascii_of_string "doc_path", DocumentChunk.doc_path chunk);
          (list_ascii_of_string "title", DocumentChunk.title chunk)] |}.

(** [collection.add] is taken to accept every batch. *)
Definition add_chunks (chunks : list (DocumentChunk.t Vec)) : M unit :=
  match chunks with
  | [] => Eff.ret tt
  | _ =>
      w <- Eff.get ;;
      set_collection (collection w ++ map record_of chunks) ;;
      logger (Info ("Added " ++ Str.of_nat (length chunks) ++ " chunks to vector store"))
  end.

(** The element [i] of a row, or the default when the field is missing;
    [IndexError] when the row is too short. *)
Definition cell {X} (field : option (list (list X))) (i : nat) (default : X) : M X :=
  match first_row field with
  | Some row =>
      match nth_error row i with
      | Some x => Eff.ret x
      | None => Eff.raise "list index out of range"
      end
  | None => Eff.ret default
  end.

(** The body of [for i, doc_id in enumerate(results["ids"][0])]. *)
Fixpoint collect (results : QueryResults) (i : nat) (row : list str)
  (chunks : list RetrievedChunk.t) : M (list RetrievedChunk.t) :=
  match row with
  | [] => Eff.ret chunks
  | _ :: row' =>
      metadata <- cell (metadatas results) i [] ;;
      text <- cell (documents results) i [] ;;
      distance <- cell (distances results) i 1%Q ;;
      let score := score_of_distance distance in
      collect results (S i) row'
        (chunks ++ [ {| RetrievedChunk.doc_path := dict_get metadata "doc_path" [];
                        RetrievedChunk.title := dict_get metadata "title" [];
                        RetrievedChunk.text := text;
                        RetrievedChunk.score := score;
                        RetrievedChunk.metadata := metadata |} ])
  end.

(** The body of [search], for the behaviour of [self.collection.count()],
    the one call on the store that stands before the [try]. *)
Definition search_counting (count : M nat) (query_embedding : Vec) (top_k : Z)
  : M (list RetrievedChunk.t) :=
  n <- count ;;
  if Nat.eqb n 0 then
    logger (Warning "Vector store is empty. No documents to search.") ;;
    Eff.ret []
  else
    Eff.try_except
      (w <- Eff.get ;;
       results <- Eff.lift (store_query (collection w) query_embedding top_k) ;;
       match first_row (ids results) with
       | None =>
           logger (Warning "Query returned no results") ;;
           Eff.ret []
       | Some row =>
           chunks <- collect results 0 row [] ;;
           logger (Info ("Search returned " ++ Str.of_nat (length chunks) ++ " results")) ;;
           Eff.ret chunks
       end)
      (fun e =>
         logger (Error ("Error searching vector store: " ++ e)) ;;
         Eff.ret []).

Definition search : Vec -> Z -> M (list RetrievedChunk.t) := search_counting count.

End WithVec.

End VectorStore.

(* ================================================================= *)
(** ** [rag/ingestion.py]: the Markdown normalizer and the chunker *)

Module Ingestion.

Import Re.
Import DocumentChunk.
Local Open Scope eff_scope.

Definition re_html : list (list atom) :=
  [[lit "<"; plus (non ">"); lit ">"]].
Definition re_link : list (list atom) :=
  [[lit "["]; [plus (non "]")]; [lit "]"; lit "("; plus (non ")"); lit ")"]].
Definition re_fence : list (list atom) :=
  [[lit "`"; lit "`"; lit "`"; star (non Str.nl); lit Str.nl;
    lazy_star any; lit "`"; lit "`"; lit "`"]].
Definition re_code : list (list atom) :=
  [[lit "`"]; [plus (non "`")]; [lit "`"]].
Definition re_heading : list (list atom) :=
  [[plus (chr "#"); plus Str.is_space]].
Definition re_bold : list (list atom) :=
  [[lit "*"; lit "*"]; [plus (non "*")]; [lit "*"; lit "*"]].
Definition re_italic : list (list atom) :=
  [[lit "*"]; [plus (non "*")]; [lit "*"]].
Definition re_blank : list (list atom) :=
  [[at_least Str.is_nl 3]].
(** [\n(#{1,3}\s+.+)\n], the header-line delimiter of [chunk_by_headers];
    segment 1 is its group. *)
Definition re_header : list (list atom) :=
  [[lit Str.nl]; [range (chr "#") 1 3; plus Str.is_space; plus dot]; [lit Str.nl]].

Definition clean_markdown (text : str) : str :=
  let text := sub re_html drop text in
  let text := sub re_link group1 text in
  let text := sub re_fence drop text in
  let text := sub re_code group1 text in
  let text := sub re_heading drop text in
  let text := sub re_bold group1 text in
  let text := sub re_italic group1 text in
  let text := sub re_blank (fun _ => [Str.nl; Str.nl]) text in
  Str.strip text.

(** The [while] loop of [chunk_by_size]; [None] when [fuel] iterations do not
    reach its end. *)
Fixpoint chunk_loop (fuel : nat) (words : list str) (size overlap start : Z)
  (chunks : list str) : option (list str) :=
  match fuel with
  | O => None
  | S fuel' =>
      if (start <? Z.of_nat (length words))%Z then
        let end_ := (start + size)%Z in
        let chunk := Str.join " " (Str.slice words start end_) in
        let chunks := chunks ++ [chunk] in
        if (end_ >=? Z.of_nat (length words))%Z then Some chunks
        else chunk_loop fuel' words size overlap (end_ - overlap)%Z chunks
      else Some chunks
  end.

(** [chunk_by_size(text, size, overlap)], run for at most one iteration per
    word and one more: [None] stands for a loop that does not end. *)
Definition chunk_by_size (text : str) (size overlap : Z) : option (list str) :=
  let words := Str.split text in
  chunk_loop (S (length words)) words size overlap 0 [].

Section Chunker.
Variable Vec : Type.
Variable settings : Settings.

Definition Chunk := DocumentChunk.t Vec.

Definition key (doc_path : str) (n : nat) : str :=
  doc_path ++ ":" ++ Str.of_nat n.

Definition window_key (doc_path : str) (n j : nat) : str :=
  doc_path ++ ":" ++ Str.of_nat n ++ ":" ++ Str.of_nat j.

(** [chunks.append(DocumentChunk(id=md5(f"{doc_path}:{len(chunks)}"), ...))] *)
Definition append_chunk (chunks : list Chunk) (doc_path title text section : str)
  : list Chunk :=
  chunks ++ [ {| id := MD5.hexdigest (key doc_path (length chunks));
                 doc_path := doc_path;
                 title := title;
                 text := text;
                 embedding := None;
                 metadata := [(list_ascii_of_string "section", section)] |} ].

(** [for j, sub_chunk in enumerate(sub_chunks): chunks.append(...)] *)
Fixpoint append_windows (chunks : list Chunk) (doc_path title section : str)
  (j : nat) (sub_chunks : list str) : list Chunk :=
  match sub_chunks with
  | [] => chunks
  | sub_chunk :: rest =>
      append_windows
        (chunks ++ [ {| id := MD5.hexdigest (window_key doc_path (length chunks) j);
                        doc_path := doc_path;
                        title := title;
                        text := sub_chunk;
                        embedding := None;
                        metadata := [(list_ascii_of_string "section", section)] |} ])
        doc_path title section (S j) rest
  end.

Definition nonempty (s : str) : bool :=
  match s with [] => false | _ => true end.

(** The candidate made of un-headered text: kept when longer than 50. *)
Definition append_plain (chunks : list Chunk) (doc_path title section current_text : str)
  : list Chunk :=
  if nonempty (Str.strip current_text) then
    let chunk_text := clean_markdown current_text in
    if nonempty chunk_text && (50 <? length chunk_text)
    then append_chunk chunks doc_path title chunk_text section
    else chunks
  else chunks.

(** The section under one header: lines 80 to 103. *)
Definition append_section (chunks : list Chunk) (doc_path title header section_content : str)
  : option (list Chunk) :=
  let section_title := sub_at_start re_heading drop header in
  let combined_text := section_title ++ [Str.nl; Str.nl] ++ section_content in
  let chunk_text := clean_markdown combined_text in
  if (Z.of_nat (length chunk_text) >? chunk_size settings)%Z then
    match chunk_by_size chunk_text (chunk_size settings) (chunk_overlap settings) with
    | Some sub_chunks =>
        Some (append_windows chunks doc_path (title ++ " - " ++ section_title)
                section_title 0 sub_chunks)
    | None => None
    end
  else if nonempty chunk_text && (50 <? length chunk_text) then
    Some (append_chunk chunks doc_path (title ++ " - " ++ section_title) chunk_text
            section_title)
  else Some chunks.

(** [for i in range(1, len(sections), 2)], on [sections[1:]]. *)
Fixpoint sections_loop (rest : list str) (doc_path title current_text : str)
  (chunks : list Chunk) : option (str * list Chunk) :=
  match rest with
  | [] => Some (current_text, chunks)
  | [last] => Some (current_text ++ last, chunks)
  | h :: section_content :: rest' =>
      let header := Str.strip h in
      let chunks := append_plain chunks doc_path title title current_text in
      match append_section chunks doc_path title header section_content with
      | Some chunks => sections_loop rest' doc_path title [] chunks
      | None => None
      end
  end.

Definition chunk_by_headers (content doc_path title : str) : option (list Chunk) :=
  let sections := split re_header 1 content in
  match sections with
  | [_] =>
      let chunk_text := clean_markdown content in
      if nonempty chunk_text
      then Some (append_chunk [] doc_path title chunk_text title)
      else Some []
  | [] => Some []
  | first :: rest =>
      match sections_loop rest doc_path title first [] with
      | Some (current_text, chunks) =>
          Some (append_plain chunks doc_path title "Additional Content" current_text)
      | None => None
      end
  end.

End Chunker.

(** What the run finds on disk: whether [settings.docs_path_absolute] exists,
    the files [rglob("*.md")] lists, and for each one what
    [parse_markdown_file] gives: [(relative_path, title, content)] or the
    exception it raises. *)
Record MdFile := {
  name : str;
  path : str;
  parse_markdown_file : Exception + (str * str * str)
}.

Record Corpus := {
  docs_path : str;
  docs_path_exists : bool;
  md_files : list MdFile
}.

Section Run.
Variable Vec : Type.
Variable settings : Settings.
(** [genai.embed_content(model, content, task_type)["embedding"]] *)
Variable embed_content : str -> str -> Exception + Vec.

Definition M := Eff.M (World Vec).

Definition with_embedding (chunk : Chunk Vec) (e : Vec) : Chunk Vec :=
  {| id := id chunk; doc_path := doc_path chunk; title := title chunk;
     text := text chunk; embedding := Some e; metadata := metadata chunk |}.

(** [for i, chunk in enumerate(chunks)] of [embed_chunks]: [total] is
    [len(chunks)], [done] the chunks already embedded. *)
Fixpoint embed_loop (total i : nat) (todo done : list (Chunk Vec)) : M (list (Chunk Vec)) :=
  match todo with
  | [] => Eff.ret done
  | chunk :: todo' =>
      e <- Eff.try_except
             (e <- Eff.lift (embed_content "retrieval_document" (text chunk)) ;;
              (if Nat.eqb ((i + 1) mod 10) 0
               then logger (Info ("Embedded " ++ Str.of_nat (i + 1) ++ "/"
                                    ++ Str.of_nat total ++ " chunks"))
               else Eff.ret tt) ;;
              Eff.ret e)
             (fun err =>
                logger (Error ("Error embedding chunk " ++ id chunk ++ ": " ++ err)) ;;
                Eff.raise err) ;;
      embed_loop total (S i) todo' (done ++ [with_embedding chunk e])
  end.

Definition embed_chunks (chunks : list (Chunk Vec)) : M (list (Chunk Vec)) :=
  logger (Info ("Embedding " ++ Str.of_nat (length chunks) ++ " chunks...")) ;;
  chunks <- embed_loop (length chunks) 0 chunks [] ;;
  logger (Info ("Successfully embedded all " ++ Str.of_nat (length chunks) ++ " chunks")) ;;
  Eff.ret chunks.

(** The [try] block of the loop over the files. *)
Definition process_file (md_file : MdFile) (all_chunks : list (Chunk Vec))
  : M (list (Chunk Vec)) :=
  '(doc_path, title, content) <- Eff.lift (parse_markdown_file md_file) ;;
  logger (Info ("Processing: " ++ doc_path)) ;;
  match chunk_by_headers Vec settings content doc_path title with
  | None => Eff.diverge
  | Some chunks =>
      logger (Info ("  Created " ++ Str.of_nat (length chunks) ++ " chunks from "
                      ++ doc_path)) ;;
      Eff.ret (all_chunks ++ chunks)
  end.

(** [for md_file in md_files] *)
Fixpoint files_loop (files : list MdFile) (all_chunks : list (Chunk Vec))
  : M (list (Chunk Vec)) :=
  match files with
  | [] => Eff.ret all_chunks
  | md_file :: files' =>
      if Str.startswith "." (name md_file) || Str.contains "node_modules" (path md_file)
      then files_loop files' all_chunks
      else
        all_chunks <- Eff.try_except
          (process_file md_file all_chunks)
          (fun e =>
             logger (Error ("Error processing " ++ path md_file ++ ": " ++ e)) ;;
             Eff.ret all_chunks) ;;
        files_loop files' all_chunks
  end.

Definition ingest_docs (corpus : Corpus) : M nat :=
  logger (Info "Starting document ingestion...") ;;
  VectorStore.clear Vec ;;
  if negb (docs_path_exists corpus)
  then Eff.raise ("Documentation path does not exist: " ++ docs_path corpus)
  else
    logger (Info ("Found " ++ Str.of_nat (length (md_files corpus)) ++ " markdown files")) ;;
    all_chunks <- files_loop (md_files corpus) [] ;;
    match all_chunks with
    | [] =>
        logger (Warning "No chunks created from documents") ;;
        Eff.ret 0
    | _ =>
        logger (Info ("Total chunks created: " ++ Str.of_nat (length all_chunks))) ;;
        all_chunks <- embed_chunks all_chunks ;;
        VectorStore.add_chunks Vec all_chunks ;;
        n <- VectorStore.count Vec ;;
        logger (Info ("Ingestion complete. Total chunks in store: " ++ Str.of_nat n)) ;;
        Eff.ret (length all_chunks)
    end.

End Run.

End Ingestion.

(* ================================================================= *)
(** ** [rag/llm_providers.py] *)

Module LLMFactory.

Local Open Scope eff_scope.

Inductive ProviderClass := Gemini | Groq.

(** A constructed provider: its class and [model_name]. *)
Record LLMProvider := {
  provider_class : ProviderClass;
  model_name : str
}.

Definition class_name (c : ProviderClass) : str :=
  match c with
  | Gemini => "GeminiProvider"
  | Groq => "GroqProvider"
  end.

Definition AVAILABLE_MODELS : list (str * (str * ProviderClass)) :=
  [ (list_ascii_of_string "gemini", (list_ascii_of_string "gemini-2.5-flash", Gemini));
    (list_ascii_of_string "gemini-2.5-flash", (list_ascii_of_string "gemini-2.5-flash", Gemini));
    (list_ascii_of_string "gemini-2.5-pro", (list_ascii_of_string "gemini-2.5-pro", Gemini));
    (list_ascii_of_string "groq-llama3", (list_ascii_of_string "llama-3.1-8b-instant", Groq));
    (list_ascii_of_string "groq-llama-8b", (list_ascii_of_string "llama-3.1-8b-instant", Groq));
    (list_ascii_of_string "groq-llama-70b", (list_ascii_of_string "llama-3.1-70b-versatile", Groq));
    (list_ascii_of_string "groq-mixtral", (list_ascii_of_string "mixtral-8x7b-32768", Groq)) ].

Fixpoint lookup {X} (k : str) (table : list (str * X)) : option X :=
  match table with
  | [] => None
  | (k', x) :: table' => if Str.eqb k k' then Some x else lookup k table'
  end.

Section WithVec.
Variable Vec : Type.
Variable settings : Settings.

Definition M := Eff.M (World Vec).

(** [x or y] on strings *)
Definition or_else (x y : str) : str :=
  match x with [] => y | _ => x end.

Definition GeminiProvider (name : str) : M LLMProvider :=
  let name := or_else name (generation_model settings) in
  logger (Info ("Initialized Gemini provider with model: " ++ name)) ;;
  Eff.ret {| provider_class := Gemini; model_name := name |}.

Definition GroqProvider (name : str) : M LLMProvider :=
  match groq_api_key settings with
  | [] => Eff.raise "GROQ_API_KEY not configured"
  | _ =>
      let name := or_else name (groq_generation_model settings) in
      logger (Info ("Initialized Groq provider with model: " ++ name)) ;;
      Eff.ret {| provider_class := Groq; model_name := name |}
  end.

Definition create_provider (model_key : option str) : M LLMProvider :=
  match model_key with
  | None => GeminiProvider []
  | Some key =>
      if Str.eqb key [] || Str.eqb key "gemini" then GeminiProvider []
      else
        match lookup key AVAILABLE_MODELS with
        | None =>
            logger (Warning ("Unknown model key '" ++ key ++ "', falling back to Gemini")) ;;
            GeminiProvider []
        | Some (name, cls) =>
            Eff.try_except
              (match cls with
               | Gemini => GeminiProvider name
               | Groq => GroqProvider name
               end)
              (fun e =>
                 logger (Warning ("Failed to initialize " ++ class_name cls ++ ": " ++ e
                                    ++ ". Falling back to Gemini")) ;;
                 GeminiProvider [])
        end
  end.

End WithVec.

End LLMFactory.

(* ================================================================= *)
(** ** [rag/retriever.py] *)

Module Retriever.

Local Open Scope eff_scope.

(** An element of [conversation_history]: a message, or an object without a
    [role] or a [content] attribute. *)
Inductive HistoryItem :=
| Message (msg : ChatMessage)
| Opaque.

Definition dq : ascii := ascii_of_nat 34.

Definition no_information : str :=
  "I couldn't find any relevant information in the documentation to answer your question.".

(** [x[:500] if len(x) > 500 else x] *)
Definition truncate (x : str) : str :=
  if 500 <? length x then Str.slice x 0 500 else x.

(** The loop over [conversation_history] of [_build_prompt]. *)
Fixpoint history_loop (history : list HistoryItem) (history_parts : list str) : list str :=
  match history with
  | [] => history_parts
  | Opaque :: rest => history_loop rest history_parts
  | Message msg :: rest =>
      if Str.eqb (role msg) "user" then
        history_loop rest (history_parts ++ ["Q: " ++ truncate (content msg)])
      else if Str.eqb (role msg) "assistant" then
        history_loop rest (history_parts ++ ["A: " ++ truncate (content msg)])
      else history_loop rest history_parts
  end.

(** The value of [history_text] in [_build_prompt]. *)
Definition history_text (conversation_history : option (list HistoryItem)) : str :=
  match conversation_history with
  | None | Some [] => []
  | Some history =>
      match history_loop history [] with
      | [] => []
      | history_parts =>
          [Str.nl; Str.nl] ++ "PREVIOUS CONVERSATION:" ++ [Str.nl]
            ++ Str.join [Str.nl] history_parts ++ [Str.nl]
      end
  end.

(** The text of the template before [{history_text}]. *)
Definition instructions : str :=
  Str.join [Str.nl]
    [ list_ascii_of_string "You are a helpful documentation assistant. Your job is to answer questions based on the provided documentation context.";
      [];
      list_ascii_of_string "IMPORTANT INSTRUCTIONS:";
      list_ascii_of_string "1. Use the previous conversation to understand context and what the user is referring to";
      "2. When the user asks about previous messages (e.g., " ++ [dq] ++ "What did I say?"
        ++ [dq] ++ "), you CAN refer to the conversation history";
      list_ascii_of_string "3. For questions about the documentation content, answer using information from the provided documentation context";
      list_ascii_of_string "4. You MUST cite which documentation sources you used in your answer (reference by document title)";
      list_ascii_of_string "5. If the documentation doesn't contain enough information to answer a question about documentation, say so clearly";
      list_ascii_of_string "6. Be concise but thorough";
      list_ascii_of_string "7. Use a professional and helpful tone";
      list_ascii_of_string "8. Format your answer clearly with bullet points or paragraphs as appropriate";
      [] ].

(** The f-string that [_build_prompt] returns, for the value of
    [history_text]. *)
Definition prompt_text (question context : str) (chunks : list RetrievedChunk.t)
  (history_text : str) : str :=
  let source_list :=
    Str.join [Str.nl]
      (map (fun chunk => "- " ++ RetrievedChunk.title chunk ++ " (from "
                           ++ RetrievedChunk.doc_path chunk ++ ")") chunks) in
  instructions ++ history_text
    ++ [Str.nl] ++ "CONTEXT FROM DOCUMENTATION:" ++ [Str.nl]
    ++ context ++ [Str.nl; Str.nl]
    ++ "AVAILABLE SOURCES:" ++ [Str.nl]
    ++ source_list ++ [Str.nl; Str.nl]
    ++ "CURRENT QUESTION: " ++ question ++ [Str.nl; Str.nl]
    ++ "ANSWER (cite documentation sources when using them):".

(** [for i, chunk in enumerate(chunks, 1)] of [_build_context]. *)
Fixpoint context_parts (i : nat) (chunks : list RetrievedChunk.t) : list str :=
  match chunks with
  | [] => []
  | chunk :: rest =>
      ("[Source " ++ Str.of_nat i ++ ": " ++ RetrievedChunk.title chunk ++ "]")
        :: RetrievedChunk.text chunk :: [] :: context_parts (S i) rest
  end.

Definition _build_context (chunks : list RetrievedChunk.t) : str :=
  Str.join [Str.nl] (context_parts 1 chunks).

Section WithVec.
Variable Vec : Type.
Variable settings : Settings.
(** [genai.embed_content(model, content, task_type)["embedding"]] *)
Variable embed_content : str -> str -> Exception + Vec.
Variable store_query :
  list (StoredRecord Vec) -> Vec -> Z -> Exception + VectorStore.QueryResults.
(** [provider.generate(prompt)] *)
Variable generate : LLMFactory.LLMProvider -> str -> Exception + str.

Definition M := Eff.M (World Vec).

(** The history part runs in a [try] block: the messages kept are counted in
    the log, and an exception of the loop would leave the prompt without
    history. *)
Definition _build_prompt (question context : str) (chunks : list RetrievedChunk.t)
  (conversation_history : option (list HistoryItem)) : M str :=
  history_text <-
    match conversation_history with
    | None | Some [] => Eff.ret []
    | Some history =>
        Eff.try_except
          (match history_loop history [] with
           | [] => Eff.ret []
           | history_parts =>
               logger (Info ("Including " ++ Str.of_nat (length history_parts)
                               ++ " previous messages in prompt")) ;;
               Eff.ret ([Str.nl; Str.nl] ++ "PREVIOUS CONVERSATION:" ++ [Str.nl]
                          ++ Str.join [Str.nl] history_parts ++ [Str.nl])
           end)
          (fun e =>
             logger (Error ("Error building conversation history: " ++ e)) ;;
             Eff.ret [])
    end ;;
  Eff.ret (prompt_text question context chunks history_text).

Definition _embed_query (query : str) : M Vec :=
  Eff.try_except
    (Eff.lift (embed_content "retrieval_query" query))
    (fun e =>
       logger (Error ("Error embedding query: " ++ e)) ;;
       Eff.raise e).

Definition _generate_answer (question : str) (chunks : list RetrievedChunk.t)
  (model_key : option str) (conversation_history : option (list HistoryItem)) : M str :=
  let context := _build_context chunks in
  prompt <- _build_prompt question context chunks conversation_history ;;
  Eff.try_except
    (provider <- LLMFactory.create_provider Vec settings model_key ;;
     record_prompt prompt ;;
     answer <- Eff.lift (generate provider prompt) ;;
     logger (Info ("Successfully generated answer using "
                     ++ LLMFactory.class_name (LLMFactory.provider_class provider))) ;;
     Eff.ret answer)
    (fun e =>
       logger (Error ("Error generating answer: " ++ e)) ;;
       Eff.raise e).

(** [model_key or 'default'] *)
Definition model_label (model_key : option str) : str :=
  match model_key with
  | Some ((_ :: _) as key) => key
  | _ => "default"
  end.

Definition query (question : str) (model_key : option str)
  (conversation_history : option (list HistoryItem)) : M QueryResult :=
  logger (Info ("Processing query: " ++ question ++ " with model: " ++ model_label model_key)) ;;
  query_embedding <- _embed_query question ;;
  retrieved_chunks <- VectorStore.search Vec store_query query_embedding
                        (top_k_results settings) ;;
  match retrieved_chunks with
  | [] =>
      Eff.ret {| answer := no_information; chunks := []; query_text := question |}
  | _ =>
      logger (Info ("Retrieved " ++ Str.of_nat (length retrieved_chunks)
                      ++ " relevant chunks")) ;;
      answer <- _generate_answer question retrieved_chunks model_key conversation_history ;;
      Eff.ret {| answer := answer; chunks := retrieved_chunks; query_text := question |}
  end.

End WithVec.

End Retriever.

(** [HybridRetriever.query]: the query of [Retriever], and a log line when web
    grounding is switched on and fewer than two chunks came back. *)
Module HybridRetriever.

Local Open Scope eff_scope.

Section WithVec.
Variable Vec : Type.
Variable settings : Settings.
Variable embed_content : str -> str -> Exception + Vec.
Variable store_query :
  list (StoredRecord Vec) -> Vec -> Z -> Exception + VectorStore.QueryResults.
Variable generate : LLMFactory.LLMProvider -> str -> Exception + str.

Definition query (use_web_grounding : bool) (question : str) (model_key : option str)
  (conversation_history : option (list Retriever.HistoryItem))
  : Eff.M (World Vec) QueryResult :=
  result <- Retriever.query Vec settings embed_content store_query generate
              question model_key conversation_history ;;
  (if use_web_grounding && (length (chunks result) <? 2)
   then logger (Info "Low confidence in internal docs, web grounding could be used here")
   else Eff.ret tt) ;;
  Eff.ret result.

End WithVec.

End HybridRetriever.

(* ================================================================= *)
(** ** [main.py]: the sources of a chat answer *)

Module Main.

Record Source := {
  doc_path : str;
  title : str;
  snippet : str;
  score : Q;
  url : option str
}.

(** One element of the [sources] comprehension of [chat]. *)
Definition source_of (chunk : RetrievedChunk.t) : Source :=
  {| doc_path := RetrievedChunk.doc_path chunk;
     title := RetrievedChunk.title chunk;
     snippet :=
       (if 200 <? length (RetrievedChunk.text chunk)
        then Str.slice (RetrievedChunk.text chunk) 0 200 ++ "..."
        else RetrievedChunk.text chunk);
     score := RetrievedChunk.score chunk;
     url := Some ("../" ++ Str.replace (RetrievedChunk.doc_path chunk) ".md" "/") |}.

(** [sources = [Source(...) for chunk in result.chunks]] *)
Definition sources (result : QueryResult) : list Source :=
  map source_of (chunks result).

End Main.

(* ================================================================= *)
(** ** Vocabulary of the statements *)

Import Re Ingestion.

(** The state with one more log entry. *)
Definition add_log {Vec} (w : World Vec) (e : LogEntry) : World Vec :=
  {| collection := collection w; log := log w ++ [e]; prompts := prompts w |}.

(** A computation whose outcome does not depend on the state it starts in and
    that leaves the collection and the prompts alone, only adding to the log. *)
Definition stable {Vec A} (m : Eff.M (World Vec) A) : Prop :=
  exists v, forall w, exists entries,
    m w = (v, {| collection := collection w; log := log w ++ entries;
                 prompts := prompts w |}).

(** The log entry of [embed_chunks] for a chunk that failed. *)
Definition embed_error {Vec} (c : Chunk Vec) (err : Exception) : LogEntry :=
  Error ("Error embedding chunk " ++ DocumentChunk.id c ++ ": " ++ err).

(** The files that [ingest_docs] passes over without reading them. *)
Definition skipped (f : MdFile) : bool :=
  Str.startswith "." (name f) || Str.contains "node_modules" (path f).

(** How one history item is rendered: nothing, or one line that holds at most
    the first 500 characters of the message. *)
Definition rendered (item : Retriever.HistoryItem) : list str :=
  match item with
  | Retriever.Opaque => []
  | Retriever.Message msg =>
      if Str.eqb (role msg) "user" then ["Q: " ++ firstn 500 (content msg)]
      else if Str.eqb (role msg) "assistant" then ["A: " ++ firstn 500 (content msg)]
      else []
  end.

(** A word: a non-empty run of characters none of which is whitespace. *)
Definition is_word (w : str) : Prop :=
  w <> [] /\ Forall (fun c => Str.is_space c = false) w.

(** The text an atom can take: characters of its class, as many as its range
    allows. *)
Definition atom_match (a : atom) (m : str) : Prop :=
  Forall (fun c => cls a c = true) m /\
  lo a <= length m /\
  match hi a with Some h => length m <= h | None => True end.

Inductive atoms_match : list atom -> str -> Prop :=
| atoms_nil : atoms_match [] []
| atoms_cons a r m1 m2 :
    atom_match a m1 -> atoms_match r m2 -> atoms_match (a :: r) (m1 ++ m2).

(** A header line as [re_header] captures it: one to three [#], whitespace,
    then text that holds no newline. *)
Definition header_line (g : str) : Prop :=
  exists hashes ws txt,
    g = hashes ++ ws ++ txt /\
    1 <= length hashes <= 3 /\
    Forall (fun c => c = "#"%char) hashes /\
    ws <> [] /\ Forall (fun c => Str.is_space c = true) ws /\
    txt <> [] /\ Forall (fun c => c <> Str.nl) txt.

(** [sections[1:]] for a list of (header, content) pairs, and back. *)
Fixpoint interleave (sections : list (str * str)) : list str :=
  match sections with
  | [] => []
  | (header, section_content) :: rest => header :: section_content :: interleave rest
  end.

Fixpoint pairs (l : list str) : list (str * str) :=
  match l with
  | header :: section_content :: rest => (header, section_content) :: pairs rest
  | _ => []
  end.

(** The document put back together from its (header, content) pairs: every
    header sits between two newlines. *)
Fixpoint rejoin (sections : list (str * str)) : str :=
  match sections with
  | [] => []
  | (header, section_content) :: rest =>
      Str.nl :: header ++ Str.nl :: section_content ++ rejoin rest
  end.

Definition not_hash (tail : str) : Prop :=
  match tail with
  | c :: _ => c <> "#"%char
  | [] => True
  end.

Definition hash_free (b : str) : Prop := Forall (fun c => c <> "#"%char) b.

(** Text in which no newline is followed by [#]: no line after the first
    begins with [#]. *)
Definition no_header_start (b : str) : Prop :=
  Str.contains [Str.nl; "#"%char] b = false.

(** The document of [test_chunk_by_headers], with any three bodies. *)
Definition test_document (b0 b1 b2 : str) : str :=
  "# Main Title" ++ [Str.nl; Str.nl] ++ b0 ++ [Str.nl; Str.nl]
    ++ "## Section 1" ++ [Str.nl; Str.nl] ++ b1 ++ [Str.nl; Str.nl]
    ++ "## Section 2" ++ [Str.nl; Str.nl] ++ b2 ++ [Str.nl].

(** What one stretch of the document contributes before it is numbered: the
    title, text and section label of a chunk, and its window index when it
    comes from the size-bounded split. *)
Record Candidate := {
  cand_title : str;
  cand_text : str;
  cand_section : str;
  cand_window : option nat
}.

Section Description.
Variable Vec : Type.
Variable settings : Settings.

Definition chunk_key (doc_path : str) (n : nat) (window : option nat) : str :=
  match window with
  | None => key doc_path n
  | Some j => window_key doc_path n j
  end.

Definition chunk_of (doc_path : str) (n : nat) (c : Candidate) : Chunk Vec :=
  {| DocumentChunk.id := MD5.hexdigest (chunk_key doc_path n (cand_window c));
     DocumentChunk.doc_path := doc_path;
     DocumentChunk.title := cand_title c;
     DocumentChunk.text := cand_text c;
     DocumentChunk.embedding := None;
     DocumentChunk.metadata := [(list_ascii_of_string "section", cand_section c)] |}.

(** The candidates, numbered from [base] on. *)
Fixpoint number (doc_path : str) (base : nat) (cs : list Candidate) : list (Chunk Vec) :=
  match cs with
  | [] => []
  | c :: cs' => chunk_of doc_path base c :: number doc_path (S base) cs'
  end.

Definition plain_candidates (title section current_text : str) : list Candidate :=
  if nonempty (Str.strip current_text) && (50 <? length (clean_markdown current_text))
  then [ {| cand_title := title; cand_text := clean_markdown current_text;
            cand_section := section; cand_window := None |} ]
  else [].

Fixpoint window_candidates (title section : str) (j : nat) (windows : list str)
  : list Candidate :=
  match windows with
  | [] => []
  | w :: rest =>
      {| cand_title := title; cand_text := w; cand_section := section;
         cand_window := Some j |} :: window_candidates title section (S j) rest
  end.

Definition section_title (header : str) : str :=
  sub_at_start re_heading Re.drop (Str.strip header).

(** The normalized text of the section under [header]. *)
Definition section_text (header section_content : str) : str :=
  clean_markdown (section_title header ++ [Str.nl; Str.nl] ++ section_content).

Definition section_candidates (title header section_content : str)
  : option (list Candidate) :=
  let t := section_text header section_content in
  if (Z.of_nat (length t) >? chunk_size settings)%Z then
    option_map (window_candidates (title ++ " - " ++ section_title header)
                  (section_title header) 0)
      (chunk_by_size t (chunk_size settings) (chunk_overlap settings))
  else if 50 <? length t then
    Some [ {| cand_title := title ++ " - " ++ section_title header; cand_text := t;
              cand_section := section_title header; cand_window := None |} ]
  else Some [].

Fixpoint sections_candidates (title : str) (sections : list (str * str))
  : option (list Candidate) :=
  match sections with
  | [] => Some []
  | (header, section_content) :: rest =>
      match section_candidates title header section_content,
            sections_candidates title rest with
      | Some a, Some b => Some (a ++ b)
      | _, _ => None
      end
  end.

(** The candidates of a whole document, in the order of the text. *)
Definition candidates (content title : str) : option (list Candidate) :=
  match Re.split re_header 1 content with
  | first :: (_ :: _) as rest =>
      option_map (app (plain_candidates title title first))
        (sections_candidates title (pairs rest))
  | _ =>
      Some (if nonempty (clean_markdown content)
            then [ {| cand_title := title; cand_text := clean_markdown content;
                      cand_section := title; cand_window := None |} ]
            else [])
  end.

(** The configurations under which [chunk_by_size] is called with a window
    longer than its overlap. *)
Definition valid_settings : Prop :=
  (0 <= chunk_overlap settings < chunk_size settings)%Z.

End Description.


(** Concrete inputs of the examples below. *)
Definition unit_world (records : list (StoredRecord unit)) : World unit :=
  {| collection := records; log := []; prompts := [] |}.

Definition old_record : StoredRecord unit :=
  {| rec_id := "0"; rec_embedding := Some tt; rec_document := "old text";
     rec_metadata := [] |}.

(** A configuration with windows of 60 words that overlap in 10, and a
    document with a section of 71 words, a section of 51 characters and a
    section of 14 characters. *)
Definition mid_windows : Settings :=
  {| groq_api_key := []; generation_model := "gemini-2.5-flash";
     groq_generation_model := "llama-3.1-8b-instant";
     chunk_size := 60; chunk_overlap := 10; top_k_results := 5;
     max_history_messages := 10 |}.

Definition seventy_words : str :=
  Str.join " " (repeat (list_ascii_of_string "word") 70).

Definition three_sections_doc : str :=
  "Intro" ++ [Str.nl] ++ "## Long" ++ [Str.nl] ++ seventy_words ++ [Str.nl]
    ++ "## Beta" ++ [Str.nl] ++ "This text is kept whole, as one single chunk." ++ [Str.nl]
    ++ "## Setup" ++ [Str.nl] ++ "Run it." ++ [Str.nl].

(** A section too short to be kept, after five characters of leading text. *)
Definition short_section_doc : str :=
  "Intro" ++ [Str.nl] ++ "## Setup" ++ [Str.nl] ++ "Run it." ++ [Str.nl].

(** A section of 41 words on as many lines: more than 500 characters. *)
Definition long_lines : str :=
  Str.join [Str.nl] (repeat (list_ascii_of_string "documentation") 40).

Definition few_words_doc : str :=
  "Intro" ++ [Str.nl] ++ "## Guide" ++ [Str.nl] ++ long_lines.

(** A document whose only header is its first line. *)
Definition first_line_doc : str :=
  "# Main Title" ++ [Str.nl; Str.nl]
    ++ "This document has one header, on its first line, and a body." ++ [Str.nl].

Definition body_one : str :=
  "Content for section 1, long enough to pass the length filter.".

Definition body_two : str :=
  "Content for section 2, long enough to pass the length filter.".

(** Two sections that are kept, in one file of an existing corpus, and an
    embedding service that fails on the second. *)
Definition two_section_doc : str :=
  "Intro" ++ [Str.nl] ++ "## Alpha" ++ [Str.nl] ++ body_one ++ [Str.nl]
    ++ "## Beta" ++ [Str.nl] ++ body_two ++ [Str.nl].

Definition two_section_corpus : Corpus :=
  {| docs_path := "/srv/docs";
     docs_path_exists := true;
     md_files :=
       [ {| name := "guide.md"; path := "/srv/docs/guide.md";
            parse_markdown_file :=
              inr (list_ascii_of_string "guide.md", list_ascii_of_string "Guide",
                   two_section_doc) |} ] |}.

Definition two_section_chunks : list (Chunk unit) :=
  Eval vm_compute in
    match chunk_by_headers unit default_settings two_section_doc "guide.md" "Guide" with
    | Some chunks => chunks
    | None => []
    end.

Definition flaky_embed (task_type content : str) : Exception + unit :=
  if Str.contains "Beta" content then inl (list_ascii_of_string "quota exceeded")
  else inr tt.

(** A configuration with windows of 8 words that overlap in 2, and a section
    of 13 words. *)
Definition small_windows : Settings :=
  {| groq_api_key := []; generation_model := "gemini-2.5-flash";
     groq_generation_model := "llama-3.1-8b-instant";
     chunk_size := 8; chunk_overlap := 2; top_k_results := 5;
     max_history_messages := 10 |}.

Definition thirteen_words_doc : str :=
  "x" ++ [Str.nl] ++ "## T" ++ [Str.nl]
    ++ "one two three four five six seven eight nine ten eleven twelve" ++ [Str.nl].

Definition missing_corpus : Corpus :=
  {| docs_path := "/srv/docs"; docs_path_exists := false; md_files := [] |}.

Definition steady_embed (task_type content : str) : Exception + unit := inr tt.

Definition failing_store (records : list (StoredRecord unit)) (e : unit) (k : Z)
  : Exception + VectorStore.QueryResults :=
  inl (list_ascii_of_string "index unavailable").

Definition echo_generate (p : LLMFactory.LLMProvider) (prompt : str) : Exception + str :=
  inr prompt.

(** Where a candidate comes from: the text outside the sections, kept whole,
    or the section under a header, kept whole or cut into windows. *)
Definition from_plain (title : str) (c : Candidate) : Prop :=
  cand_title c = title /\ cand_section c = title /\ cand_window c = None /\
  exists raw, cand_text c = clean_markdown raw.

Definition from_section (settings : Settings) (title : str) (c : Candidate) : Prop :=
  exists header section_content,
    cand_title c = title ++ " - " ++ section_title header /\
    cand_section c = section_title header /\
    ((cand_window c = None /\
      cand_text c = section_text header section_content /\
      50 < length (cand_text c)) \/
     (exists j windows,
        cand_window c = Some j /\
        chunk_by_size (section_text header section_content)
          (chunk_size settings) (chunk_overlap settings) = Some windows /\
        nth_error windows j = Some (cand_text c))).

(** A computation whose outcome and final collection are determined by the
    collection it starts from, and that leaves the prompts alone and only
    adds to the log. *)
Definition tracks {Vec A} (m : Eff.M (World Vec) A) : Prop :=
  forall col, exists v col', forall w, collection w = col ->
    exists entries,
      m w = (v, {| collection := col'; log := log w ++ entries; prompts := prompts w |}).

(** What one file contributes to a run of [ingest_docs]: nothing when it is
    passed over or cannot be parsed, and its chunks otherwise. *)
Definition file_chunks (Vec : Type) (settings : Settings) (f : MdFile)
  : option (list (Chunk Vec)) :=
  if skipped f then Some []
  else match parse_markdown_file f with
       | inl _ => Some []
       | inr (doc_path, title, content) =>
           chunk_by_headers Vec settings content doc_path title
       end.

(** The element [i] of the first row of a field of a store answer, the
    default when the field is missing, and [None] where the code raises
    [IndexError]. *)
Definition cell_value {X} (field : option (list (list X))) (i : nat) (default : X)
  : option X :=
  match VectorStore.first_row field with
  | Some row => nth_error row i
  | None => Some default
  end.

(** The provider that [GeminiProvider()] builds. *)
Definition default_provider (settings : Settings) : LLMFactory.LLMProvider :=
  {| LLMFactory.provider_class := LLMFactory.Gemini;
     LLMFactory.model_name := generation_model settings |}.

(** Store answers of the examples: two identifiers with their cells, the
    distances absent; and two identifiers with one document only. *)
Definition two_rows : VectorStore.QueryResults :=
  {| VectorStore.ids := Some [[list_ascii_of_string "a"; list_ascii_of_string "b"]];
     VectorStore.metadatas :=
       Some [[ [(list_ascii_of_string "doc_path", list_ascii_of_string "guide.md");
                (list_ascii_of_string "title", list_ascii_of_string "Guide")];
               [] ]];
     VectorStore.documents :=
       Some [[list_ascii_of_string "first text"; list_ascii_of_string "second text"]];
     VectorStore.distances := None |}.

Definition short_rows : VectorStore.QueryResults :=
  {| VectorStore.ids := Some [[list_ascii_of_string "a"; list_ascii_of_string "b"]];
     VectorStore.metadatas := None;
     VectorStore.documents := Some [[list_ascii_of_string "first text"]];
     VectorStore.distances := None |}.


Definition answering_store (res : VectorStore.QueryResults)
  (records : list (StoredRecord unit)) (e : unit) (k : Z)
  : Exception + VectorStore.QueryResults := inr res.

Definition failing_generate (p : LLMFactory.LLMProvider) (prompt : str)
  : Exception + str := inl (list_ascii_of_string "rate limit").

Definition failing_embed (task_type content : str) : Exception + unit :=
  inl (list_ascii_of_string "no network").

Definition groq_settings : Settings :=
  {| groq_api_key := "gsk-key"; generation_model := "gemini-2.5-flash";
     groq_generation_model := "llama-3.1-8b-instant";
     chunk_size := 500; chunk_overlap := 100; top_k_results := 5;
     max_history_messages := 10 |}.

(** What [search] returns on the first of these answers. *)
Definition two_rows_chunks : list RetrievedChunk.t :=
  Eval vm_compute in
    match fst (VectorStore.search unit (answering_store two_rows) tt 5
                 (unit_world [old_record])) with
    | Ok cs => cs
    | _ => []
    end.

(* ================================================================= *)
(** ** The digest against the test vectors of RFC 1321 *)

Example md5_empty : MD5.hexdigest [] = "d41d8cd98f00b204e9800998ecf8427e".
Proof. vm_compute. reflexivity. Qed.

Example md5_abc : MD5.hexdigest "abc" = "900150983cd24fb0d6963f7d28e17f72".
Proof. vm_compute. reflexivity. Qed.

Example md5_chunk_key : MD5.hexdigest "test.md:0" = "3e9472d5d02b6b66f47ec1cc56b45350".
Proof. vm_compute. reflexivity. Qed.

Example md5_two_blocks :
  MD5.hexdigest (repeat "a"%char 60) = "cc7ed669cf88f201c3297c6a91e1d18d".
Proof. vm_compute. reflexivity. Qed.

(* ================================================================= *)
(** ** Words, joins and slices *)

Lemma cons_word_words w ws :
  Forall (fun c => Str.is_space c = false) w -> Forall is_word ws ->
  Forall is_word (Str.cons_word w ws).
Proof.
  intros Hw Hws. destruct w as [|c w]; cbn; [exact Hws|].
  constructor; [split; [discriminate|exact Hw]|exact Hws].
Qed.

Lemma split_aux_words (s : str) :
  Forall (fun c => Str.is_space c = false) (fst (Str.split_aux s)) /\
  Forall is_word (snd (Str.split_aux s)).
Proof.
  induction s as [|c s [IH1 IH2]]; cbn [Str.split_aux].
  - split; constructor.
  - destruct (Str.split_aux s) as [w ws]. cbn [fst snd] in *.
    destruct (Str.is_space c) eqn:E; cbn [fst snd].
    + split; [constructor|]. now apply cons_word_words.
    + split; [constructor; assumption|assumption].
Qed.

Lemma split_words (s : str) : Forall is_word (Str.split s).
Proof.
  unfold Str.split. pose proof (split_aux_words s) as [H1 H2].
  destruct (Str.split_aux s) as [w ws]. now apply cons_word_words.
Qed.

Lemma split_aux_app_word (x rest : str) :
  Forall (fun c => Str.is_space c = false) x ->
  Str.split_aux (x ++ rest) =
    (x ++ fst (Str.split_aux rest), snd (Str.split_aux rest)).
Proof.
  induction 1 as [|c x Hc Hx IH]; cbn [app Str.split_aux].
  - now destruct (Str.split_aux rest).
  - rewrite IH, Hc. reflexivity.
Qed.

(** Splitting the join of words gives the words back. *)
Lemma split_join (ws : list str) :
  Forall is_word ws -> Str.split (Str.join " " ws) = ws.
Proof.
  induction 1 as [|x ws [Hne Hx] Hws IH]; [reflexivity|].
  unfold Str.split. cbn [Str.join].
  destruct ws as [|y ws].
  - rewrite <- (app_nil_r x) at 1. rewrite split_aux_app_word by exact Hx.
    cbn. rewrite app_nil_r. destruct x; [now elim Hne|reflexivity].
  - rewrite split_aux_app_word by exact Hx.
    change (list_ascii_of_string " " ++ Str.join " " (y :: ws))
      with (" "%char :: Str.join " " (y :: ws)).
    cbn [Str.split_aux]. unfold Str.split in IH.
    destruct (Str.split_aux (Str.join " " (y :: ws))) as [w' ws'].
    change (Str.is_space " ") with true. cbn [fst snd]. rewrite app_nil_r.
    rewrite IH. destruct x; [now elim Hne|reflexivity].
Qed.

Lemma slice_length_le {A} (l : list A) (i j : Z) :
  (0 <= i)%Z -> (0 <= j)%Z ->
  (Z.of_nat (length (Str.slice l i j)) <= Z.max 0 (j - i))%Z.
Proof.
  intros Hi Hj. unfold Str.slice. rewrite length_firstn, length_skipn.
  unfold Str.clamp. destruct (i <? 0)%Z eqn:Ei; [apply Z.ltb_lt in Ei; lia|].
  destruct (j <? 0)%Z eqn:Ej; [apply Z.ltb_lt in Ej; lia|]. lia.
Qed.

Lemma Forall_firstn {A} (P : A -> Prop) (n : nat) (l : list A) :
  Forall P l -> Forall P (firstn n l).
Proof.
  intro H. rewrite <- (firstn_skipn n l) in H. now apply Forall_app in H as [H _].
Qed.

Lemma Forall_skipn {A} (P : A -> Prop) (n : nat) (l : list A) :
  Forall P l -> Forall P (skipn n l).
Proof.
  intro H. rewrite <- (firstn_skipn n l) in H. now apply Forall_app in H as [_ H].
Qed.

Lemma slice_Forall {A} (P : A -> Prop) (l : list A) (i j : Z) :
  Forall P l -> Forall P (Str.slice l i j).
Proof. intro H. unfold Str.slice. now apply Forall_firstn, Forall_skipn. Qed.

Lemma slice_prefix {A} (l : list A) (n : nat) :
  Str.slice l 0 (Z.of_nat n) = firstn n l.
Proof.
  unfold Str.slice, Str.clamp. cbn [Z.ltb Z.compare].
  destruct (Z.of_nat n <? 0)%Z eqn:E; [apply Z.ltb_lt in E; lia|].
  rewrite (Z.min_l 0) by lia. cbn [Z.to_nat skipn]. rewrite Nat.sub_0_r.
  destruct (Z.min_spec (Z.of_nat n) (Z.of_nat (length l))) as [[H ->]|[H ->]].
  - rewrite Nat2Z.id. reflexivity.
  - rewrite Nat2Z.id. rewrite firstn_all. symmetry. apply firstn_all2. lia.
Qed.

Lemma lstrip_suffix s : exists pre, s = pre ++ Str.lstrip s.
Proof.
  induction s as [|c s [pre IH]]; cbn [Str.lstrip]; [now exists []|].
  destruct (Str.is_space c); [|now exists []].
  exists (c :: pre). cbn. now rewrite <- IH.
Qed.

Lemma lstrip_head s c r : Str.lstrip s = c :: r -> Str.is_space c = false.
Proof.
  induction s as [|d s IH]; cbn [Str.lstrip]; [discriminate|].
  destruct (Str.is_space d) eqn:E; [exact IH|].
  intro H. injection H as <- _. exact E.
Qed.

Lemma rstrip_prefix s : exists suf, s = Str.rstrip s ++ suf.
Proof.
  unfold Str.rstrip. destruct (lstrip_suffix (rev s)) as [pre H].
  exists (rev pre). rewrite <- rev_app_distr, <- H. now rewrite rev_involutive.
Qed.

(** Stripped text does not start with whitespace. *)
Lemma strip_head s c r : Str.strip s = c :: r -> Str.is_space c = false.
Proof.
  unfold Str.strip. intro H.
  destruct (rstrip_prefix (Str.lstrip s)) as [suf Hs]. rewrite H in Hs.
  now apply lstrip_head in Hs.
Qed.

Lemma split_nonempty c r : Str.is_space c = false -> Str.split (c :: r) <> [].
Proof.
  intro H. unfold Str.split. cbn [Str.split_aux]. rewrite H.
  destruct (Str.split_aux r). discriminate.
Qed.

Lemma startswith_app p x : Str.startswith p (p ++ x) = true.
Proof. induction p as [|c p IH]; cbn; [reflexivity|]. now rewrite Ascii.eqb_refl. Qed.

Lemma contains_suffix p a : Str.contains p (a ++ p) = true.
Proof.
  induction a as [|c a IH]; cbn [app].
  - rewrite <- (app_nil_r p) at 2. destruct p; cbn; [reflexivity|].
    rewrite Ascii.eqb_refl. cbn. now rewrite startswith_app.
  - cbn [Str.contains]. rewrite IH. apply orb_true_r.
Qed.

(* ================================================================= *)
(** ** [chunk_by_size]: the sliding window over words *)

(** What a run of the loop that ends has appended: the windows that start at
    [start], [start + (size - overlap)], ... *)
Lemma chunk_loop_windows (words : list str) (size overlap : Z) :
  forall fuel start acc result,
    chunk_loop fuel words size overlap start acc = Some result ->
    exists ws,
      result = acc ++ ws /\
      forall j w, nth_error ws j = Some w ->
        w = Str.join " "
              (Str.slice words (start + Z.of_nat j * (size - overlap))
                 (start + Z.of_nat j * (size - overlap) + size)).
Proof.
  induction fuel as [|fuel IH]; intros start acc result; cbn [chunk_loop]; [discriminate|].
  destruct (start <? Z.of_nat (length words))%Z.
  - destruct (start + size >=? Z.of_nat (length words))%Z.
    + intro H. injection H as <-. eexists. split; [reflexivity|].
      intros [|j] w Hj; cbn in Hj; [|now destruct j].
      injection Hj as <-. do 2 f_equal; lia.
    + intro H. apply IH in H as (ws & -> & Hws).
      eexists. split; [rewrite <- app_assoc; reflexivity|].
      intros [|j] w Hj; cbn in Hj.
      * injection Hj as <-. do 2 f_equal; lia.
      * apply Hws in Hj. subst w. do 2 f_equal; lia.
  - intro H. injection H as <-. exists []. split; [now rewrite app_nil_r|].
    intros [|j] w Hj; discriminate.
Qed.

(** With a positive stride the loop ends within one iteration per word left,
    and one more. *)
Lemma chunk_loop_ends (words : list str) (size overlap : Z) :
  (0 <= overlap < size)%Z ->
  forall fuel start acc,
    (0 <= start)%Z ->
    (Z.of_nat (length words) - start < Z.of_nat fuel)%Z -> 0 < fuel ->
    exists result, chunk_loop fuel words size overlap start acc = Some result.
Proof.
  intros Hso. induction fuel as [|fuel IH]; intros start acc Hs Hf Hpos; [lia|].
  cbn [chunk_loop].
  destruct (start <? Z.of_nat (length words))%Z eqn:E1; [|eauto].
  destruct (start + size >=? Z.of_nat (length words))%Z eqn:E2; [eauto|].
  apply Z.ltb_lt in E1. rewrite Z.geb_leb in E2. apply Z.leb_gt in E2.
  apply IH; lia.
Qed.

(** More fuel does not change the result of a run that ends. *)
Lemma chunk_loop_fuel (words : list str) (size overlap : Z) :
  forall fuel fuel' start acc result,
    chunk_loop fuel words size overlap start acc = Some result ->
    fuel <= fuel' ->
    chunk_loop fuel' words size overlap start acc = Some result.
Proof.
  induction fuel as [|fuel IH]; intros fuel' start acc result; cbn [chunk_loop];
    [discriminate|].
  intros H Hle. destruct fuel' as [|fuel']; [lia|]. cbn [chunk_loop].
  destruct (start <? Z.of_nat (length words))%Z; [|exact H].
  destruct (start + size >=? Z.of_nat (length words))%Z; [exact H|].
  apply IH; [exact H|lia].
Qed.

(** With [size <= overlap] the start index never advances: once a first
    window does not reach the last word, no number of iterations does. *)
Lemma chunk_loop_stuck (words : list str) (size overlap : Z) :
  (size <= overlap)%Z ->
  forall fuel start acc,
    (start <= 0)%Z -> (0 < Z.of_nat (length words))%Z ->
    (size < Z.of_nat (length words))%Z ->
    chunk_loop fuel words size overlap start acc = None.
Proof.
  intros Hso. induction fuel as [|fuel IH]; intros start acc Hs Hlen Hsz; [reflexivity|].
  cbn [chunk_loop].
  destruct (start <? Z.of_nat (length words))%Z eqn:E1; [|apply Z.ltb_ge in E1; lia].
  destruct (start + size >=? Z.of_nat (length words))%Z eqn:E2.
  - rewrite Z.geb_leb in E2. apply Z.leb_le in E2. lia.
  - apply IH; lia.
Qed.

(** The run of [chunk_by_size] under [0 <= overlap < size]. *)
Lemma chunk_by_size_runs (text : str) (size overlap : Z) :
  (0 <= overlap < size)%Z ->
  exists windows,
    chunk_by_size text size overlap = Some windows /\
    (forall fuel, length (Str.split text) < fuel ->
       chunk_loop fuel (Str.split text) size overlap 0 [] = Some windows) /\
    (forall k w, nth_error windows k = Some w ->
       w = Str.join " "
             (Str.slice (Str.split text) (Z.of_nat k * (size - overlap))
                (Z.of_nat k * (size - overlap) + size)) /\
       (Z.of_nat (length (Str.split w)) <= size)%Z).
Proof.
  intro Hso. unfold chunk_by_size.
  destruct (chunk_loop_ends (Str.split text) size overlap Hso
              (S (length (Str.split text))) 0%Z []) as [windows Hrun]; try lia.
  exists windows. split; [exact Hrun|]. split.
  - intros fuel Hfuel. eapply chunk_loop_fuel; [exact Hrun|lia].
  - intros k w Hk.
    apply chunk_loop_windows in Hrun as (ws & Heq & Hws). cbn [app] in Heq. subst ws.
    apply Hws in Hk. rewrite Z.add_0_l in Hk. split; [exact Hk|].
    subst w. rewrite split_join
      by (apply slice_Forall, split_words).
    assert (Hk0 : (0 <= Z.of_nat k * (size - overlap))%Z)
      by (apply Z.mul_nonneg_nonneg; lia).
    etransitivity; [apply slice_length_le; lia|]. lia.
Qed.

Lemma chunk_by_size_nonempty t size overlap ws :
  chunk_by_size t size overlap = Some ws -> Str.split t <> [] -> ws <> [].
Proof.
  unfold chunk_by_size. intros H Hne. cbn [chunk_loop] in H.
  destruct (Str.split t) as [|w0 words]; [now elim Hne|].
  cbn [length] in H.
  replace (0 <? Z.of_nat (S (length words)))%Z with true in H
    by (symmetry; apply Z.ltb_lt; lia).
  destruct (0 + size >=? Z.of_nat (S (length words)))%Z.
  - injection H as <-. discriminate.
  - apply chunk_loop_windows in H as (ws' & -> & _). discriminate.
Qed.

Lemma repeat_words (n : nat) : Forall is_word (repeat (list_ascii_of_string "a") n).
Proof.
  apply Forall_forall. intros w Hw. apply repeat_spec in Hw. subst w.
  split; [discriminate|]. repeat constructor.
Qed.

(** C10.  For [0 <= overlap < size], [chunk_by_size] ends on every text: the
    run with one iteration per word and one more returns, more fuel returns
    the same windows, window [k] is the join of the words
    [k*(size-overlap) .. k*(size-overlap)+size) and has at most [size] words.
    For [size <= overlap] there are texts on which the loop never ends. *)
Theorem chunk_by_size_total (size overlap : Z) :
  (0 <= overlap)%Z ->
  ((overlap < size)%Z ->
   forall text, exists windows,
     chunk_by_size text size overlap = Some windows /\
     (forall fuel, length (Str.split text) < fuel ->
        chunk_loop fuel (Str.split text) size overlap 0 [] = Some windows) /\
     (forall k w, nth_error windows k = Some w ->
        w = Str.join " "
              (Str.slice (Str.split text) (Z.of_nat k * (size - overlap))
                 (Z.of_nat k * (size - overlap) + size)) /\
        (Z.of_nat (length (Str.split w)) <= size)%Z)) /\
  ((size <= overlap)%Z ->
   exists text, forall fuel,
     chunk_loop fuel (Str.split text) size overlap 0 [] = None).
Proof.
  intro H0. split.
  - intros Hlt text. apply chunk_by_size_runs. lia.
  - intro Hle.
    exists (Str.join " " (repeat (list_ascii_of_string "a") (S (Z.to_nat size)))).
    intro fuel. rewrite split_join by apply repeat_words.
    apply chunk_loop_stuck; rewrite ?repeat_length; lia.
Qed.

Lemma chunk_by_size_total_witness :
  (0 <= 100)%Z /\ (100 < 500)%Z /\
  exists windows, chunk_by_size "one two three" 500 100 = Some windows.
Proof.
  assert (H0 : (0 <= 100)%Z) by lia.
  assert (H1 : (100 < 500)%Z) by lia.
  split; [exact H0|]. split; [exact H1|].
  destruct (chunk_by_size_total 500 100 H0) as [Hruns _].
  destruct (Hruns H1 (list_ascii_of_string "one two three")) as (windows & Hw & _).
  exists windows. exact Hw.
Defined.

Example chunk_by_size_overlapping_windows :
  chunk_by_size "a b c d e f g" 3 1 = Some [list_ascii_of_string "a b c";
    list_ascii_of_string "c d e"; list_ascii_of_string "e f g"].
Proof. vm_compute. reflexivity. Qed.

(* ================================================================= *)
(** ** [chunk_by_headers] as the numbering of its candidates *)

Lemma pairs_interleave ps : pairs (interleave ps) = ps.
Proof. induction ps as [|[h b] ps IH]; cbn; [reflexivity|now rewrite IH]. Qed.

Lemma split_scan_interleave segs grp s : forall skip,
  exists ps, snd (split_scan segs grp s skip) = interleave ps.
Proof.
  induction s as [|c s IH]; intro skip; cbn [split_scan].
  - now exists [].
  - destruct skip as [|n]; [|apply IH].
    destruct (match_segs segs (c :: s)) as [[gs rest]|].
    + destruct (IH (Nat.pred (length (concat gs)))) as [ps Hps].
      destruct (split_scan segs grp s _) as [p ps']. cbn [snd] in *.
      exists ((nth grp gs [], p) :: ps). cbn. now rewrite Hps.
    + destruct (IH 0) as [ps Hps].
      destruct (split_scan segs grp s 0) as [p ps']. now exists ps.
Qed.

(** [re.split] returns a leading text and then (group, text) pairs. *)
Lemma split_interleave segs grp s :
  exists first ps, Re.split segs grp s = first :: interleave ps.
Proof.
  unfold Re.split. destruct (split_scan_interleave segs grp s 0) as [ps Hps].
  destruct (split_scan segs grp s 0) as [p ps']. cbn in Hps. subst. now exists p, ps.
Qed.

Section ChunkerFacts.
Variable Vec : Type.
Variable settings : Settings.

Lemma number_app doc_path cs1 : forall base cs2,
  number Vec doc_path base (cs1 ++ cs2) =
  number Vec doc_path base cs1 ++ number Vec doc_path (base + length cs1) cs2.
Proof.
  induction cs1 as [|c cs1 IH]; intros base cs2; cbn [number app length].
  - now rewrite Nat.add_0_r.
  - rewrite IH. do 3 f_equal. lia.
Qed.

Lemma number_length doc_path cs : forall base,
  length (number Vec doc_path base cs) = length cs.
Proof. induction cs; intro; cbn; auto. Qed.

Lemma number_nth doc_path cs : forall base n c,
  nth_error (number Vec doc_path base cs) n = Some c ->
  exists cand, nth_error cs n = Some cand /\ c = chunk_of Vec doc_path (base + n) cand.
Proof.
  induction cs as [|c0 cs IH]; intros base n c; cbn [number].
  - now destruct n.
  - destruct n as [|n]; cbn [nth_error].
    + intro H. injection H as <-. exists c0. rewrite Nat.add_0_r. auto.
    + intro H. apply IH in H as (cand & H1 & H2). exists cand.
      split; [exact H1|]. rewrite H2. f_equal. lia.
Qed.

Lemma number_texts doc_path cs : forall base,
  map DocumentChunk.text (number Vec doc_path base cs) = map cand_text cs.
Proof. induction cs as [|c cs IH]; intro; cbn; [reflexivity|now rewrite IH]. Qed.

Lemma number_In doc_path cand cs : forall base,
  In cand cs -> exists n, In (chunk_of Vec doc_path n cand) (number Vec doc_path base cs).
Proof.
  induction cs as [|c cs IH]; intros base Hin; [destruct Hin|].
  destruct Hin as [->|Hin].
  - exists base. now left.
  - destruct (IH (S base) Hin) as [n Hn]. exists n. now right.
Qed.

Lemma append_windows_number doc_path title section subs : forall chunks j,
  append_windows Vec chunks doc_path title section j subs =
  chunks ++ number Vec doc_path (length chunks) (window_candidates title section j subs).
Proof.
  induction subs as [|w subs IH]; intros chunks j;
    cbn [append_windows window_candidates number].
  - now rewrite app_nil_r.
  - rewrite IH, <- app_assoc, length_app. cbn [length app].
    rewrite Nat.add_1_r. reflexivity.
Qed.

Lemma append_plain_number chunks doc_path title section current_text :
  append_plain Vec chunks doc_path title section current_text =
  chunks ++ number Vec doc_path (length chunks) (plain_candidates title section current_text).
Proof.
  unfold append_plain, plain_candidates.
  destruct (nonempty (Str.strip current_text)); cbn [andb]; [|now rewrite app_nil_r].
  destruct (50 <? length (clean_markdown current_text)) eqn:E.
  - destruct (clean_markdown current_text) eqn:E'; [discriminate|]. reflexivity.
  - rewrite andb_false_r. now rewrite app_nil_r.
Qed.

Lemma append_section_number chunks doc_path title header section_content :
  append_section Vec settings chunks doc_path title (Str.strip header) section_content =
  option_map (fun cs => chunks ++ number Vec doc_path (length chunks) cs)
    (section_candidates settings title header section_content).
Proof.
  unfold append_section, section_candidates, section_text, section_title.
  set (st := sub_at_start re_heading Re.drop (Str.strip header)).
  set (t := clean_markdown _).
  destruct (Z.of_nat (length t) >? chunk_size settings)%Z.
  - destruct (chunk_by_size t _ _) as [ws|]; [|reflexivity].
    cbn [option_map]. now rewrite append_windows_number.
  - destruct (50 <? length t) eqn:E.
    + destruct t; [discriminate|]. reflexivity.
    + rewrite andb_false_r. cbn. now rewrite app_nil_r.
Qed.

Lemma plain_candidates_empty title section : plain_candidates title section [] = [].
Proof. reflexivity. Qed.

(** The loop over the sections appends the numbered candidates of the leading
    text and of every section, and leaves no text behind. *)
Lemma sections_loop_number doc_path title sections : forall current_text chunks,
  sections <> [] ->
  sections_loop Vec settings (interleave sections) doc_path title current_text chunks =
  option_map (fun cs =>
      ([], chunks ++ number Vec doc_path (length chunks)
                       (plain_candidates title title current_text ++ cs)))
    (sections_candidates settings title sections).
Proof.
  induction sections as [|[h b] sections IH]; intros current_text chunks Hne;
    [now elim Hne|].
  cbn [interleave sections_loop sections_candidates].
  rewrite append_plain_number, append_section_number.
  destruct (section_candidates settings title h b) as [a|]; [|reflexivity].
  cbn [option_map].
  destruct sections as [|p sections].
  - cbn. rewrite app_nil_r, number_app, app_assoc, length_app, number_length. reflexivity.
  - rewrite IH by discriminate.
    destruct (sections_candidates settings title (p :: sections)) as [c|]; [|reflexivity].
    cbn [option_map]. rewrite plain_candidates_empty. cbn [app].
    rewrite !number_app, !length_app, !number_length, <- !app_assoc.
    repeat (f_equal; try lia).
Qed.

(** The chunks are the candidates of the document, numbered from 0. *)
Lemma chunk_by_headers_candidates (content doc_path title : str) :
  chunk_by_headers Vec settings content doc_path title =
  option_map (number Vec doc_path 0) (candidates settings content title).
Proof.
  unfold chunk_by_headers, candidates.
  destruct (split_interleave re_header 1 content) as (first & ps & ->).
  destruct ps as [|[h b] ps].
  - cbn [interleave]. destruct (nonempty (clean_markdown content)); reflexivity.
  - cbn [interleave].
    change (h :: b :: interleave ps) with (interleave ((h, b) :: ps)).
    rewrite sections_loop_number by discriminate.
    rewrite pairs_interleave.
    destruct (sections_candidates settings title ((h, b) :: ps)) as [cs|]; [|reflexivity].
    cbn [option_map app length]. rewrite append_plain_number.
    rewrite plain_candidates_empty. cbn [number]. now rewrite app_nil_r.
Qed.

Lemma section_candidates_total title header section_content :
  valid_settings settings ->
  exists cs, section_candidates settings title header section_content = Some cs.
Proof.
  intro Hv. unfold section_candidates.
  destruct (_ >? _)%Z.
  - destruct (chunk_by_size_runs (section_text header section_content) _ _ Hv)
      as (ws & -> & _). cbn. eauto.
  - destruct (50 <? _); eauto.
Qed.

Lemma sections_candidates_total title sections :
  valid_settings settings ->
  exists cs, sections_candidates settings title sections = Some cs.
Proof.
  intro Hv. induction sections as [|[h b] sections [cs IH]]; cbn; [eauto|].
  destruct (section_candidates_total title h b Hv) as [a ->]. rewrite IH. eauto.
Qed.

(** Under a valid configuration the chunker returns on every document. *)
Lemma candidates_total content title :
  valid_settings settings -> exists cs, candidates settings content title = Some cs.
Proof.
  intro Hv. unfold candidates.
  destruct (Re.split re_header 1 content) as [|first [|h rest]]; eauto.
  destruct (sections_candidates_total title (pairs (h :: rest)) Hv) as [cs ->].
  cbn. eauto.
Qed.

Lemma sections_candidates_app title ps1 : forall ps2 cs,
  sections_candidates settings title (ps1 ++ ps2) = Some cs ->
  exists cs1 cs2,
    sections_candidates settings title ps1 = Some cs1 /\
    sections_candidates settings title ps2 = Some cs2 /\
    cs = cs1 ++ cs2.
Proof.
  induction ps1 as [|[h b] ps1 IH]; intros ps2 cs; cbn [app sections_candidates].
  - intro H. exists [], cs. auto.
  - destruct (section_candidates settings title h b) as [a|]; [|discriminate].
    destruct (sections_candidates settings title (ps1 ++ ps2)) as [c|] eqn:E;
      [|discriminate].
    intro H. injection H as <-.
    destruct (IH ps2 c E) as (cs1 & cs2 & -> & H2 & ->).
    exists (a ++ cs1), cs2. now rewrite app_assoc.
Qed.

End ChunkerFacts.

(* ================================================================= *)
(** ** Chunk identifiers *)

Lemma window_candidates_nth title section windows : forall j0 n cand,
  nth_error (window_candidates title section j0 windows) n = Some cand ->
  exists w, nth_error windows n = Some w /\
    cand = {| cand_title := title; cand_text := w; cand_section := section;
              cand_window := Some (j0 + n) |}.
Proof.
  induction windows as [|w0 windows IH]; intros j0 n cand; cbn [window_candidates].
  - now destruct n.
  - destruct n as [|n]; cbn [nth_error].
    + intro H. injection H as <-. exists w0. now rewrite Nat.add_0_r.
    + intro H. apply IH in H as (w & H1 & ->). exists w. split; [exact H1|].
      do 2 f_equal. lia.
Qed.

Lemma window_candidates_texts title section windows : forall j0,
  map cand_text (window_candidates title section j0 windows) = windows.
Proof. induction windows as [|w ws IH]; intro; cbn; [reflexivity|now rewrite IH]. Qed.




Section Identifiers.
Variable Vec : Type.
Variable settings : Settings.





End Identifiers.


Example two_section_chunk_ids :
  map DocumentChunk.id two_section_chunks =
    [MD5.hexdigest (key "guide.md" 0); MD5.hexdigest (key "guide.md" 1)].
Proof. vm_compute. reflexivity. Qed.

Example window_chunk_ids :
  option_map (map (fun c => (DocumentChunk.id c, DocumentChunk.text c)))
    (chunk_by_headers unit small_windows thirteen_words_doc "p.md" "P") =
  Some [ (MD5.hexdigest "p.md:0:0",
          list_ascii_of_string "T one two three four five six seven");
         (MD5.hexdigest "p.md:1:1",
          list_ascii_of_string "six seven eight nine ten eleven twelve") ].
Proof. vm_compute. reflexivity. Qed.


(* ================================================================= *)
(** ** Sections: the size-bounded split, or the whole text *)

Section Sections.
Variable Vec : Type.
Variable settings : Settings.

(** The candidates of the sections, section by section. *)
Lemma sections_candidates_concat title sections : forall cs,
  sections_candidates settings title sections = Some cs ->
  exists per,
    cs = concat per /\
    Forall2 (fun hb cands =>
               section_candidates settings title (fst hb) (snd hb) = Some cands)
      sections per.
Proof.
  induction sections as [|[h b] sections IH]; intros cs H; cbn [sections_candidates] in H.
  - injection H as <-. exists []. split; [reflexivity|constructor].
  - destruct (section_candidates settings title h b) as [a|] eqn:Ea; [|discriminate].
    destruct (sections_candidates settings title sections) as [r|]; [|discriminate].
    injection H as <-. destruct (IH r eq_refl) as (per & -> & Hper).
    exists (a :: per). split; [reflexivity|]. constructor; [exact Ea|exact Hper].
Qed.

(** Numbering a concatenation numbers each part from where the part before
    it ended. *)
Lemma number_concat doc_path per : forall base,
  exists per_chunks,
    number Vec doc_path base (concat per) = concat per_chunks /\
    Forall2 (fun cands chunks => exists b, chunks = number Vec doc_path b cands)
      per per_chunks.
Proof.
  induction per as [|cands per IH]; intro base.
  - exists []. split; [reflexivity|constructor].
  - destruct (IH (base + length cands)) as (rest & Hrest & Hall).
    exists (number Vec doc_path base cands :: rest). cbn [concat].
    rewrite number_app, Hrest. split; [reflexivity|]. constructor; [eauto|exact Hall].
Qed.

Lemma Forall2_compose {A B C} (P : A -> B -> Prop) (Q : B -> C -> Prop) (R : A -> C -> Prop)
  (la : list A) : forall (lb : list B) (lc : list C),
  (forall a b c, P a b -> Q b c -> R a c) ->
  Forall2 P la lb -> Forall2 Q lb lc -> Forall2 R la lc.
Proof.
  induction la as [|a la IH]; intros lb lc HR HP HQ; inversion HP; subst;
    inversion HQ; subst; constructor; eauto.
Qed.

(** What the chunks of one section are, from its candidates. *)
Lemma section_chunks title header section_content cands doc_path b :
  section_candidates settings title header section_content = Some cands ->
  let emitted := number Vec doc_path b cands in
  let t := section_text header section_content in
  let size := chunk_size settings in
  let stride := (chunk_size settings - chunk_overlap settings)%Z in
  Forall (fun c => DocumentChunk.title c = title ++ " - " ++ section_title header) emitted /\
  ((Z.of_nat (length t) > size)%Z ->
     chunk_by_size t size (chunk_overlap settings) = Some (map DocumentChunk.text emitted) /\
     forall j c, nth_error emitted j = Some c ->
       DocumentChunk.text c =
         Str.join " " (Str.slice (Str.split t) (Z.of_nat j * stride)
                         (Z.of_nat j * stride + size))) /\
  ((Z.of_nat (length t) <= size)%Z -> 50 < length t ->
     map DocumentChunk.text emitted = [t]) /\
  ((Z.of_nat (length t) <= size)%Z -> length t <= 50 -> emitted = []).
Proof.
  intros Hsec. cbv zeta. unfold section_candidates in Hsec.
  destruct (Z.of_nat (length (section_text header section_content)) >? chunk_size settings)%Z
    eqn:Egt.
  - destruct (chunk_by_size _ _ _) as [ws|] eqn:Ews; [|discriminate].
    cbn [option_map] in Hsec. injection Hsec as <-.
    split; [|split; [|split; intros Hle; apply Z.gtb_lt in Egt; lia]].
    + apply Forall_forall. intros c Hc. apply In_nth_error in Hc as [n Hn].
      apply number_nth in Hn as (cand & Hcand & ->).
      apply window_candidates_nth in Hcand as (w & _ & ->). reflexivity.
    + intros _. rewrite number_texts, window_candidates_texts. split; [reflexivity|].
      intros j c Hj. apply number_nth in Hj as (cand & Hcand & ->).
      apply window_candidates_nth in Hcand as (w & Hw & ->). cbn.
      unfold chunk_by_size in Ews.
      apply chunk_loop_windows in Ews as (ws' & Hws' & Hnth). cbn [app] in Hws'. subst ws'.
      rewrite (Hnth j w Hw). now rewrite !Z.add_0_l.
  - assert (Hle : (Z.of_nat (length (section_text header section_content))
                     <= chunk_size settings)%Z).
    { destruct (Z.gtb_spec (Z.of_nat (length (section_text header section_content)))
                  (chunk_size settings)); [discriminate|lia]. }
    destruct (50 <? length (section_text header section_content)) eqn:E50;
      injection Hsec as <-; cbn [number map].
    + apply Nat.ltb_lt in E50.
      split; [repeat constructor|]. split; [intros; lia|].
      split; [reflexivity|intros; lia].
    + apply Nat.ltb_ge in E50.
      split; [constructor|]. split; [intros; lia|].
      split; [intros; lia|reflexivity].
Qed.

(** C2, amended.  On a document with at least one header delimiter the
    chunks are those of the leading text followed by those of the sections,
    section by section in the order of the document.  The chunks of a
    section are: when its normalized text has more characters than
    [chunk_size], the windows of [chunk_by_size] over its words, one chunk
    per window, window [j] holding the words
    [j*(size-overlap) .. j*(size-overlap)+size); when it has at most
    [chunk_size] characters, the text itself as one chunk if it is longer
    than 50 characters, and no chunk otherwise.  The leading text gives one
    chunk when it is longer than 50 characters and none otherwise.  With
    [0 <= chunk_overlap < chunk_size] the chunker returns on every
    document. *)
Theorem section_windows_or_whole
  (content doc_path title first : str) (sections : list (str * str)) :
  sections <> [] ->
  Re.split re_header 1 content = first :: interleave sections ->
  (valid_settings settings ->
   exists chunks, chunk_by_headers Vec settings content doc_path title = Some chunks) /\
  (forall chunks,
     chunk_by_headers Vec settings content doc_path title = Some chunks ->
     exists lead per_section,
       chunks = lead ++ concat per_section /\
       Forall (fun c => DocumentChunk.title c = title) lead /\
       map DocumentChunk.text lead =
         (if nonempty (Str.strip first) && (50 <? length (clean_markdown first))
          then [clean_markdown first] else []) /\
       Forall2 (fun hb emitted =>
           let t := section_text (fst hb) (snd hb) in
           let size := chunk_size settings in
           let stride := (chunk_size settings - chunk_overlap settings)%Z in
           Forall (fun c => DocumentChunk.title c
                            = title ++ " - " ++ section_title (fst hb)) emitted /\
           ((Z.of_nat (length t) > size)%Z ->
              chunk_by_size t size (chunk_overlap settings)
                = Some (map DocumentChunk.text emitted) /\
              forall j c, nth_error emitted j = Some c ->
                DocumentChunk.text c =
                  Str.join " " (Str.slice (Str.split t) (Z.of_nat j * stride)
                                  (Z.of_nat j * stride + size))) /\
           ((Z.of_nat (length t) <= size)%Z -> 50 < length t ->
              map DocumentChunk.text emitted = [t]) /\
           ((Z.of_nat (length t) <= size)%Z -> length t <= 50 -> emitted = []))
         sections per_section).
Proof.
  intros Hne Hsplit. split.
  - intro Hv. rewrite chunk_by_headers_candidates.
    destruct (candidates_total settings content title Hv) as [cs ->]. cbn. eauto.
  - intros chunks. rewrite chunk_by_headers_candidates. unfold candidates.
    rewrite Hsplit.
    destruct (interleave sections) as [|x rest] eqn:Ei.
    { destruct sections as [|[? ?] ?]; [congruence|discriminate]. }
    rewrite <- Ei, pairs_interleave.
    destruct (sections_candidates settings title sections) as [scs|] eqn:Hs; [|discriminate].
    cbn [option_map]. intro H. injection H as <-.
    apply sections_candidates_concat in Hs as (per & -> & Hper).
    rewrite number_app.
    destruct (number_concat doc_path per (0 + length (plain_candidates title title first)))
      as (per_chunks & -> & Hchunks).
    exists (number Vec doc_path 0 (plain_candidates title title first)), per_chunks.
    split; [reflexivity|]. split; [|split].
    + unfold plain_candidates. destruct (_ && _); repeat constructor.
    + rewrite number_texts. unfold plain_candidates. destruct (_ && _); reflexivity.
    + eapply Forall2_compose; [|exact Hper|exact Hchunks].
      intros [h b] cands emitted Hc [base ->]. cbn [fst snd] in *.
      exact (section_chunks title h b cands doc_path base Hc).
Qed.

End Sections.

Lemma section_windows_or_whole_witness :
  [(list_ascii_of_string "## Long", seventy_words);
   (list_ascii_of_string "## Beta",
    list_ascii_of_string "This text is kept whole, as one single chunk.");
   (list_ascii_of_string "## Setup", "Run it." ++ [Str.nl])] <> [] /\
  Re.split re_header 1 three_sections_doc =
    list_ascii_of_string "Intro"
      :: interleave
           [(list_ascii_of_string "## Long", seventy_words);
            (list_ascii_of_string "## Beta",
             list_ascii_of_string "This text is kept whole, as one single chunk.");
            (list_ascii_of_string "## Setup", "Run it." ++ [Str.nl])] /\
  valid_settings mid_windows /\
  (Z.of_nat (length (section_text "## Long" (seventy_words)))
     > chunk_size mid_windows)%Z /\
  length (section_text "## Beta"
            (list_ascii_of_string "This text is kept whole, as one single chunk.")) = 51 /\
  length (section_text "## Setup" ("Run it." ++ [Str.nl])) = 14 /\
  exists chunks,
    chunk_by_headers unit mid_windows three_sections_doc "doc.md" "Doc" = Some chunks /\
    exists lead long beta setup,
      chunks = lead ++ concat [long; beta; setup] /\
      lead = [] /\
      length long = 2 /\
      map DocumentChunk.text beta =
        [section_text "## Beta"
           (list_ascii_of_string "This text is kept whole, as one single chunk.")] /\
      setup = [].
Proof.
  assert (Hne : [(list_ascii_of_string "## Long", seventy_words);
                 (list_ascii_of_string "## Beta",
                  list_ascii_of_string "This text is kept whole, as one single chunk.");
                 (list_ascii_of_string "## Setup", "Run it." ++ [Str.nl])] <> [])
    by discriminate.
  assert (Hsplit : Re.split re_header 1 three_sections_doc =
    list_ascii_of_string "Intro"
      :: interleave
           [(list_ascii_of_string "## Long", seventy_words);
            (list_ascii_of_string "## Beta",
             list_ascii_of_string "This text is kept whole, as one single chunk.");
            (list_ascii_of_string "## Setup", "Run it." ++ [Str.nl])])
    by (vm_compute; reflexivity).
  assert (Hv : valid_settings mid_windows) by (unfold valid_settings; cbn; lia).
  assert (Hlong : (Z.of_nat (length (section_text "## Long" (seventy_words)))
                     > chunk_size mid_windows)%Z) by (vm_compute; reflexivity).
  assert (Hbeta : length (section_text "## Beta"
            (list_ascii_of_string "This text is kept whole, as one single chunk.")) = 51)
    by (vm_compute; reflexivity).
  assert (Hsetup : length (section_text "## Setup" ("Run it." ++ [Str.nl])) = 14)
    by (vm_compute; reflexivity).
  split; [exact Hne|]. split; [exact Hsplit|]. split; [exact Hv|].
  split; [exact Hlong|]. split; [exact Hbeta|]. split; [exact Hsetup|].
  destruct (section_windows_or_whole unit mid_windows three_sections_doc "doc.md" "Doc"
              _ _ Hne Hsplit) as [Htotal Hshape].
  destruct (Htotal Hv) as [chunks Hchunks].
  exists chunks. split; [exact Hchunks|].
  destruct (Hshape chunks Hchunks) as (lead & per & Hcat & _ & Hlead & Hper).
  inversion Hper as [|? long ? per1 Hl Hper1]; subst.
  inversion Hper1 as [|? beta ? per2 Hb Hper2]; subst.
  inversion Hper2 as [|? setup ? per3 Hs Hper3]; subst.
  inversion Hper3; subst.
  exists lead, long, beta, setup. split; [first [exact Hcat | reflexivity]|].
  cbn [fst snd] in Hl, Hb, Hs.
  split; [|split; [|split]].
  - destruct lead; [reflexivity|]. vm_compute in Hlead. discriminate Hlead.
  - destruct Hl as (_ & Hwin & _). destruct (Hwin Hlong) as [Hws _].
    match type of Hws with
    | ?windows = _ =>
        assert (Hn : option_map (@length str) windows = Some 2) by (vm_compute; reflexivity)
    end.
    rewrite Hws in Hn. cbn [option_map] in Hn. rewrite length_map in Hn.
    injection Hn as Hn. exact Hn.
  - destruct Hb as (_ & _ & Hwhole & _). apply Hwhole.
    + change (Z.of_nat (length (section_text "## Beta"
                "This text is kept whole, as one single chunk."))
              <= chunk_size mid_windows)%Z.
      rewrite Hbeta. cbn. lia.
    + change (50 < length (section_text "## Beta"
                "This text is kept whole, as one single chunk.")).
      rewrite Hbeta. lia.
  - destruct Hs as (_ & _ & _ & Hdrop). apply Hdrop.
    + change (Z.of_nat (length (section_text "## Setup" ("Run it." ++ [Str.nl])))
              <= chunk_size mid_windows)%Z.
      rewrite Hsetup. cbn. lia.
    + change (length (section_text "## Setup" ("Run it." ++ [Str.nl])) <= 50).
      rewrite Hsetup. lia.
Defined.

(** A section at or below the maximum that is not emitted, and a section of
    41 words that goes through the size-bounded split because it has more
    than 500 characters: its one chunk holds the words joined by spaces, not
    the text of the section, under a window identifier. *)
Lemma short_section_not_emitted :
  (Re.split re_header 1 short_section_doc =
     [list_ascii_of_string "Intro"; list_ascii_of_string "## Setup"; "Run it." ++ [Str.nl]] /\
   (Z.of_nat (length (section_text "## Setup" ("Run it." ++ [Str.nl])))
      <= chunk_size default_settings)%Z /\
   chunk_by_headers unit default_settings short_section_doc "doc.md" "Doc" = Some []) /\
  (Re.split re_header 1 few_words_doc =
     [list_ascii_of_string "Intro"; list_ascii_of_string "## Guide"; long_lines] /\
   length (Str.split (section_text "## Guide" long_lines)) = 41 /\
   exists c,
     chunk_by_headers unit default_settings few_words_doc "doc.md" "Doc" = Some [c] /\
     DocumentChunk.text c <> section_text "## Guide" long_lines /\
     DocumentChunk.text c = Str.join " " (Str.split (section_text "## Guide" long_lines)) /\
     DocumentChunk.id c = MD5.hexdigest "doc.md:0:0").
Proof.
  split.
  - split; [vm_compute; reflexivity|]. split; [vm_compute; discriminate|].
    vm_compute. reflexivity.
  - split; [vm_compute; reflexivity|]. split; [vm_compute; reflexivity|].
    eexists. split; [vm_compute; reflexivity|].
    split; [vm_compute; discriminate|]. split; vm_compute; reflexivity.
Qed.

(* ================================================================= *)
(** ** Header delimiters *)

Section Soundness.
Context {A : Type}.

Lemma rep_greedy_sound p s : forall l h (k : str -> str -> option A) a,
  rep_greedy p l h s k = Some a ->
  exists m r, s = m ++ r /\ atom_match (Atom p l h true) m /\ k m r = Some a.
Proof.
  assert (Hstop : forall l h (k : str -> str -> option A) a s0,
             (if Nat.eqb l 0 then k [] s0 else None) = Some a ->
             exists m r, s0 = m ++ r /\ atom_match (Atom p l h true) m /\ k m r = Some a).
  { intros l h k a s0 H. destruct (Nat.eqb_spec l 0) as [->|]; [|discriminate].
    exists [], s0. split; [reflexivity|]. split; [|exact H].
    split; [constructor|]. split; [cbn; lia|]. cbn. destruct h; cbn; first [lia|exact I]. }
  induction s as [|c s IH]; intros l h k a; cbn [rep_greedy].
  - destruct (exhausted h); apply Hstop.
  - destruct (exhausted h) eqn:Eh; [apply Hstop|].
    destruct (p c) eqn:Ep; [|apply Hstop].
    destruct (rep_greedy p (Nat.pred l) (dec h) s (fun m r => k (c :: m) r)) as [a'|] eqn:Er;
      [|apply Hstop].
    intro H. injection H as ->.
    apply IH in Er as (m & r & -> & (Hall & Hlo & Hhi) & Hk).
    exists (c :: m), r. split; [reflexivity|]. split; [|exact Hk].
    unfold atom_match; cbn [cls lo hi length] in *. split; [constructor; assumption|]. split; [lia|].
    destruct h as [[|h]|]; cbn in *; try discriminate; first [lia|exact I].
Qed.

Lemma rep_lazy_sound p s : forall l h (k : str -> str -> option A) a,
  rep_lazy p l h s k = Some a ->
  exists m r, s = m ++ r /\ atom_match (Atom p l h false) m /\ k m r = Some a.
Proof.
  assert (Hnow : forall l h (k : str -> str -> option A) a s0,
             Nat.eqb l 0 = true -> k [] s0 = Some a ->
             exists m r, s0 = m ++ r /\ atom_match (Atom p l h false) m /\ k m r = Some a).
  { intros l h k a s0 Hl H. apply Nat.eqb_eq in Hl. subst l.
    exists [], s0. split; [reflexivity|]. split; [|exact H].
    split; [constructor|]. split; [cbn; lia|]. cbn. destruct h; cbn; first [lia|exact I]. }
  induction s as [|c s IH]; intros l h k a; cbn [rep_lazy].
  - destruct (Nat.eqb l 0) eqn:El.
    + destruct (k [] []) eqn:Ek.
      * intro H. injection H as ->. now apply Hnow.
      * destruct (exhausted h); discriminate.
    + destruct (exhausted h); discriminate.
  - assert (Hmore : (if exhausted h then None
                     else if p c
                          then rep_lazy p (Nat.pred l) (dec h) s (fun m r => k (c :: m) r)
                          else None) = Some a ->
              exists m r, c :: s = m ++ r /\ atom_match (Atom p l h false) m
                          /\ k m r = Some a).
    { destruct (exhausted h) eqn:Eh; [discriminate|].
      destruct (p c) eqn:Ep; [|discriminate].
      intro Er. apply IH in Er as (m & r & -> & (Hall & Hlo & Hhi) & Hk).
      exists (c :: m), r. split; [reflexivity|]. split; [|exact Hk].
      unfold atom_match; cbn [cls lo hi length] in *. split; [constructor; assumption|]. split; [lia|].
      destruct h as [[|h]|]; cbn in *; try discriminate; first [lia|exact I]. }
    destruct (Nat.eqb l 0) eqn:El; [|exact Hmore].
    destruct (k [] (c :: s)) eqn:Ek; [|exact Hmore].
    intro H. injection H as ->. now apply Hnow.
Qed.

Lemma match_atoms_sound r : forall s (k : str -> str -> option A) a,
  match_atoms r s k = Some a ->
  exists m rest, s = m ++ rest /\ atoms_match r m /\ k m rest = Some a.
Proof.
  induction r as [|[p l h g] r IH]; intros s k a; cbn [match_atoms].
  - intro H. exists [], s. split; [reflexivity|]. split; [constructor|exact H].
  - cbn [greedy cls lo hi]. intro H.
    assert (H' : exists m1 s1, s = m1 ++ s1 /\ atom_match (Atom p l h g) m1 /\
                   match_atoms r s1 (fun m2 s2 => k (m1 ++ m2) s2) = Some a).
    { destruct g; [apply rep_greedy_sound in H|apply rep_lazy_sound in H];
        destruct H as (m1 & s1 & H1 & H2 & H3); exists m1, s1; auto. }
    destruct H' as (m1 & s1 & -> & Hm1 & Hrest).
    apply IH in Hrest as (m2 & rest & -> & Hm2 & Hk).
    exists (m1 ++ m2), rest. split; [now rewrite app_assoc|].
    split; [now constructor|exact Hk].
Qed.

End Soundness.

Lemma match_segs_sound segs : forall s gs rest,
  match_segs segs s = Some (gs, rest) ->
  s = concat gs ++ rest /\ Forall2 atoms_match segs gs.
Proof.
  induction segs as [|r segs IH]; intros s gs rest; cbn [match_segs].
  - intro H. injection H as <- <-. split; [reflexivity|constructor].
  - intro H. apply match_atoms_sound in H as (m & s' & -> & Hm & Hk).
    destruct (match_segs segs s') as [[gs' rest']|] eqn:E; [|discriminate].
    injection Hk as <- <-. apply IH in E as [-> HF].
    split; [cbn; now rewrite app_assoc|now constructor].
Qed.

Lemma lit_match c m : atoms_match [lit c] m -> m = [c].
Proof.
  intro H. inversion H as [|a r m1 m2 (Hall & Hlo & Hhi) Hr]; subst.
  inversion Hr; subst. rewrite app_nil_r.
  cbn in Hlo, Hhi. destruct m1 as [|x [|y m1]]; cbn in Hlo, Hhi; try lia.
  inversion Hall as [|? ? Hx _]; subst. cbn in Hx. unfold chr in Hx.
  apply Ascii.eqb_eq in Hx. now subst.
Qed.

Lemma header_match s gs rest :
  match_segs re_header s = Some (gs, rest) ->
  exists g, gs = [[Str.nl]; g; [Str.nl]] /\ s = Str.nl :: g ++ Str.nl :: rest /\ header_line g.
Proof.
  intro H. apply match_segs_sound in H as [-> HF].
  unfold re_header in HF.
  inversion HF as [|r0 g0 rs0 gs0 H0 HF0]; subst.
  inversion HF0 as [|r1 g1 rs1 gs1 H1 HF1]; subst.
  inversion HF1 as [|r2 g2 rs2 gs2 H2 HF2]; subst.
  inversion HF2; subst.
  apply lit_match in H0, H2. subst g0 g2.
  exists g1. split; [reflexivity|]. split; [cbn; now rewrite <- app_assoc|].
  inversion H1 as [|a1 q1 m1 n1 (Ha1 & Hl1 & Hh1) Hq1]; subst.
  inversion Hq1 as [|a2 q2 m2 n2 (Ha2 & Hl2 & _) Hq2]; subst.
  inversion Hq2 as [|a3 q3 m3 n3 (Ha3 & Hl3 & _) Hq3]; subst.
  inversion Hq3; subst. rewrite app_nil_r.
  cbn in Hl1, Hh1, Hl2, Hl3.
  exists m1, m2, m3. split; [reflexivity|]. split; [lia|].
  split; [|split; [|split; [|split]]].
  - eapply Forall_impl; [|exact Ha1]. cbn [cls range]. unfold chr. intros x Hx.
    apply Ascii.eqb_eq in Hx. now subst.
  - destruct m2; [cbn in Hl2; lia|discriminate].
  - exact Ha2.
  - destruct m3; [cbn in Hl3; lia|discriminate].
  - eapply Forall_impl; [|exact Ha3]. cbn [cls plus]. unfold dot, Str.is_nl. intros x Hx Heq.
    subst x. now rewrite Ascii.eqb_refl in Hx.
Qed.

Lemma split_scan_rejoin s : forall skip,
  skip <= length s ->
  exists ps,
    snd (split_scan re_header 1 s skip) = interleave ps /\
    fst (split_scan re_header 1 s skip) ++ rejoin ps = skipn skip s /\
    Forall (fun hb => header_line (fst hb)) ps.
Proof.
  induction s as [|c s IH]; intros skip Hskip; cbn [split_scan].
  - exists []. cbn in Hskip. replace skip with 0 by lia. repeat split; constructor.
  - destruct skip as [|n]; [|cbn in Hskip; apply IH; lia].
    destruct (match_segs re_header (c :: s)) as [[gs rest]|] eqn:E.
    + apply header_match in E as (g & -> & Hs & Hg).
      injection Hs as -> ->.
      replace (Nat.pred (length (concat [[Str.nl]; g; [Str.nl]]))) with (S (length g))
        by (cbn; rewrite length_app; cbn; lia).
      destruct (IH (S (length g))) as (ps & H1 & H2 & H3).
      { rewrite length_app. cbn. lia. }
      destruct (split_scan re_header 1 (g ++ Str.nl :: rest) (S (length g))) as [p ps'].
      cbn [fst snd nth] in *. subst ps'.
      exists ((g, p) :: ps). split; [reflexivity|]. split; [|now constructor].
      cbn [app rejoin skipn]. do 2 f_equal. rewrite H2.
      replace (S (length g)) with (length (g ++ [Str.nl]))
        by (rewrite length_app; cbn; lia).
      change (Str.nl :: rest) with ([Str.nl] ++ rest). rewrite app_assoc.
      rewrite skipn_app, skipn_all, Nat.sub_diag. reflexivity.
    + destruct (IH 0) as (ps & H1 & H2 & H3); [lia|].
      destruct (split_scan re_header 1 s 0) as [p ps']. cbn [fst snd skipn] in *.
      exists ps. split; [exact H1|]. split; [|exact H3]. cbn. now rewrite H2.
Qed.

(** Every delimiter that [re.split] reports is a header line that stands
    between two newlines of the document. *)
Lemma split_headers_sound (content : str) :
  exists first ps,
    split re_header 1 content = first :: interleave ps /\
    content = first ++ rejoin ps /\
    Forall (fun hb => header_line (fst hb)) ps.
Proof.
  destruct (split_scan_rejoin content 0) as (ps & H1 & H2 & H3); [lia|].
  unfold split. destruct (split_scan re_header 1 content 0) as [p ps'].
  cbn [fst snd skipn] in *. subst ps'. exists p, ps. auto.
Qed.

(** A header on the first line is not a delimiter: it stays in the leading
    text. *)
Lemma first_line_header_kept (rest : str) :
  exists first more,
    split re_header 1 ("#"%char :: rest) = ("#"%char :: first) :: more.
Proof.
  unfold split. cbn [split_scan].
  change (match_segs re_header ("#"%char :: rest)) with (@None (list str * str)).
  destruct (split_scan re_header 1 rest 0) as [p ps]. now exists p, ps.
Qed.

Lemma no_match_other c tail :
  c <> Str.nl -> match_segs re_header (c :: tail) = None.
Proof.
  intro H. unfold re_header.
  cbn [match_segs match_atoms lit one greedy cls lo hi rep_greedy exhausted Nat.eqb].
  unfold chr at 1.
  destruct (Ascii.eqb_spec Str.nl c) as [E|_]; [now elim H|reflexivity].
Qed.

Lemma no_match_newline tail :
  not_hash tail -> match_segs re_header (Str.nl :: tail) = None.
Proof.
  intro H. unfold re_header.
  cbn [match_segs match_atoms lit one range greedy cls lo hi rep_greedy exhausted
         Nat.eqb dec option_map Nat.pred].
  unfold chr at 1. rewrite Ascii.eqb_refl.
  destruct tail as [|d tail]; cbn [rep_greedy exhausted Nat.eqb]; [reflexivity|].
  cbn in H. unfold chr at 1.
  destruct (Ascii.eqb_spec "#"%char d) as [E|_]; [now elim H|reflexivity].
Qed.

Lemma not_hash_app b tail :
  Forall (fun c => c <> "#"%char) b -> not_hash tail -> not_hash (b ++ tail).
Proof. intros Hb Ht. destruct Hb; [exact Ht|assumption]. Qed.

(** Text without [#] holds no delimiter. *)
Lemma scan_body b : forall tail,
  Forall (fun c => c <> "#"%char) b -> not_hash tail ->
  split_scan re_header 1 (b ++ tail) 0 =
  (b ++ fst (split_scan re_header 1 tail 0), snd (split_scan re_header 1 tail 0)).
Proof.
  induction b as [|c b IH]; intros tail Hb Ht.
  - cbn [app]. now destruct (split_scan re_header 1 tail 0).
  - inversion Hb as [|? ? Hc Hb']; subst. cbn [app split_scan].
    assert (Hnone : match_segs re_header (c :: b ++ tail) = None).
    { destruct (ascii_dec c Str.nl) as [->|Hne].
      - apply no_match_newline. now apply not_hash_app.
      - now apply no_match_other. }
    rewrite Hnone, IH by assumption. reflexivity.
Qed.

Lemma split_scan_skip segs grp pre : forall rest,
  split_scan segs grp (pre ++ rest) (length pre) = split_scan segs grp rest 0.
Proof. induction pre as [|c pre IH]; intro rest; [reflexivity|apply IH]. Qed.

(** A match at the head of the text: the header is split off and the scan
    goes on behind the newline that ends it. *)
Lemma scan_header g rest :
  match_segs re_header (Str.nl :: g ++ Str.nl :: rest)
    = Some ([[Str.nl]; g; [Str.nl]], rest) ->
  split_scan re_header 1 (Str.nl :: g ++ Str.nl :: rest) 0 =
  ([], g :: fst (split_scan re_header 1 rest 0) :: snd (split_scan re_header 1 rest 0)).
Proof.
  intro H. cbn [split_scan]. rewrite H.
  replace (Nat.pred (length (concat [[Str.nl]; g; [Str.nl]]))) with (length (g ++ [Str.nl]))
    by (cbn; rewrite !length_app; cbn; lia).
  change (g ++ Str.nl :: rest) with (g ++ [Str.nl] ++ rest). rewrite app_assoc.
  rewrite split_scan_skip. now destruct (split_scan re_header 1 rest 0).
Qed.

Lemma rep_greedy_done {A} p s (k : str -> str -> option A) :
  rep_greedy p 0 (Some 0) s k = k [] s.
Proof. destruct s; reflexivity. Qed.

Lemma match_section_1 rest :
  match_segs re_header (Str.nl :: "## Section 1" ++ Str.nl :: rest)
    = Some ([[Str.nl]; list_ascii_of_string "## Section 1"; [Str.nl]], rest).
Proof. unfold re_header. cbn. rewrite rep_greedy_done. reflexivity. Qed.

Lemma match_section_2 rest :
  match_segs re_header (Str.nl :: "## Section 2" ++ Str.nl :: rest)
    = Some ([[Str.nl]; list_ascii_of_string "## Section 2"; [Str.nl]], rest).
Proof. unfold re_header. cbn. rewrite rep_greedy_done. reflexivity. Qed.

(** A greedy repetition without upper bound takes the whole run of
    characters of its class when the rest of the pattern accepts that. *)
Lemma rep_greedy_run {A} p (m : str) : forall l r (k : str -> str -> option A) a,
  Forall (fun c => p c = true) m ->
  match r with c :: _ => p c = false | [] => True end ->
  l <= length m ->
  k m r = Some a ->
  rep_greedy p l None (m ++ r) k = Some a.
Proof.
  induction m as [|c m IH]; intros l r k a Hm Hr Hl Hk.
  - cbn [length] in Hl. assert (l = 0) by lia. subst l.
    destruct r as [|c r]; cbn; [exact Hk|]. rewrite Hr. exact Hk.
  - inversion Hm as [|? ? Hc Hm']; subst. cbn [app rep_greedy exhausted dec option_map].
    rewrite Hc. cbn [length] in Hl.
    rewrite (IH (Nat.pred l) r (fun m0 r0 => k (c :: m0) r0) a Hm' Hr); [reflexivity|lia|exact Hk].
Qed.

(** A greedy repetition with an upper bound takes the whole run of
    characters of its class when the run fits the bound and the rest of the
    pattern accepts that. *)
Lemma rep_greedy_bounded_run {A} p (m : str) :
  forall l h r (k : str -> str -> option A) a,
  Forall (fun c => p c = true) m ->
  match r with c :: _ => p c = false | [] => True end ->
  l <= length m -> length m <= h ->
  k m r = Some a ->
  rep_greedy p l (Some h) (m ++ r) k = Some a.
Proof.
  induction m as [|c m IH]; intros l h r k a Hm Hr Hl Hh Hk.
  - cbn [length] in Hl. assert (l = 0) by lia. subst l.
    destruct r as [|c r]; destruct h as [|h]; cbn; try exact Hk.
    rewrite Hr. exact Hk.
  - inversion Hm as [|? ? Hc Hm']; subst. cbn [length] in Hl, Hh.
    destruct h as [|h]; [lia|].
    cbn [app rep_greedy exhausted dec option_map Nat.pred]. rewrite Hc.
    rewrite (IH (Nat.pred l) h r (fun m0 r0 => k (c :: m0) r0) a Hm' Hr);
      [reflexivity|lia|lia|exact Hk].
Qed.

(** A line of one to three [#], whitespace and text that begins with a
    character other than whitespace, between two newlines, is matched as a
    whole. *)
Lemma header_line_match (hashes ws txt rest : str) :
  1 <= length hashes <= 3 -> Forall (fun c => c = "#"%char) hashes ->
  ws <> [] -> Forall (fun c => Str.is_space c = true) ws ->
  match txt with c :: _ => Str.is_space c = false | [] => False end ->
  Forall (fun c => c <> Str.nl) txt ->
  match_segs re_header (Str.nl :: (hashes ++ ws ++ txt) ++ Str.nl :: rest)
    = Some ([[Str.nl]; hashes ++ ws ++ txt; [Str.nl]], rest).
Proof.
  intros Hlen Hhashes Hw Hws Hhead Htxt. unfold re_header.
  cbn [match_segs match_atoms lit one range plus greedy cls lo hi rep_greedy exhausted
         Nat.eqb dec option_map Nat.pred].
  unfold chr at 1. rewrite Ascii.eqb_refl. rewrite rep_greedy_done.
  rewrite <- !app_assoc.
  match goal with
  | |- context [rep_greedy ?p ?l ?h ?s ?k] =>
      assert (Hgroup : rep_greedy p l h s k
                       = Some ([hashes ++ ws ++ txt; [Str.nl]], rest))
  end.
  { apply rep_greedy_bounded_run.
    - eapply Forall_impl; [|exact Hhashes]. now intros c ->.
    - destruct ws as [|c ws]; [congruence|]. cbn [app]. inversion Hws; subst.
      unfold chr. apply Ascii.eqb_neq. intros <-. discriminate.
    - lia.
    - lia.
    - apply rep_greedy_run.
      + exact Hws.
      + destruct txt as [|c txt]; [destruct Hhead|exact Hhead].
      + destruct ws; [congruence|cbn; lia].
      + apply rep_greedy_run.
        * eapply Forall_impl; [|exact Htxt]. intros c Hc. unfold dot, Str.is_nl.
          apply negb_true_iff. apply Ascii.eqb_neq. intro E. apply Hc. now subst.
        * reflexivity.
        * destruct txt; [destruct Hhead|cbn; lia].
        * cbn [match_atoms match_segs lit one greedy cls lo hi rep_greedy exhausted
                 Nat.eqb dec option_map Nat.pred].
          unfold chr at 1. rewrite Ascii.eqb_refl. rewrite rep_greedy_done.
          cbn [match_atoms match_segs app]. rewrite !app_nil_r. reflexivity. }
  rewrite Hgroup. reflexivity.
Qed.

(** Text without a newline followed by [#] holds no delimiter. *)
Lemma scan_plain b : forall tail,
  no_header_start b -> not_hash tail ->
  split_scan re_header 1 (b ++ tail) 0 =
  (b ++ fst (split_scan re_header 1 tail 0), snd (split_scan re_header 1 tail 0)).
Proof.
  unfold no_header_start.
  induction b as [|c b IH]; intros tail Hb Ht.
  - cbn [app]. now destruct (split_scan re_header 1 tail 0).
  - cbn [Str.contains] in Hb. apply orb_false_iff in Hb as [Hstart Hb].
    cbn [app split_scan].
    assert (Hnone : match_segs re_header (c :: b ++ tail) = None).
    { destruct (ascii_dec c Str.nl) as [->|Hne].
      - apply no_match_newline. destruct b as [|d b]; [exact Ht|].
        cbn [app not_hash]. intros ->. cbn in Hstart. discriminate.
      - now apply no_match_other. }
    rewrite Hnone, IH by assumption. reflexivity.
Qed.

(** Every header line that follows text without a delimiter is a
    delimiter: the text before it is split off, the line is reported, and the
    split goes on behind the newline that ends the line. *)
Lemma header_line_splits (pre hashes ws txt rest : str) :
  no_header_start pre ->
  1 <= length hashes <= 3 -> Forall (fun c => c = "#"%char) hashes ->
  ws <> [] -> Forall (fun c => Str.is_space c = true) ws ->
  match txt with c :: _ => Str.is_space c = false | [] => False end ->
  Forall (fun c => c <> Str.nl) txt ->
  split re_header 1 (pre ++ Str.nl :: (hashes ++ ws ++ txt) ++ Str.nl :: rest)
    = pre :: (hashes ++ ws ++ txt) :: split re_header 1 rest.
Proof.
  intros Hpre Hlen Hhashes Hw Hws Hhead Htxt. unfold split.
  rewrite scan_plain; [|exact Hpre|cbn; discriminate].
  rewrite scan_header by now apply header_line_match.
  cbn [fst snd]. rewrite app_nil_r.
  now destruct (split_scan re_header 1 rest 0).
Qed.

Lemma hash_free_app a b : hash_free a -> hash_free b -> hash_free (a ++ b).
Proof. intros. apply Forall_app. now split. Qed.

Lemma hash_free_literal (s : str) :
  forallb (fun c => negb (Ascii.eqb c "#"%char)) s = true -> hash_free s.
Proof.
  intro H. apply Forall_forall. intros c Hc Heq.
  rewrite forallb_forall in H. apply H in Hc. subst c. discriminate.
Qed.

Lemma split_test_document b0 b1 b2 :
  hash_free b0 -> hash_free b1 -> hash_free b2 ->
  split re_header 1 (test_document b0 b1 b2) =
    [ "# Main Title" ++ [Str.nl; Str.nl] ++ b0 ++ [Str.nl];
      list_ascii_of_string "## Section 1";
      [Str.nl] ++ b1 ++ [Str.nl];
      list_ascii_of_string "## Section 2";
      [Str.nl] ++ b2 ++ [Str.nl] ].
Proof.
  intros H0 H1 H2. unfold split, test_document.
  set (t2 := [Str.nl] ++ b2 ++ [Str.nl]).
  set (t1 := [Str.nl] ++ b1 ++ [Str.nl]).
  set (t0 := " Main Title" ++ [Str.nl; Str.nl] ++ b0 ++ [Str.nl]).
  assert (E2 : split_scan re_header 1 t2 0 = (t2, [])).
  { rewrite <- (app_nil_r t2) at 1. rewrite scan_body; [now rewrite app_nil_r| |exact I].
    unfold t2. repeat apply hash_free_app; try assumption;
      apply hash_free_literal; reflexivity. }
  assert (E1 : split_scan re_header 1 (t1 ++ Str.nl :: "## Section 2" ++ Str.nl :: t2) 0
               = (t1, [list_ascii_of_string "## Section 2"; t2])).
  { rewrite scan_body.
    - rewrite scan_header by apply match_section_2. rewrite E2. cbn [fst snd].
      now rewrite app_nil_r.
    - unfold t1. repeat apply hash_free_app; try assumption;
        apply hash_free_literal; reflexivity.
    - cbn. discriminate. }
  assert (E0 : split_scan re_header 1
                 (t0 ++ Str.nl :: "## Section 1" ++ Str.nl
                     :: t1 ++ Str.nl :: "## Section 2" ++ Str.nl :: t2) 0
               = (t0, [list_ascii_of_string "## Section 1"; t1;
                       list_ascii_of_string "## Section 2"; t2])).
  { rewrite scan_body.
    - rewrite scan_header by apply match_section_1. rewrite E1. cbn [fst snd].
      now rewrite app_nil_r.
    - unfold t0. repeat apply hash_free_app; try assumption;
        apply hash_free_literal; reflexivity.
    - cbn. discriminate. }
  match goal with
  | |- (let (p, ps) := split_scan re_header 1 ?doc 0 in p :: ps) = _ =>
      replace doc with
        ("#"%char :: t0 ++ Str.nl :: "## Section 1" ++ Str.nl
                  :: t1 ++ Str.nl :: "## Section 2" ++ Str.nl :: t2)
  end.
  - cbn [split_scan].
    change (match_segs re_header ("#"%char :: _)) with (@None (list str * str)).
    rewrite E0. reflexivity.
  - unfold t0, t1, t2. rewrite <- !app_assoc. reflexivity.
Qed.

Section Headers.
Variable Vec : Type.
Variable settings : Settings.

Lemma clean_markdown_head t c r : clean_markdown t = c :: r -> Str.is_space c = false.
Proof. unfold clean_markdown. apply strip_head. Qed.

(** The chunks of a section whose text is longer than 50 characters. *)
Lemma section_chunks_nonempty title header section_content cands doc_path b :
  section_candidates settings title header section_content = Some cands ->
  50 < length (section_text header section_content) ->
  number Vec doc_path b cands <> [].
Proof.
  intros Hsec H50.
  destruct (section_chunks Vec settings title header section_content cands doc_path b Hsec)
    as (_ & Hwin & Hwhole & _).
  destruct (Z_gt_le_dec (Z.of_nat (length (section_text header section_content)))
              (chunk_size settings)) as [Hgt|Hle].
  - destruct (Hwin Hgt) as [Hws _]. intro E. rewrite E in Hws. cbn [map] in Hws.
    revert Hws. intro Hws. eapply chunk_by_size_nonempty; [exact Hws| |reflexivity].
    unfold section_text in *.
    destruct (clean_markdown _) as [|c r] eqn:Ec; [cbn in H50; lia|].
    apply split_nonempty. eapply clean_markdown_head; exact Ec.
  - intro E. specialize (Hwhole Hle H50). rewrite E in Hwhole. discriminate.
Qed.

Lemma test_document_chunks (b0 b1 b2 doc_path title : str) chunks :
  hash_free b0 -> hash_free b1 -> hash_free b2 ->
  chunk_by_headers Vec settings (test_document b0 b1 b2) doc_path title = Some chunks ->
  exists lead s1 s2,
    chunks = lead ++ s1 ++ s2 /\
    Forall (fun c => DocumentChunk.title c = title) lead /\
    Forall (fun c => DocumentChunk.title c = title ++ " - Section 1" /\
                     Str.contains "Section 1" (DocumentChunk.title c) = true) s1 /\
    Forall (fun c => DocumentChunk.title c = title ++ " - Section 2" /\
                     Str.contains "Section 2" (DocumentChunk.title c) = true) s2 /\
    (50 < length (section_text "## Section 1" ([Str.nl] ++ b1 ++ [Str.nl])) -> s1 <> []) /\
    (50 < length (section_text "## Section 2" ([Str.nl] ++ b2 ++ [Str.nl])) -> s2 <> []).
Proof.
  intros H0 H1 H2. rewrite chunk_by_headers_candidates. unfold candidates.
  rewrite split_test_document by assumption. cbn [pairs sections_candidates].
  destruct (section_candidates settings title "## Section 1" _) as [c1|] eqn:E1;
    [|discriminate].
  destruct (section_candidates settings title "## Section 2" _) as [c2|] eqn:E2;
    [|discriminate].
  cbn [option_map]. intro H. injection H as <-.
  rewrite app_nil_r, !number_app.
  eexists _, _, _. split; [reflexivity|].
  split; [unfold plain_candidates; destruct (_ && _); repeat constructor|].
  destruct (section_chunks Vec settings title _ _ c1 doc_path
              (0 + length (plain_candidates title title
                             ("# Main Title" ++ [Str.nl; Str.nl] ++ b0 ++ [Str.nl]))) E1)
    as (Ht1 & _).
  destruct (section_chunks Vec settings title _ _ c2 doc_path
              (0 + length (plain_candidates title title
                             ("# Main Title" ++ [Str.nl; Str.nl] ++ b0 ++ [Str.nl]))
                 + length c1) E2)
    as (Ht2 & _).
  split; [|split; [|split]].
  - eapply Forall_impl; [|exact Ht1]. intros c Hc. cbv beta in Hc.
    change (section_title "## Section 1") with (list_ascii_of_string "Section 1") in Hc.
    split; [exact Hc|]. rewrite Hc, app_assoc. apply contains_suffix.
  - eapply Forall_impl; [|exact Ht2]. intros c Hc. cbv beta in Hc.
    change (section_title "## Section 2") with (list_ascii_of_string "Section 2") in Hc.
    split; [exact Hc|]. rewrite Hc, app_assoc. apply contains_suffix.
  - intro H50. eapply section_chunks_nonempty; [exact E1|exact H50].
  - intro H50. eapply section_chunks_nonempty; [exact E2|exact H50].
Qed.

(** C7, amended.  A section delimiter is a line of one to three [#],
    whitespace and text that stands between two newline characters.  Every
    delimiter that the split reports is such a line: the document is its
    leading text followed, for each delimiter, by a newline, the header, a
    newline and the text up to the next delimiter, so header and body stay
    together.  Every such line whose text begins with a character other than
    whitespace, and that follows text in which no newline is followed by [#],
    is a delimiter: the text before it is split off, the line is reported and
    the split goes on behind the newline that ends it.  A header on the first
    line of the document has no newline before it and is not a delimiter.
    In the document with the headers "# Main Title", "## Section 1" and
    "## Section 2", each followed by a body without [#], the lines
    "## Section 1" and "## Section 2" are the delimiters, each with its body;
    the chunks are those of the leading text, under the title of the
    document, then those of the first section, whose titles contain
    "Section 1", then those of the second, whose titles contain
    "Section 2". *)
Theorem headers_between_newlines :
  (forall content, exists first sections,
      Re.split re_header 1 content = first :: interleave sections /\
      content = first ++ rejoin sections /\
      Forall (fun hb => header_line (fst hb)) sections) /\
  (forall pre hashes ws txt rest,
      no_header_start pre ->
      1 <= length hashes <= 3 -> Forall (fun c => c = "#"%char) hashes ->
      ws <> [] -> Forall (fun c => Str.is_space c = true) ws ->
      match txt with c :: _ => Str.is_space c = false | [] => False end ->
      Forall (fun c => c <> Str.nl) txt ->
      Re.split re_header 1 (pre ++ Str.nl :: (hashes ++ ws ++ txt) ++ Str.nl :: rest)
        = pre :: (hashes ++ ws ++ txt) :: Re.split re_header 1 rest) /\
  (forall rest, exists first more,
      Re.split re_header 1 ("#"%char :: rest) = ("#"%char :: first) :: more) /\
  (forall b0 b1 b2 doc_path title,
      hash_free b0 -> hash_free b1 -> hash_free b2 ->
      Re.split re_header 1 (test_document b0 b1 b2) =
        [ "# Main Title" ++ [Str.nl; Str.nl] ++ b0 ++ [Str.nl];
          list_ascii_of_string "## Section 1";
          [Str.nl] ++ b1 ++ [Str.nl];
          list_ascii_of_string "## Section 2";
          [Str.nl] ++ b2 ++ [Str.nl] ] /\
      (valid_settings settings ->
       exists chunks,
         chunk_by_headers Vec settings (test_document b0 b1 b2) doc_path title
           = Some chunks) /\
      forall chunks,
        chunk_by_headers Vec settings (test_document b0 b1 b2) doc_path title
          = Some chunks ->
        exists lead s1 s2,
          chunks = lead ++ s1 ++ s2 /\
          Forall (fun c => DocumentChunk.title c = title) lead /\
          Forall (fun c => DocumentChunk.title c = title ++ " - Section 1" /\
                           Str.contains "Section 1" (DocumentChunk.title c) = true) s1 /\
          Forall (fun c => DocumentChunk.title c = title ++ " - Section 2" /\
                           Str.contains "Section 2" (DocumentChunk.title c) = true) s2 /\
          (50 < length (section_text "## Section 1" ([Str.nl] ++ b1 ++ [Str.nl])) ->
           s1 <> []) /\
          (50 < length (section_text "## Section 2" ([Str.nl] ++ b2 ++ [Str.nl])) ->
           s2 <> [])).
Proof.
  split; [exact split_headers_sound|]. split; [exact header_line_splits|].
  split; [exact first_line_header_kept|].
  intros b0 b1 b2 doc_path title H0 H1 H2.
  split; [now apply split_test_document|]. split.
  - intro Hv. rewrite chunk_by_headers_candidates.
    destruct (candidates_total settings (test_document b0 b1 b2) title Hv) as [cs ->].
    cbn. eauto.
  - intros chunks H. exact (test_document_chunks b0 b1 b2 doc_path title chunks H0 H1 H2 H).
Qed.

End Headers.

Lemma headers_between_newlines_witness :
  no_header_start "Intro" /\
  Re.split re_header 1
    ("Intro" ++ Str.nl :: ("#" ++ " " ++ "Setup") ++ Str.nl :: "Run it." ++ [Str.nl])
    = [list_ascii_of_string "Intro"; list_ascii_of_string "# Setup"; "Run it." ++ [Str.nl]] /\
  hash_free "This is intro content." /\ hash_free body_one /\ hash_free body_two /\
  valid_settings default_settings /\
  50 < length (section_text "## Section 1" ([Str.nl] ++ body_one ++ [Str.nl])) /\
  50 < length (section_text "## Section 2" ([Str.nl] ++ body_two ++ [Str.nl])) /\
  exists chunks lead c1 s1 c2 s2,
    chunk_by_headers unit default_settings
      (test_document "This is intro content." body_one body_two) "test.md" "Test Document"
      = Some chunks /\
    chunks = lead ++ (c1 :: s1) ++ (c2 :: s2) /\
    Str.contains "Section 1" (DocumentChunk.title c1) = true /\
    Str.contains "Section 2" (DocumentChunk.title c2) = true.
Proof.
  destruct (headers_between_newlines unit default_settings)
    as (_ & Hcomplete & _ & Hdoc).
  assert (Hpre : no_header_start "Intro") by (vm_compute; reflexivity).
  assert (H0 : hash_free "This is intro content.")
    by (apply hash_free_literal; vm_compute; reflexivity).
  assert (H1 : hash_free body_one) by (apply hash_free_literal; vm_compute; reflexivity).
  assert (H2 : hash_free body_two) by (apply hash_free_literal; vm_compute; reflexivity).
  assert (Hv : valid_settings default_settings) by (unfold valid_settings; cbn; lia).
  assert (Hs1 : 50 < length (section_text "## Section 1" ([Str.nl] ++ body_one ++ [Str.nl])))
    by (apply Nat.ltb_lt; vm_compute; reflexivity).
  assert (Hs2 : 50 < length (section_text "## Section 2" ([Str.nl] ++ body_two ++ [Str.nl])))
    by (apply Nat.ltb_lt; vm_compute; reflexivity).
  split; [exact Hpre|]. split.
  { etransitivity.
    - apply (Hcomplete (list_ascii_of_string "Intro") (list_ascii_of_string "#")
               (list_ascii_of_string " ") (list_ascii_of_string "Setup")
               ("Run it." ++ [Str.nl]) Hpre).
      + cbn. lia.
      + repeat constructor.
      + discriminate.
      + repeat constructor.
      + reflexivity.
      + apply Forall_forall. intros c Hc Heq. subst c. cbn in Hc.
        repeat (destruct Hc as [Hc|Hc]; [discriminate Hc|]). exact Hc.
    - vm_compute. reflexivity. }
  repeat (split; [assumption|]).
  destruct (Hdoc (list_ascii_of_string "This is intro content.") body_one body_two
              (list_ascii_of_string "test.md") (list_ascii_of_string "Test Document")
              H0 H1 H2) as (_ & Htotal & Hshape).
  destruct (Htotal Hv) as [chunks Hchunks].
  destruct (Hshape chunks Hchunks) as (lead & s1 & s2 & Hcat & _ & Ht1 & Ht2 & Hn1 & Hn2).
  destruct s1 as [|c1 s1]; [now elim (Hn1 Hs1)|].
  destruct s2 as [|c2 s2]; [now elim (Hn2 Hs2)|].
  exists chunks, lead, c1, s1, c2, s2.
  split; [exact Hchunks|]. split; [exact Hcat|].
  inversion Ht1 as [|? ? [_ Hc1] _]; subst. inversion Ht2 as [|? ? [_ Hc2] _]; subst.
  split; [exact Hc1|exact Hc2].
Defined.

(** A header on the first line is no delimiter: the document is not split and
    its one chunk carries the title of the document, not of a section. *)
Lemma first_line_header_not_split :
  Re.split re_header 1 first_line_doc = [first_line_doc] /\
  exists c,
    chunk_by_headers unit default_settings first_line_doc "test.md" "Test" = Some [c] /\
    DocumentChunk.title c = list_ascii_of_string "Test" /\
    DocumentChunk.metadata c = [(list_ascii_of_string "section", list_ascii_of_string "Test")] /\
    Str.contains "Main Title" (DocumentChunk.title c) = false.
Proof.
  split; [vm_compute; reflexivity|].
  eexists. split; [vm_compute; reflexivity|].
  repeat split; vm_compute; reflexivity.
Qed.

Example test_chunk_by_headers_sections :
  exists c1 c2,
    chunk_by_headers unit default_settings
      (test_document "This is intro content." body_one body_two) "test.md" "Test Document"
      = Some [c1; c2] /\
    DocumentChunk.title c1 = list_ascii_of_string "Test Document - Section 1" /\
    DocumentChunk.title c2 = list_ascii_of_string "Test Document - Section 2".
Proof. do 2 eexists. split; [vm_compute; reflexivity|]. split; reflexivity. Qed.

(** With the bodies of [tests/test_ingestion.py] each section text has 33
    characters, and nothing is emitted. *)
Example test_chunk_by_headers_short_bodies :
  chunk_by_headers unit default_settings
    (test_document "This is intro content." "Content for section 1."
       "Content for section 2.") "test.md" "Test Document" = Some [] /\
  length (section_text "## Section 1" ([Str.nl] ++ "Content for section 1." ++ [Str.nl])) = 33.
Proof. split; vm_compute; reflexivity. Qed.

(* ================================================================= *)
(** ** Documents without a header *)

(** A document that [re.split] leaves in one piece gives one chunk whenever
    its normalized text is not empty, whatever the length of that text. *)
Lemma headerless_document_one_chunk Vec settings (content doc_path title : str) :
  Re.split re_header 1 content = [content] ->
  clean_markdown content <> [] ->
  exists c,
    chunk_by_headers Vec settings content doc_path title = Some [c] /\
    DocumentChunk.text c = clean_markdown content /\
    DocumentChunk.id c = MD5.hexdigest (key doc_path 0).
Proof.
  intros Hs Hne. unfold chunk_by_headers. rewrite Hs.
  destruct (clean_markdown content) as [|x t] eqn:E; [now elim Hne|].
  cbn [nonempty]. eexists. split; [reflexivity|]. split; reflexivity.
Qed.

(** C1.  The five-character document of [test_chunk_minimum_length] is not
    filtered out: [chunk_by_headers] returns one chunk that holds it. *)
Theorem short_document_is_kept (Vec : Type) (settings : Settings) :
  chunk_by_headers Vec settings "Short" "test.md" "Test" =
  Some [ {| DocumentChunk.id := "3e9472d5d02b6b66f47ec1cc56b45350";
            DocumentChunk.doc_path := "test.md";
            DocumentChunk.title := "Test";
            DocumentChunk.text := "Short";
            DocumentChunk.embedding := None;
            DocumentChunk.metadata :=
              [(list_ascii_of_string "section", list_ascii_of_string "Test")] |} ].
Proof. vm_compute. reflexivity. Qed.

(* ================================================================= *)
(** ** Running the effects *)

Ltac run_eff :=
  unfold add_log, Eff.bind, Eff.get, Eff.ret, logger, set_collection, record_prompt,
    Eff.modify, Eff.try_except, Eff.lift, Eff.raise, Eff.diverge; cbn;
  repeat (match goal with Hx : _ |- _ => progress (rewrite Hx) end; cbn);
  try reflexivity.

Section MonadFacts.
Context {S : Type}.

Lemma bind_ok {A B} (m : Eff.M S A) (k : A -> Eff.M S B) s a s1 :
  m s = (Ok a, s1) -> Eff.bind m k s = k a s1.
Proof. intro H. unfold Eff.bind. rewrite H. reflexivity. Qed.

Lemma bind_raise {A B} (m : Eff.M S A) (k : A -> Eff.M S B) s e s1 :
  m s = (Raise e, s1) -> Eff.bind m k s = (Raise e, s1).
Proof. intro H. unfold Eff.bind. rewrite H. reflexivity. Qed.

End MonadFacts.

Section Stable.
Variable Vec : Type.

Lemma stable_ret {A} (a : A) : stable (Eff.ret a : Eff.M (World Vec) A).
Proof.
  exists (Ok a). intro w. exists []. unfold Eff.ret. rewrite app_nil_r. now destruct w.
Qed.

Lemma stable_raise {A} e : stable (Eff.raise e : Eff.M (World Vec) A).
Proof.
  exists (Raise e). intro w. exists []. unfold Eff.raise. rewrite app_nil_r. now destruct w.
Qed.

Lemma stable_diverge {A} : stable (Eff.diverge : Eff.M (World Vec) A).
Proof.
  exists Diverge. intro w. exists []. unfold Eff.diverge. rewrite app_nil_r. now destruct w.
Qed.

Lemma stable_lift {A} (r : Exception + A) : stable (Eff.lift r : Eff.M (World Vec) A).
Proof. destruct r; [apply stable_raise|apply stable_ret]. Qed.

Lemma stable_logger e : stable (logger (Vec := Vec) e).
Proof. exists (Ok tt). intro w. exists [e]. reflexivity. Qed.

Lemma stable_bind {A B} (m : Eff.M (World Vec) A) (k : A -> Eff.M (World Vec) B) :
  stable m -> (forall a, stable (k a)) -> stable (Eff.bind m k).
Proof.
  intros [v Hm] Hk. destruct v as [a|e|].
  - destruct (Hk a) as [v' Hka]. exists v'. intro w.
    destruct (Hm w) as [l1 H1]. unfold Eff.bind. rewrite H1.
    destruct (Hka {| collection := collection w; log := log w ++ l1; prompts := prompts w |})
      as [l2 H2].
    exists (l1 ++ l2). rewrite H2. cbn. now rewrite app_assoc.
  - exists (Raise e). intro w. destruct (Hm w) as [l1 H1]. exists l1.
    unfold Eff.bind. now rewrite H1.
  - exists Diverge. intro w. destruct (Hm w) as [l1 H1]. exists l1.
    unfold Eff.bind. now rewrite H1.
Qed.

Lemma stable_try {A} (m : Eff.M (World Vec) A) (h : Exception -> Eff.M (World Vec) A) :
  stable m -> (forall e, stable (h e)) -> stable (Eff.try_except m h).
Proof.
  intros [v Hm] Hh. destruct v as [a|e|].
  - exists (Ok a). intro w. destruct (Hm w) as [l1 H1]. exists l1.
    unfold Eff.try_except. now rewrite H1.
  - destruct (Hh e) as [v' He]. exists v'. intro w.
    destruct (Hm w) as [l1 H1]. unfold Eff.try_except. rewrite H1.
    destruct (He {| collection := collection w; log := log w ++ l1; prompts := prompts w |})
      as [l2 H2].
    exists (l1 ++ l2). rewrite H2. cbn. now rewrite app_assoc.
  - exists Diverge. intro w. destruct (Hm w) as [l1 H1]. exists l1.
    unfold Eff.try_except. now rewrite H1.
Qed.

End Stable.

(* ================================================================= *)
(** ** The ingestion run *)

Section Ingest.
Variable Vec : Type.
Variable settings : Settings.
Variable embed_content : str -> str -> Exception + Vec.

Lemma stable_process_file f acc : stable (process_file Vec settings f acc).
Proof.
  unfold process_file. apply stable_bind; [apply stable_lift|].
  intros [[p t] c]. apply stable_bind; [apply stable_logger|]. intros _.
  destruct (chunk_by_headers Vec settings c p t).
  - apply stable_bind; [apply stable_logger|]. intros _. apply stable_ret.
  - apply stable_diverge.
Qed.

(** Reading and chunking the files only adds to the log. *)
Lemma stable_files_loop files : forall acc, stable (files_loop Vec settings files acc).
Proof.
  induction files as [|f files IH]; intro acc; cbn [files_loop].
  - apply stable_ret.
  - destruct (_ || _); [apply IH|].
    apply stable_bind; [|intro; apply IH].
    apply stable_try; [apply stable_process_file|].
    intro e. apply stable_bind; [apply stable_logger|]. intros _. apply stable_ret.
Qed.

(** The first chunk whose embedding fails ends [embed_chunks]: its error is
    logged and raised again. *)
Lemma embed_loop_fails total todo : forall i done (w : World Vec),
  (exists c err, In c todo /\
     embed_content "retrieval_document" (DocumentChunk.text c) = inl err) ->
  exists c err w',
    In c todo /\
    embed_content "retrieval_document" (DocumentChunk.text c) = inl err /\
    embed_loop Vec embed_content total i todo done w = (Raise err, w') /\
    collection w' = collection w /\
    In (embed_error c err) (log w').
Proof.
  induction todo as [|c0 todo IH]; intros i done w (c & err & Hin & Hc).
  - destruct Hin.
  - cbn [embed_loop].
    destruct (embed_content "retrieval_document" (DocumentChunk.text c0)) as [err0|e0] eqn:E0.
    + exists c0, err0, (add_log w (embed_error c0 err0)).
      split; [now left|]. split; [exact E0|]. split; [|split].
      * unfold Eff.bind, Eff.try_except, Eff.lift. reflexivity.
      * reflexivity.
      * cbn. apply in_or_app. right. now left.
    + assert (Htl : exists c err, In c todo /\
                embed_content "retrieval_document" (DocumentChunk.text c) = inl err).
      { destruct Hin as [<-|Hin]; [congruence|]. now exists c, err. }
      set (w1 := if (i + 1) mod 10 =? 0
                 then add_log w (Info ("Embedded " ++ Str.of_nat (i + 1) ++ "/"
                                         ++ Str.of_nat total ++ " chunks"))
                 else w).
      destruct (IH (S i) (done ++ [with_embedding Vec c0 e0]) w1 Htl)
        as (c' & err' & w' & Hin' & Hc' & Hrun & Hcol & Hlog).
      exists c', err', w'. split; [now right|]. split; [exact Hc'|].
      split; [|split; [|exact Hlog]].
      * rewrite <- Hrun. unfold Eff.bind at 1, Eff.try_except, Eff.lift.
        unfold w1. destruct ((i + 1) mod 10 =? 0); reflexivity.
      * rewrite Hcol. unfold w1. destruct ((i + 1) mod 10 =? 0); reflexivity.
Qed.

(** C3, amended.  When the embedding of a chunk fails during ingestion, the
    failure is logged and raised again: [ingest_docs] ends with that
    exception, reports no count, and the store, cleared at the start of the
    run, stays empty.  A document that fails to parse is logged and skipped,
    and the run goes on with the remaining documents. *)
Theorem embedding_failure_aborts_ingestion :
  (forall (corpus : Corpus) (w : World Vec) (all_chunks : list (Chunk Vec)),
      docs_path_exists corpus = true ->
      fst (files_loop Vec settings (md_files corpus) [] w) = Ok all_chunks ->
      (exists c err, In c all_chunks /\
         embed_content "retrieval_document" (DocumentChunk.text c) = inl err) ->
      exists c err,
        In c all_chunks /\
        embed_content "retrieval_document" (DocumentChunk.text c) = inl err /\
        fst (ingest_docs Vec settings embed_content corpus w) = Raise err /\
        collection (snd (ingest_docs Vec settings embed_content corpus w)) = [] /\
        In (embed_error c err)
           (log (snd (ingest_docs Vec settings embed_content corpus w)))) /\
  (forall (f : MdFile) (files : list MdFile) (acc : list (Chunk Vec)) (w : World Vec) e,
      skipped f = false ->
      parse_markdown_file f = inl e ->
      files_loop Vec settings (f :: files) acc w =
      files_loop Vec settings files acc
        (add_log w (Error ("Error processing " ++ path f ++ ": " ++ e)))).
Proof.
  split.
  - intros corpus w all_chunks Hex Hfiles Hfail.
    set (w1 := Build_World Vec []
                 ((log w ++ [Info "Starting document ingestion..."])
                    ++ [Info "Vector store cleared"])
                 (prompts w)).
    set (w2 := add_log w1 (Info ("Found " ++ Str.of_nat (length (md_files corpus))
                                   ++ " markdown files"))).
    destruct (stable_files_loop (md_files corpus) []) as [v Hv].
    destruct (Hv w) as [l0 H0]. rewrite H0 in Hfiles. cbn in Hfiles. subst v.
    destruct (Hv w2) as [l2 H2].
    set (w3 := {| collection := collection w2; log := log w2 ++ l2; prompts := prompts w2 |})
      in H2.
    assert (Hne : all_chunks <> []).
    { destruct Hfail as (c & _ & Hin & _). intro Heq. subst. destruct Hin. }
    set (w4 := add_log w3 (Info ("Total chunks created: " ++ Str.of_nat (length all_chunks)))).
    set (w5 := add_log w4 (Info ("Embedding " ++ Str.of_nat (length all_chunks)
                                   ++ " chunks..."))).
    destruct (embed_loop_fails (length all_chunks) all_chunks 0 [] w5 Hfail)
      as (c & err & w' & Hin & Hc & Hrun & Hcol & Hlog).
    assert (Hing : ingest_docs Vec settings embed_content corpus w = (Raise err, w')).
    { unfold ingest_docs, VectorStore.clear. rewrite Hex. cbn [negb].
      rewrite (bind_ok _ _ w tt (add_log w (Info "Starting document ingestion...")))
        by reflexivity.
      rewrite (bind_ok _ _ _ tt w1) by reflexivity.
      rewrite (bind_ok _ _ w1 tt w2) by reflexivity.
      rewrite (bind_ok _ _ w2 all_chunks w3) by exact H2.
      destruct all_chunks as [|c0 rest]; [now elim Hne|].
      rewrite (bind_ok _ _ w3 tt w4) by reflexivity.
      apply bind_raise. unfold embed_chunks.
      rewrite (bind_ok _ _ w4 tt w5) by reflexivity.
      apply bind_raise. exact Hrun. }
    exists c, err. rewrite Hing. cbn [fst snd].
    split; [exact Hin|]. split; [exact Hc|]. split; [reflexivity|].
    split; [rewrite Hcol; reflexivity|exact Hlog].
  - intros f files acc w e Hskip Hparse. cbn [files_loop].
    unfold skipped in Hskip. rewrite Hskip.
    unfold process_file. rewrite Hparse. reflexivity.
Qed.

(** C9.  [ingest_docs] clears the collection before it looks for the corpus:
    when the path does not exist the run ends with the error, and whatever
    was indexed before is gone. *)
Theorem missing_corpus_clears_index (corpus : Corpus) (w : World Vec) :
  docs_path_exists corpus = false ->
  fst (ingest_docs Vec settings embed_content corpus w)
    = Raise ("Documentation path does not exist: " ++ docs_path corpus) /\
  collection (snd (ingest_docs Vec settings embed_content corpus w)) = [] /\
  In (Info "Vector store cleared")
     (log (snd (ingest_docs Vec settings embed_content corpus w))).
Proof.
  intro H. unfold ingest_docs, VectorStore.clear. rewrite H.
  split; [reflexivity|]. split; [reflexivity|].
  cbn. apply in_or_app. right. now left.
Qed.

End Ingest.

Lemma embedding_failure_aborts_ingestion_witness :
  docs_path_exists two_section_corpus = true /\
  fst (files_loop unit default_settings (md_files two_section_corpus) []
         (unit_world [old_record])) = Ok two_section_chunks /\
  (exists c err, In c two_section_chunks /\
     flaky_embed "retrieval_document" (DocumentChunk.text c) = inl err) /\
  exists err,
    fst (ingest_docs unit default_settings flaky_embed two_section_corpus
           (unit_world [old_record])) = Raise err.
Proof.
  assert (H1 : docs_path_exists two_section_corpus = true) by reflexivity.
  assert (H2 : fst (files_loop unit default_settings (md_files two_section_corpus) []
                      (unit_world [old_record])) = Ok two_section_chunks)
    by (vm_compute; reflexivity).
  assert (H3 : exists c err, In c two_section_chunks /\
                 flaky_embed "retrieval_document" (DocumentChunk.text c) = inl err).
  { exists (nth 1 two_section_chunks (chunk_of unit [] 0 (Build_Candidate [] [] [] None))).
    exists (list_ascii_of_string "quota exceeded").
    split; [right; left; reflexivity|vm_compute; reflexivity]. }
  split; [exact H1|]. split; [exact H2|]. split; [exact H3|].
  destruct (embedding_failure_aborts_ingestion unit default_settings flaky_embed) as [Habort _].
  destruct (Habort two_section_corpus (unit_world [old_record]) two_section_chunks H1 H2 H3)
    as (c & err & _ & _ & Hr & _).
  exists err. exact Hr.
Defined.

(** One of two chunks fails to embed: the run does not go on with the other
    one and report a count of 1, it ends with the error and an empty store. *)
Lemma embedding_failure_not_skipped :
  length two_section_chunks = 2 /\
  flaky_embed "retrieval_document" (DocumentChunk.text (nth 0 two_section_chunks
      (chunk_of unit [] 0 (Build_Candidate [] [] [] None)))) = inr tt /\
  fst (ingest_docs unit default_settings flaky_embed two_section_corpus
         (unit_world [old_record])) = Raise "quota exceeded" /\
  collection (snd (ingest_docs unit default_settings flaky_embed two_section_corpus
                     (unit_world [old_record]))) = [].
Proof. repeat split; vm_compute; reflexivity. Qed.

Lemma missing_corpus_clears_index_witness :
  docs_path_exists missing_corpus = false /\
  collection (unit_world [old_record]) = [old_record] /\
  collection (snd (ingest_docs unit default_settings steady_embed missing_corpus
                     (unit_world [old_record]))) = [].
Proof.
  assert (H : docs_path_exists missing_corpus = false) by reflexivity.
  split; [exact H|]. split; [reflexivity|].
  destruct (missing_corpus_clears_index unit default_settings steady_embed missing_corpus
              (unit_world [old_record]) H) as (_ & Hc & _).
  exact Hc.
Defined.

(* ================================================================= *)
(** ** Relevance scores *)






Example score_of_quarter : VectorStore.score_of_distance (1 # 4)%Q = (3 # 4)%Q.
Proof. reflexivity. Qed.

Example score_beyond_one : VectorStore.score_of_distance (3 # 2)%Q = 0%Q.
Proof. reflexivity. Qed.

(* ================================================================= *)
(** ** Retrieval *)

Section Search.
Variable Vec : Type.
Variable store_query :
  list (StoredRecord Vec) -> Vec -> Z -> Exception + VectorStore.QueryResults.

Import VectorStore.

Lemma cell_pure {X} (field : option (list (list X))) i d :
  (exists x, forall w : World Vec, cell Vec field i d w = (Ok x, w)) \/
  (exists e, forall w : World Vec, cell Vec field i d w = (Raise e, w)).
Proof.
  unfold cell. destruct (first_row field) as [row|].
  - destruct (nth_error row i) as [x|].
    + left. exists x. reflexivity.
    + right. eexists. reflexivity.
  - left. exists d. reflexivity.
Qed.

(** The loop over the returned identifiers does not touch the state: it gives
    chunks, each scored from a distance, or raises. *)
Lemma collect_pure res row : forall i acc,
  Forall (fun c => exists d, RetrievedChunk.score c = score_of_distance d) acc ->
  (exists cs,
      Forall (fun c => exists d, RetrievedChunk.score c = score_of_distance d) cs /\
      forall w : World Vec, collect Vec res i row acc w = (Ok cs, w)) \/
  (exists e, forall w : World Vec, collect Vec res i row acc w = (Raise e, w)).
Proof.
  induction row as [|x row IH]; intros i acc Hacc.
  - left. exists acc. split; [exact Hacc|reflexivity].
  - cbn [collect].
    destruct (cell_pure (metadatas res) i []) as [[m Hm]|[e He]];
      [|right; exists e; intro w; unfold Eff.bind; rewrite He; reflexivity].
    destruct (cell_pure (documents res) i []) as [[t Ht]|[e He]];
      [|right; exists e; intro w; unfold Eff.bind; rewrite Hm, He; reflexivity].
    destruct (cell_pure (distances res) i 1%Q) as [[d Hd]|[e He]];
      [|right; exists e; intro w; unfold Eff.bind; rewrite Hm, Ht, He; reflexivity].
    destruct (IH (S i)
      (acc ++ [ {| RetrievedChunk.doc_path := dict_get m "doc_path" [];
                   RetrievedChunk.title := dict_get m "title" [];
                   RetrievedChunk.text := t;
                   RetrievedChunk.score := score_of_distance d;
                   RetrievedChunk.metadata := m |} ])) as [(cs & Hcs & H)|[e H]].
    + apply Forall_app. split; [exact Hacc|]. constructor; [|constructor].
      now exists d.
    + left. exists cs. split; [exact Hcs|].
      intro w. unfold Eff.bind. rewrite Hm, Ht, Hd. apply H.
    + right. exists e. intro w. unfold Eff.bind. rewrite Hm, Ht, Hd. apply H.
Qed.

(** [search] always returns a list, adds one entry to the log and leaves the
    rest of the state alone; what it returns depends on the collection only,
    and every score in it comes from [score_of_distance]. *)
Lemma search_spec (e : Vec) (k : Z) (w : World Vec) :
  exists cs entry,
    search Vec store_query e k w = (Ok cs, add_log w entry) /\
    (collection w = [] -> cs = []) /\
    (forall err, store_query (collection w) e k = inl err -> cs = []) /\
    (forall res, store_query (collection w) e k = inr res ->
                 first_row (ids res) = None -> cs = []) /\
    (forall w', collection w' = collection w ->
                fst (search Vec store_query e k w') = Ok cs) /\
    Forall (fun c => exists d, RetrievedChunk.score c = score_of_distance d) cs.
Proof.
  unfold search, search_counting, count.
  destruct (collection w) as [|r0 coll] eqn:Hc.
  - exists [], (Warning "Vector store is empty. No documents to search.").
    split; [|repeat split; auto]; [|intros w' Hw']; run_eff.
  - destruct (store_query (r0 :: coll) e k) as [err|res] eqn:Hq.
    + exists [], (Error ("Error searching vector store: " ++ err)).
      split; [|repeat split; auto]; [|intros w' Hw']; run_eff.
    + destruct (first_row (ids res)) as [row|] eqn:Hr.
      * destruct (collect_pure res row 0 [] (Forall_nil _)) as [(cs & Hcs & H)|[err H]].
        -- exists cs, (Info ("Search returned " ++ Str.of_nat (length cs) ++ " results")).
           split; [|split; [discriminate|split; [discriminate|split; [|split]]]].
           ++ run_eff.
           ++ intros res' Hres'. injection Hres' as <-. congruence.
           ++ intros w' Hw'. run_eff.
           ++ exact Hcs.
        -- exists [], (Error ("Error searching vector store: " ++ err)).
           split; [|repeat split; auto]; [|intros w' Hw']; run_eff.
      * exists [], (Warning "Query returned no results").
        split; [|repeat split; auto]; [|intros w' Hw']; run_eff.
Qed.

End Search.

Section Query.
Variable Vec : Type.
Variable settings : Settings.
Variable embed_content : str -> str -> Exception + Vec.
Variable store_query :
  list (StoredRecord Vec) -> Vec -> Z -> Exception + VectorStore.QueryResults.
Variable generate : LLMFactory.LLMProvider -> str -> Exception + str.

Import VectorStore Retriever.

Lemma embed_query_ok question e (w : World Vec) :
  embed_content "retrieval_query" question = inr e ->
  _embed_query Vec embed_content question w = (Ok e, w).
Proof. intro H. unfold _embed_query, Eff.try_except, Eff.lift. rewrite H. reflexivity. Qed.

(** C5.  A search on an empty collection, a store query that raises and a
    store query that returns no identifiers all give the empty list, not an
    error; and when the search of a query gives the empty list, [query]
    returns the fixed answer with no chunks and sends no prompt to a
    generator. *)
Theorem empty_retrieval_canned_answer (w : World Vec) (e : Vec) :
  (forall k,
      collection w = [] \/
      (exists err, store_query (collection w) e k = inl err) \/
      (exists res, store_query (collection w) e k = inr res /\ first_row (ids res) = None) ->
      fst (search Vec store_query e k w) = Ok []) /\
  (forall question model_key history,
      embed_content "retrieval_query" question = inr e ->
      fst (search Vec store_query e (top_k_results settings) w) = Ok [] ->
      fst (query Vec settings embed_content store_query generate question model_key history w)
        = Ok {| answer := no_information; chunks := []; query_text := question |} /\
      prompts (snd (query Vec settings embed_content store_query generate
                      question model_key history w)) = prompts w).
Proof.
  split.
  - intros k Hk.
    destruct (search_spec Vec store_query e k w) as (cs & entry & Hs & H1 & H2 & H3 & _).
    rewrite Hs. cbn.
    destruct Hk as [Hk|[[err Hk]|[res [Hk Hr]]]].
    + rewrite (H1 Hk). reflexivity.
    + rewrite (H2 _ Hk). reflexivity.
    + rewrite (H3 _ Hk Hr). reflexivity.
  - intros question model_key history He Hs.
    set (w1 := add_log w (Info ("Processing query: " ++ question ++ " with model: "
                                  ++ model_label model_key))).
    destruct (search_spec Vec store_query e (top_k_results settings) w1)
      as (cs & entry & Hs1 & _ & _ & _ & Hind & _).
    assert (Hcs : cs = []).
    { specialize (Hind w eq_refl). rewrite Hs in Hind. now injection Hind. }
    subst cs.
    unfold query.
    rewrite (bind_ok _ _ w tt w1) by reflexivity.
    rewrite (bind_ok _ _ w1 e w1) by (apply embed_query_ok; exact He).
    rewrite (bind_ok _ _ _ _ _ Hs1).
    split; reflexivity.
Qed.

End Query.

Lemma empty_retrieval_canned_answer_witness :
  collection (unit_world []) = [] /\
  steady_embed "retrieval_query" "What is a chunk?" = inr tt /\
  fst (VectorStore.search unit failing_store tt (top_k_results default_settings)
         (unit_world [old_record])) = Ok [] /\
  fst (Retriever.query unit default_settings steady_embed failing_store echo_generate
         "What is a chunk?" None None (unit_world [old_record]))
    = Ok {| answer := Retriever.no_information; chunks := [];
            query_text := "What is a chunk?" |}.
Proof.
  assert (H1 : steady_embed "retrieval_query" "What is a chunk?" = inr tt) by reflexivity.
  destruct (empty_retrieval_canned_answer unit default_settings steady_embed failing_store
              echo_generate (unit_world [old_record]) tt) as [Hsearch Hquery].
  assert (H2 : fst (VectorStore.search unit failing_store tt (top_k_results default_settings)
                      (unit_world [old_record])) = Ok []).
  { apply Hsearch. right. left. exists (list_ascii_of_string "index unavailable").
    reflexivity. }
  split; [reflexivity|]. split; [exact H1|]. split; [exact H2|].
  destruct (Hquery (list_ascii_of_string "What is a chunk?") None None H1 H2) as [Ha _].
  exact Ha.
Defined.

(* ================================================================= *)
(** ** The history block of the prompt *)

Lemma truncate_firstn (x : str) : Retriever.truncate x = firstn 500 x.
Proof.
  unfold Retriever.truncate. destruct (500 <? length x) eqn:E.
  - change 500%Z with (Z.of_nat 500). apply slice_prefix.
  - apply Nat.ltb_ge in E. symmetry. apply firstn_all2. exact E.
Qed.

Lemma history_loop_flat_map (history : list Retriever.HistoryItem) : forall parts,
  Retriever.history_loop history parts = parts ++ flat_map rendered history.
Proof.
  induction history as [|item history IH]; intro parts;
    cbn [Retriever.history_loop flat_map].
  - now rewrite app_nil_r.
  - destruct item as [msg|]; cbn [rendered].
    + destruct (Str.eqb (role msg) "user").
      * rewrite IH, truncate_firstn, <- app_assoc. reflexivity.
      * destruct (Str.eqb (role msg) "assistant").
        -- rewrite IH, truncate_firstn, <- app_assoc. reflexivity.
        -- apply IH.
    + apply IH.
Qed.

(** [_build_prompt] returns the template filled with the history block and
    only adds to the log. *)
Lemma build_prompt_run {Vec} (question context : str) (chunks : list RetrievedChunk.t)
  (conversation_history : option (list Retriever.HistoryItem)) (w : World Vec) :
  exists entries,
    Retriever._build_prompt Vec question context chunks conversation_history w =
      (Ok (Retriever.prompt_text question context chunks
             (Retriever.history_text conversation_history)),
       {| collection := collection w; log := log w ++ entries; prompts := prompts w |}).
Proof.
  unfold Retriever._build_prompt, Retriever.history_text.
  destruct conversation_history as [[|item history]|].
  - exists []. rewrite app_nil_r. now destruct w.
  - destruct (Retriever.history_loop (item :: history) []) as [|line lines].
    + exists []. rewrite app_nil_r. now destruct w.
    + eexists [_]. reflexivity.
  - exists []. rewrite app_nil_r. now destruct w.
Qed.

(** C8.  The lines of the history block are, in order, ["Q: "] or ["A: "]
    followed by the first 500 characters of each message whose role is
    [user] or [assistant]; every other item gives no line.  When there is
    such a line the prompt holds, between the instructions and the
    documentation context, the heading and the lines; with no history, or
    none that renders, the prompt goes from the instructions straight to the
    documentation context. *)
Theorem history_block_rendering (Vec : Type) (history : list Retriever.HistoryItem)
  (question context : str) (chunks : list RetrievedChunk.t) (w : World Vec) :
  Retriever.history_loop history [] = flat_map rendered history /\
  (flat_map rendered history <> [] ->
   Retriever.history_text (Some history) =
     [Str.nl; Str.nl] ++ "PREVIOUS CONVERSATION:" ++ [Str.nl]
       ++ Str.join [Str.nl] (flat_map rendered history) ++ [Str.nl]) /\
  (flat_map rendered history = [] -> Retriever.history_text (Some history) = []) /\
  Retriever.history_text None = [] /\
  fst (Retriever._build_prompt Vec question context chunks (Some history) w) =
    Ok (Retriever.instructions
          ++ match flat_map rendered history with
             | [] => []
             | _ :: _ =>
                 [Str.nl; Str.nl] ++ "PREVIOUS CONVERSATION:" ++ [Str.nl]
                   ++ Str.join [Str.nl] (flat_map rendered history) ++ [Str.nl]
             end
          ++ [Str.nl] ++ "CONTEXT FROM DOCUMENTATION:" ++ [Str.nl]
          ++ context ++ [Str.nl; Str.nl] ++ "AVAILABLE SOURCES:" ++ [Str.nl]
          ++ Str.join [Str.nl]
               (map (fun chunk => "- " ++ RetrievedChunk.title chunk ++ " (from "
                                    ++ RetrievedChunk.doc_path chunk ++ ")") chunks)
          ++ [Str.nl; Str.nl] ++ "CURRENT QUESTION: " ++ question ++ [Str.nl; Str.nl]
          ++ "ANSWER (cite documentation sources when using them):") /\
  fst (Retriever._build_prompt Vec question context chunks None w) =
    Ok (Retriever.instructions ++ [Str.nl] ++ "CONTEXT FROM DOCUMENTATION:" ++ [Str.nl]
          ++ context ++ [Str.nl; Str.nl] ++ "AVAILABLE SOURCES:" ++ [Str.nl]
          ++ Str.join [Str.nl]
               (map (fun chunk => "- " ++ RetrievedChunk.title chunk ++ " (from "
                                    ++ RetrievedChunk.doc_path chunk ++ ")") chunks)
          ++ [Str.nl; Str.nl] ++ "CURRENT QUESTION: " ++ question ++ [Str.nl; Str.nl]
          ++ "ANSWER (cite documentation sources when using them):").
Proof.
  pose proof (history_loop_flat_map history []) as H. cbn [app] in H.
  assert (Hsome : flat_map rendered history <> [] ->
     Retriever.history_text (Some history) =
       [Str.nl; Str.nl] ++ "PREVIOUS CONVERSATION:" ++ [Str.nl]
         ++ Str.join [Str.nl] (flat_map rendered history) ++ [Str.nl]).
  { intro Hne. unfold Retriever.history_text.
    destruct history as [|item history']; [now elim Hne|].
    rewrite H. destruct (flat_map rendered (item :: history')); [now elim Hne|reflexivity]. }
  assert (Hnone : flat_map rendered history = [] ->
     Retriever.history_text (Some history) = []).
  { intro He. unfold Retriever.history_text.
    destruct history as [|item history']; [reflexivity|].
    rewrite H, He. reflexivity. }
  split; [exact H|]. split; [exact Hsome|]. split; [exact Hnone|]. split; [reflexivity|].
  split.
  - destruct (build_prompt_run question context chunks (Some history) w) as [entries ->].
    cbn [fst]. unfold Retriever.prompt_text.
    destruct (flat_map rendered history) as [|line lines] eqn:E.
    + rewrite (Hnone eq_refl). reflexivity.
    + rewrite Hsome by discriminate. reflexivity.
  - reflexivity.
Qed.

Lemma history_block_rendering_witness :
  flat_map rendered
    [Retriever.Message {| role := "user"; content := "How do I reindex?" |};
     Retriever.Message {| role := "system"; content := "ignored" |};
     Retriever.Opaque] <> [] /\
  Retriever.history_text
    (Some [Retriever.Message {| role := "user"; content := "How do I reindex?" |};
           Retriever.Message {| role := "system"; content := "ignored" |};
           Retriever.Opaque]) =
    [Str.nl; Str.nl] ++ "PREVIOUS CONVERSATION:" ++ [Str.nl]
      ++ "Q: How do I reindex?" ++ [Str.nl] /\
  fst (Retriever._build_prompt unit "Where is the button?" "The button is on the left." []
         (Some [Retriever.Message {| role := "user"; content := "How do I reindex?" |};
                Retriever.Message {| role := "system"; content := "ignored" |};
                Retriever.Opaque]) (unit_world [])) =
    Ok (Retriever.instructions
          ++ [Str.nl; Str.nl] ++ "PREVIOUS CONVERSATION:" ++ [Str.nl]
          ++ "Q: How do I reindex?" ++ [Str.nl]
          ++ [Str.nl] ++ "CONTEXT FROM DOCUMENTATION:" ++ [Str.nl]
          ++ "The button is on the left." ++ [Str.nl; Str.nl]
          ++ "AVAILABLE SOURCES:" ++ [Str.nl] ++ [Str.nl; Str.nl]
          ++ "CURRENT QUESTION: " ++ "Where is the button?" ++ [Str.nl; Str.nl]
          ++ "ANSWER (cite documentation sources when using them):").
Proof.
  assert (Hne : flat_map rendered
    [Retriever.Message {| role := "user"; content := "How do I reindex?" |};
     Retriever.Message {| role := "system"; content := "ignored" |};
     Retriever.Opaque] <> []) by (vm_compute; discriminate).
  split; [exact Hne|].
  destruct (history_block_rendering unit
    [Retriever.Message {| role := "user"; content := "How do I reindex?" |};
     Retriever.Message {| role := "system"; content := "ignored" |};
     Retriever.Opaque] "Where is the button?" "The button is on the left." []
    (unit_world [])) as (_ & Htext & _ & _ & Hprompt & _).
  split.
  - rewrite (Htext Hne). vm_compute. reflexivity.
  - rewrite Hprompt. vm_compute. reflexivity.
Defined.

Example long_message_is_cut :
  flat_map rendered [Retriever.Message {| role := "assistant";
                                          content := repeat "x"%char 600 |}]
  = ["A: " ++ repeat "x"%char 500].
Proof. vm_compute. reflexivity. Qed.

(* ================================================================= *)
(** ** More on the size-bounded split *)

Lemma split_aux_blank (s : str) :
  Forall (fun c => Str.is_space c = true) s -> Str.split_aux s = ([], []).
Proof.
  induction 1 as [|c s Hc _ IH]; [reflexivity|].
  cbn. rewrite IH, Hc. reflexivity.
Qed.

Lemma split_blank (s : str) :
  Forall (fun c => Str.is_space c = true) s -> Str.split s = [].
Proof. intros H. unfold Str.split. rewrite (split_aux_blank s H). reflexivity. Qed.

Lemma slice_whole {A} (l : list A) (j : Z) :
  (Z.of_nat (length l) <= j)%Z -> Str.slice l 0 j = l.
Proof.
  intros H. unfold Str.slice, Str.clamp.
  destruct (0 <? 0)%Z eqn:E0; [discriminate|].
  destruct (j <? 0)%Z eqn:Ej; [apply Z.ltb_lt in Ej; lia|].
  rewrite (Z.min_l 0) by lia. rewrite Z.min_r by lia.
  rewrite Nat2Z.id. cbn. rewrite Nat.sub_0_r. apply firstn_all.
Qed.

(** X1. A text without any word gives no window, whatever the size and the
    overlap are. *)
Theorem chunk_by_size_blank (text : str) (size overlap : Z) :
  Forall (fun c => Str.is_space c = true) text ->
  chunk_by_size text size overlap = Some [].
Proof.
  intros H. unfold chunk_by_size. rewrite (split_blank text H). reflexivity.
Qed.

Lemma chunk_by_size_blank_witness :
  Forall (fun c => Str.is_space c = true) (" " ++ [Str.nl] ++ "  ") /\
  chunk_by_size (" " ++ [Str.nl] ++ "  ") 0 7 = Some [].
Proof.
  assert (H : Forall (fun c => Str.is_space c = true) (" " ++ [Str.nl] ++ "  ")).
  { repeat constructor. }
  split; [exact H | exact (chunk_by_size_blank _ 0%Z 7%Z H)].
Defined.

(** X2. A text whose words fit in one window gives exactly one window, the
    words joined by single spaces, whatever the overlap is. *)
Theorem chunk_by_size_single_window (text : str) (size overlap : Z) :
  Str.split text <> [] ->
  (Z.of_nat (length (Str.split text)) <= size)%Z ->
  chunk_by_size text size overlap = Some [Str.join " " (Str.split text)].
Proof.
  intros Hne Hfit. unfold chunk_by_size.
  destruct (Str.split text) as [|w ws] eqn:E; [congruence|].
  cbn [chunk_loop].
  destruct (0 <? Z.of_nat (length (w :: ws)))%Z eqn:E1;
    [|apply Z.ltb_ge in E1; cbn [length] in E1; lia].
  rewrite slice_whole by lia.
  destruct (0 + size >=? Z.of_nat (length (w :: ws)))%Z eqn:E2; [reflexivity|].
  rewrite Z.geb_leb in E2. apply Z.leb_gt in E2. lia.
Qed.

Lemma chunk_by_size_single_window_witness :
  Str.split "  one two  three " <> [] /\
  (Z.of_nat (length (Str.split "  one two  three ")) <= 3)%Z /\
  chunk_by_size "  one two  three " 3 5 = Some [list_ascii_of_string "one two three"].
Proof.
  assert (H1 : Str.split "  one two  three " <> []) by (vm_compute; discriminate).
  assert (H2 : (Z.of_nat (length (Str.split "  one two  three ")) <= 3)%Z)
    by (vm_compute; discriminate).
  split; [exact H1|]. split; [exact H2|].
  exact (chunk_by_size_single_window "  one two  three " 3%Z 5%Z H1 H2).
Defined.

Lemma slice_from {A} (l : list A) (i j : Z) :
  (0 <= i)%Z -> (i <= j)%Z ->
  Str.slice l i j = firstn (Z.to_nat (j - i)) (skipn (Z.to_nat i) l).
Proof.
  intros Hi Hj. unfold Str.slice, Str.clamp.
  destruct (i <? 0)%Z eqn:Ei; [apply Z.ltb_lt in Ei; lia|].
  destruct (j <? 0)%Z eqn:Ej; [apply Z.ltb_lt in Ej; lia|].
  set (len := Z.of_nat (length l)).
  destruct (Z.le_gt_cases len i) as [Hle|Hgt].
  - rewrite (Z.min_r i) by lia. rewrite (Z.min_r j) by lia.
    rewrite Nat.sub_diag. cbn.
    rewrite skipn_all2 by (subst len; lia). now rewrite firstn_nil.
  - rewrite (Z.min_l i) by lia.
    destruct (Z.le_gt_cases len j) as [Hj'|Hj'].
    + rewrite (Z.min_r j) by lia.
      rewrite !firstn_all2; [reflexivity| |];
        rewrite length_skipn; subst len; lia.
    + rewrite (Z.min_l j) by lia. f_equal. lia.
Qed.

(** The loop of [chunk_by_size], once past its first window: what the windows
    add beyond their first [overlap] words is the rest of the text. *)
Lemma chunk_loop_covers (words : list str) (size overlap : Z) :
  Forall is_word words ->
  (0 <= overlap < size)%Z ->
  forall fuel start acc result,
    (0 <= start)%Z ->
    chunk_loop fuel words size overlap start acc = Some result ->
    exists ws,
      result = acc ++ ws /\
      concat (map (fun w => skipn (Z.to_nat overlap) (Str.split w)) ws) =
        skipn (Z.to_nat (start + overlap)) words.
Proof.
  intros Hw Hso. induction fuel as [|fuel IH]; intros start acc result Hs H; [discriminate|].
  cbn [chunk_loop] in H.
  destruct (start <? Z.of_nat (length words))%Z eqn:E1.
  - apply Z.ltb_lt in E1.
    assert (Hsplit : Str.split (Str.join " " (Str.slice words start (start + size)))
                     = Str.slice words start (start + size)).
    { apply split_join. now apply slice_Forall. }
    cbn [list_ascii_of_string] in Hsplit.
    assert (Htail : skipn (Z.to_nat overlap) (Str.slice words start (start + size)) =
                    firstn (Z.to_nat (size - overlap))
                      (skipn (Z.to_nat (start + overlap)) words)).
    { rewrite slice_from by lia.
      replace (Z.to_nat (start + size - start)) with
        (Z.to_nat overlap + Z.to_nat (size - overlap)) by lia.
      rewrite skipn_firstn_comm.
      replace (Z.to_nat overlap + Z.to_nat (size - overlap) - Z.to_nat overlap)
        with (Z.to_nat (size - overlap)) by lia.
      rewrite skipn_skipn. do 2 f_equal. lia. }
    destruct (start + size >=? Z.of_nat (length words))%Z eqn:E2.
    + rewrite Z.geb_leb in E2. apply Z.leb_le in E2.
      injection H as <-. eexists. split; [reflexivity|].
      cbn [app map concat list_ascii_of_string]. rewrite app_nil_r, Hsplit, Htail.
      apply firstn_all2. rewrite length_skipn. lia.
    + rewrite Z.geb_leb in E2. apply Z.leb_gt in E2.
      apply IH in H; [|lia]. destruct H as (ws & -> & Hc).
      eexists. split; [rewrite <- app_assoc; reflexivity|].
      cbn [app map concat list_ascii_of_string]. rewrite Hsplit, Htail, Hc.
      replace (Z.to_nat (start + size - overlap + overlap))
        with (Z.to_nat (size - overlap) + Z.to_nat (start + overlap)) by lia.
      rewrite <- skipn_skipn. apply firstn_skipn.
  - apply Z.ltb_ge in E1. injection H as <-. exists []. split; [now rewrite app_nil_r|].
    cbn. symmetry. apply skipn_all2. lia.
Qed.

(** X3. With [0 <= overlap < size] no word is lost: the first window, followed
    by what every later window holds after its first [overlap] words, is the
    list of the words of the text, in order.  With [overlap = 0] the windows
    cut the text into consecutive pieces. *)
Theorem chunk_by_size_covers (text : str) (size overlap : Z) (windows : list str) :
  (0 <= overlap < size)%Z ->
  chunk_by_size text size overlap = Some windows ->
  match windows with
  | [] => Str.split text = []
  | first :: rest =>
      Str.split first
        ++ concat (map (fun w => skipn (Z.to_nat overlap) (Str.split w)) rest)
      = Str.split text
  end.
Proof.
  intros Hso H. unfold chunk_by_size in H.
  pose proof (split_words text) as Hw.
  set (words := Str.split text) in *.
  cbn [chunk_loop] in H. rewrite ?Z.add_0_l in H.
  destruct (0 <? Z.of_nat (length words))%Z eqn:E1.
  - apply Z.ltb_lt in E1.
    assert (Hsplit : Str.split (Str.join " " (Str.slice words 0 size))
                     = firstn (Z.to_nat size) words).
    { rewrite split_join by now apply slice_Forall.
      rewrite slice_from by lia. cbn [Z.to_nat skipn]. f_equal. lia. }
    cbn [list_ascii_of_string] in Hsplit.
    destruct (size >=? Z.of_nat (length words))%Z eqn:E2.
    + rewrite Z.geb_leb in E2. apply Z.leb_le in E2.
      injection H as <-. cbn [app map concat list_ascii_of_string].
      rewrite app_nil_r, Hsplit. apply firstn_all2. lia.
    + rewrite Z.geb_leb in E2. apply Z.leb_gt in E2.
      apply (chunk_loop_covers words size overlap Hw Hso) in H; [|lia].
      destruct H as (ws & -> & Hc). cbn [app list_ascii_of_string]. rewrite Hsplit, Hc.
      replace (Z.to_nat (size - overlap + overlap)) with (Z.to_nat size) by lia.
      apply firstn_skipn.
  - apply Z.ltb_ge in E1. injection H as <-.
    destruct words; [reflexivity|cbn [length] in E1; lia].
Qed.

Lemma chunk_by_size_covers_witness :
  (0 <= 1 < 3)%Z /\
  chunk_by_size "a b c d e f g" 3 1 =
    Some [list_ascii_of_string "a b c"; list_ascii_of_string "c d e";
          list_ascii_of_string "e f g"] /\
  Str.split "a b c" ++ concat (map (fun w => skipn 1 (Str.split w))
                                 [list_ascii_of_string "c d e"; list_ascii_of_string "e f g"])
    = Str.split "a b c d e f g".
Proof.
  assert (H1 : (0 <= 1 < 3)%Z) by lia.
  assert (H2 : chunk_by_size "a b c d e f g" 3 1 =
    Some [list_ascii_of_string "a b c"; list_ascii_of_string "c d e";
          list_ascii_of_string "e f g"]) by (vm_compute; reflexivity).
  split; [exact H1|]. split; [exact H2|].
  exact (chunk_by_size_covers "a b c d e f g" 3%Z 1%Z _ H1 H2).
Defined.

(* ================================================================= *)
(** ** More on the normalizer *)

Lemma lstrip_fixed (s : str) :
  match s with c :: _ => Str.is_space c = false | [] => True end -> Str.lstrip s = s.
Proof. destruct s as [|c s]; [reflexivity|]. cbn. now intros ->. Qed.

Lemma lstrip_length s : length (Str.lstrip s) <= length s.
Proof. destruct (lstrip_suffix s) as [pre H]. rewrite H at 2. rewrite length_app. lia. Qed.

Lemma rstrip_length s : length (Str.rstrip s) <= length s.
Proof. destruct (rstrip_prefix s) as [suf H]. rewrite H at 2. rewrite length_app. lia. Qed.

Lemma strip_length s : length (Str.strip s) <= length s.
Proof.
  unfold Str.strip. etransitivity; [apply rstrip_length|apply lstrip_length].
Qed.

(** [strip] leaves nothing to strip: the result neither starts nor ends with
    whitespace. *)
Lemma strip_last s c r : Str.strip s = r ++ [c] -> Str.is_space c = false.
Proof.
  unfold Str.strip, Str.rstrip. intro H.
  apply (f_equal (@rev ascii)) in H. rewrite rev_involutive, rev_app_distr in H.
  cbn in H. now apply lstrip_head in H.
Qed.

Lemma strip_strip s : Str.strip (Str.strip s) = Str.strip s.
Proof.
  assert (Hl : Str.lstrip (Str.strip s) = Str.strip s).
  { apply lstrip_fixed. destruct (Str.strip s) eqn:E; [exact I|].
    now apply strip_head in E. }
  unfold Str.strip at 1. rewrite Hl. unfold Str.rstrip.
  rewrite lstrip_fixed; [apply rev_involutive|].
  destruct (rev (Str.strip s)) as [|c r] eqn:E; [exact I|].
  apply (f_equal (@rev ascii)) in E. rewrite rev_involutive in E. cbn in E.
  now apply strip_last in E.
Qed.

(** X4. The normalized text neither starts nor ends with whitespace:
    stripping it again changes nothing. *)
Theorem clean_markdown_stripped (text : str) :
  Str.strip (clean_markdown text) = clean_markdown text /\
  (forall c r, clean_markdown text = c :: r -> Str.is_space c = false) /\
  (forall c r, clean_markdown text = r ++ [c] -> Str.is_space c = false).
Proof.
  unfold clean_markdown. cbv zeta. split; [apply strip_strip|].
  split; intros c r H; [now apply strip_head in H | now apply strip_last in H].
Qed.

Lemma nth_concat_length (gs : list str) : forall i,
  length (nth i gs []) <= length (concat gs).
Proof.
  induction gs as [|g gs IH]; intros [|i]; cbn; try lia.
  - rewrite length_app. lia.
  - rewrite length_app. specialize (IH i). lia.
Qed.

(** A substitution whose replacement is never longer than the match does not
    lengthen the text. *)
Lemma sub_scan_length segs repl :
  (forall s gs rest, match_segs segs s = Some (gs, rest) ->
                     length (repl gs) <= length (concat gs)) ->
  forall s skip, skip <= length s ->
    length (sub_scan segs repl s skip) + skip <= length s.
Proof.
  intros Hrepl. induction s as [|c s IH]; intros skip Hskip; cbn [sub_scan length] in *.
  - lia.
  - destruct skip as [|n].
    + destruct (match_segs segs (c :: s)) as [[gs rest]|] eqn:E.
      * pose proof (Hrepl _ _ _ E) as Hr.
        apply match_segs_sound in E as [Hs _].
        apply (f_equal (@length ascii)) in Hs. rewrite length_app in Hs. cbn [length] in Hs.
        destruct (length (concat gs)) as [|n] eqn:L.
        -- rewrite length_app. cbn [length]. specialize (IH 0). lia.
        -- rewrite length_app. specialize (IH n). lia.
      * cbn [length]. specialize (IH 0). lia.
    + specialize (IH n). lia.
Qed.

Lemma sub_length segs repl s :
  (forall s gs rest, match_segs segs s = Some (gs, rest) ->
                     length (repl gs) <= length (concat gs)) ->
  length (sub segs repl s) <= length s.
Proof.
  intro H. unfold sub. pose proof (sub_scan_length segs repl H s 0). lia.
Qed.

Lemma blank_match s gs rest :
  match_segs re_blank s = Some (gs, rest) -> 3 <= length (concat gs).
Proof.
  intro H. apply match_segs_sound in H as [_ H].
  inversion H as [|r g rs gs' Hg Hgs]; subst. inversion Hgs; subst.
  inversion Hg as [|a r' m1 m2 Ha Hr]; subst. inversion Hr; subst.
  destruct Ha as (_ & Hlo & _). cbn in Hlo.
  cbn [concat]. rewrite !length_app. cbn [length]. lia.
Qed.

(** X5. Normalizing never lengthens a text. *)
Theorem clean_markdown_length (text : str) :
  length (clean_markdown text) <= length text.
Proof.
  unfold clean_markdown. cbv zeta.
  etransitivity; [apply strip_length|].
  etransitivity; [apply sub_length|].
  { intros s gs rest H. apply blank_match in H. cbn [length]. lia. }
  repeat (etransitivity;
          [apply sub_length; intros; first [apply nth_concat_length | apply Nat.le_0_l]|]).
  apply Nat.le_refl.
Qed.

(** A pattern whose first atom takes at least one character matches only
    where the text starts with a character of that atom's class. *)
Lemma match_needs_head a r segs s gs rest :
  1 <= lo a ->
  match_segs ((a :: r) :: segs) s = Some (gs, rest) ->
  exists c s', s = c :: s' /\ cls a c = true.
Proof.
  intros Hlo H. apply match_segs_sound in H as [Hs H].
  inversion H as [|r0 g rs gs' Hg Hgs]; subst.
  inversion Hg as [|a0 r' m1 m2 Ha Hr]; subst.
  destruct Ha as (Hcls & Hlen & _).
  destruct m1 as [|c m1]; [cbn in Hlen; lia|].
  inversion Hcls; subst. exists c. eexists. split; [|eassumption].
  cbn. reflexivity.
Qed.

(** Where no suffix of the text matches, [re.sub] returns the text. *)
Lemma sub_scan_no_match segs repl : forall s,
  (forall pre s', s = pre ++ s' -> match_segs segs s' = None) ->
  sub_scan segs repl s 0 = s.
Proof.
  induction s as [|c s IH]; intros H; [reflexivity|].
  cbn [sub_scan]. rewrite (H [] (c :: s) eq_refl). f_equal.
  apply IH. intros pre s' ->. apply (H (c :: pre)). reflexivity.
Qed.

Lemma sub_class_free a r segs repl s :
  1 <= lo a ->
  Forall (fun c => cls a c = false) s ->
  sub ((a :: r) :: segs) repl s = s.
Proof.
  intros Hlo Hs. apply sub_scan_no_match. intros pre s' ->.
  destruct (match_segs ((a :: r) :: segs) s') as [[gs rest]|] eqn:E; [|reflexivity].
  apply (match_needs_head a r segs s' gs rest Hlo) in E as (c & s'' & -> & Hc).
  apply Forall_app in Hs as [_ Hs]. inversion Hs; subst. congruence.
Qed.

Lemma contains_app_r p pre s : Str.contains p s = true -> Str.contains p (pre ++ s) = true.
Proof.
  intro H. induction pre as [|c pre IH]; [exact H|].
  cbn [app Str.contains]. rewrite IH. apply orb_true_r.
Qed.

Lemma contains_cons p c s : Str.contains p (c :: s) = false ->
  Str.startswith p (c :: s) = false /\ Str.contains p s = false.
Proof. cbn [Str.contains]. intro H. now apply orb_false_iff in H. Qed.

Lemma contains_suffix_false p a b : Str.contains p (a ++ b) = false -> Str.contains p b = false.
Proof.
  induction a as [|c a IH]; [trivial|]. cbn [app]. intro H.
  apply IH. now apply contains_cons in H.
Qed.

Lemma contains_startswith p s : Str.startswith p s = true -> Str.contains p s = true.
Proof. intro H. destruct s; cbn [Str.contains]; rewrite H; reflexivity. Qed.

Lemma sub_blank_free repl s :
  Str.contains [Str.nl; Str.nl; Str.nl] s = false -> sub re_blank repl s = s.
Proof.
  intro Hs. apply sub_scan_no_match. intros pre s' ->.
  destruct (match_segs re_blank s') as [[gs rest]|] eqn:E; [|reflexivity].
  exfalso. apply match_segs_sound in E as [Hs' E].
  inversion E as [|r g rs gs' Hg Hgs]; subst. inversion Hgs; subst.
  inversion Hg as [|a r' m1 m2 Ha Hr]; subst. inversion Hr; subst.
  destruct Ha as (Hcls & Hlo & _). cbn in Hlo, Hcls.
  destruct m1 as [|c1 [|c2 [|c3 m1]]]; cbn [length] in Hlo; try lia.
  inversion Hcls as [|? ? H1 Hcls1]; subst.
  inversion Hcls1 as [|? ? H2 Hcls2]; subst.
  inversion Hcls2 as [|? ? H3 _]; subst.
  unfold Str.is_nl in *. apply Ascii.eqb_eq in H1, H2, H3. subst c1 c2 c3.
  rewrite contains_app_r in Hs; [discriminate|].
  apply contains_startswith. reflexivity.
Qed.

Lemma not_in_literal (set s : str) :
  forallb (fun c => negb (existsb (Ascii.eqb c) set)) s = true ->
  Forall (fun c => ~ In c set) s.
Proof.
  intro H. apply Forall_forall. intros c Hc Hin.
  rewrite forallb_forall in H. apply H in Hc. apply negb_true_iff in Hc.
  assert (Ht : existsb (Ascii.eqb c) set = true).
  { apply existsb_exists. exists c. split; [exact Hin|apply Ascii.eqb_refl]. }
  congruence.
Qed.

(** X6. Prose without markup is only stripped: a text that holds none of the
    characters [<], [[], [`], [#], [*] and no three consecutive newlines is
    normalized to itself without its outer whitespace. *)
Theorem clean_markdown_plain_text (text : str) :
  Forall (fun c => ~ In c (list_ascii_of_string "<[`#*")) text ->
  Str.contains [Str.nl; Str.nl; Str.nl] text = false ->
  clean_markdown text = Str.strip text.
Proof.
  intros Hfree Hblank. unfold clean_markdown. cbv zeta.
  assert (Hc : forall x, In x (list_ascii_of_string "<[`#*") ->
                 Forall (fun c => chr x c = false) text).
  { intros x Hx. eapply Forall_impl; [|exact Hfree]. intros c Hn. cbv beta in Hn.
    unfold chr. apply Ascii.eqb_neq. intros ->. now apply Hn. }
  unfold re_html, re_link, re_fence, re_code, re_heading, re_bold, re_italic.
  rewrite (sub_class_free (lit "<")); [|cbn; lia|apply Hc; cbn; tauto].
  rewrite (sub_class_free (lit "[")); [|cbn; lia|apply Hc; cbn; tauto].
  rewrite (sub_class_free (lit "`") (_ :: _)); [|cbn; lia|apply Hc; cbn; tauto].
  rewrite (sub_class_free (lit "`")); [|cbn; lia|apply Hc; cbn; tauto].
  rewrite (sub_class_free (plus (chr "#"))); [|cbn; lia|apply Hc; cbn; tauto].
  rewrite (sub_class_free (lit "*") (_ :: _)); [|cbn; lia|apply Hc; cbn; tauto].
  rewrite (sub_class_free (lit "*")); [|cbn; lia|apply Hc; cbn; tauto].
  rewrite sub_blank_free by exact Hblank. reflexivity.
Qed.

Lemma clean_markdown_plain_text_witness :
  Forall (fun c => ~ In c (list_ascii_of_string "<[`#*"))
    ("  Install the package." ++ [Str.nl; Str.nl] ++ "Then run it. ") /\
  clean_markdown ("  Install the package." ++ [Str.nl; Str.nl] ++ "Then run it. ") =
    "Install the package." ++ [Str.nl; Str.nl] ++ "Then run it.".
Proof.
  assert (H1 : Forall (fun c => ~ In c (list_ascii_of_string "<[`#*"))
                 ("  Install the package." ++ [Str.nl; Str.nl] ++ "Then run it. ")).
  { apply not_in_literal. vm_compute. reflexivity. }
  assert (H2 : Str.contains [Str.nl; Str.nl; Str.nl]
                 ("  Install the package." ++ [Str.nl; Str.nl] ++ "Then run it. ") = false)
    by (vm_compute; reflexivity).
  split; [exact H1|].
  exact (clean_markdown_plain_text _ H1 H2).
Defined.

Lemma strip_fixed (s : str) :
  match s with c :: _ => Str.is_space c = false | [] => True end ->
  match rev s with c :: _ => Str.is_space c = false | [] => True end ->
  Str.strip s = s.
Proof.
  intros Hh Hl. unfold Str.strip, Str.rstrip.
  rewrite (lstrip_fixed s Hh), (lstrip_fixed (rev s) Hl). apply rev_involutive.
Qed.

(** The marker of a header: its [#] characters and the whitespace after
    them. *)
Lemma heading_marker_removed (hashes ws txt : str) :
  hashes <> [] -> Forall (fun c => c = "#"%char) hashes ->
  ws <> [] -> Forall (fun c => Str.is_space c = true) ws ->
  match txt with c :: _ => Str.is_space c = false | [] => True end ->
  sub_at_start re_heading Re.drop (hashes ++ ws ++ txt) = txt.
Proof.
  intros Hh Hhashes Hw Hws Htxt. unfold sub_at_start, re_heading.
  cbn [match_segs match_atoms greedy cls lo hi plus].
  rewrite (rep_greedy_run (chr "#") hashes 1 (ws ++ txt) _ ([hashes ++ ws ++ []], txt)).
  - reflexivity.
  - eapply Forall_impl; [|exact Hhashes]. now intros c ->.
  - destruct ws as [|c ws]; [congruence|]. cbn [app]. inversion Hws; subst.
    unfold chr. apply Ascii.eqb_neq. intros <-. discriminate.
  - destruct hashes; [congruence|cbn; lia].
  - rewrite (rep_greedy_run Str.is_space ws 1 txt _ ([hashes ++ ws ++ []], txt)).
    + reflexivity.
    + exact Hws.
    + exact Htxt.
    + destruct ws; [congruence|cbn; lia].
    + reflexivity.
Qed.

(** X7. The label of a section is its header line without the marker: for a
    header made of [#] characters, whitespace, and a text that neither starts
    nor ends with whitespace, what [chunk_by_headers] computes from
    [sections[i].strip()] with [re.sub(r'^#+\s+', '', header)] is that text. *)
Theorem header_label (hashes ws txt : str) :
  hashes <> [] -> Forall (fun c => c = "#"%char) hashes ->
  ws <> [] -> Forall (fun c => Str.is_space c = true) ws ->
  txt <> [] -> Str.strip txt = txt ->
  sub_at_start re_heading Re.drop (Str.strip (hashes ++ ws ++ txt)) = txt.
Proof.
  intros Hh Hhashes Hw Hws Ht Hstrip.
  assert (Hhead : match txt with c :: _ => Str.is_space c = false | [] => True end).
  { destruct txt as [|c r] eqn:E; [exact I|]. now apply strip_head in Hstrip. }
  rewrite strip_fixed.
  - now apply heading_marker_removed.
  - destruct hashes as [|c hashes]; [congruence|]. inversion Hhashes; subst. reflexivity.
  - rewrite !rev_app_distr.
    destruct (rev txt) as [|c r] eqn:E.
    + apply (f_equal (@rev ascii)) in E. rewrite rev_involutive in E. now subst txt.
    + cbn [app]. apply (f_equal (@rev ascii)) in E. rewrite rev_involutive in E. cbn in E.
      rewrite E in Hstrip. now apply strip_last in Hstrip.
Qed.

Lemma header_label_witness :
  sub_at_start re_heading Re.drop (Str.strip ("##" ++ "  " ++ "Getting started")) =
    "Getting started".
Proof.
  apply (header_label "##" "  " "Getting started").
  - discriminate.
  - repeat constructor.
  - discriminate.
  - repeat constructor.
  - discriminate.
  - vm_compute. reflexivity.
Defined.

Lemma sub_scan_skip segs repl pre : forall rest,
  sub_scan segs repl (pre ++ rest) (length pre) = sub_scan segs repl rest 0.
Proof.
  induction pre as [|c pre IH]; intro rest; [reflexivity|].
  cbn [app length sub_scan]. apply IH.
Qed.

Lemma blank_match_run (m r : str) :
  Forall (fun c => c = Str.nl) m -> 3 <= length m ->
  match r with c :: _ => c <> Str.nl | [] => True end ->
  match_segs re_blank (m ++ r) = Some ([m], r).
Proof.
  intros Hm Hlen Hr. unfold re_blank.
  cbn [match_segs match_atoms greedy cls lo hi at_least].
  rewrite (rep_greedy_run Str.is_nl m 3 r _ ([m], r)); try reflexivity.
  - eapply Forall_impl; [|exact Hm]. intros c ->. reflexivity.
  - destruct r as [|c r]; [exact I|]. unfold Str.is_nl. apply Ascii.eqb_neq.
    intros ->. now apply Hr.
  - exact Hlen.
  - cbn. now rewrite app_nil_r.
Qed.

Lemma blank_match_needs_three s gs rest :
  match_segs re_blank s = Some (gs, rest) ->
  exists t, s = Str.nl :: Str.nl :: Str.nl :: t.
Proof.
  intro E. apply match_segs_sound in E as [Hs E].
  inversion E as [|r g rs gs' Hg Hgs]; subst. inversion Hgs; subst.
  inversion Hg as [|a r' m1 m2 Ha Hr]; subst. inversion Hr; subst.
  destruct Ha as (Hcls & Hlo & _). cbn in Hlo, Hcls.
  destruct m1 as [|c1 [|c2 [|c3 m1]]]; cbn [length] in Hlo; try lia.
  inversion Hcls as [|? ? H1 Hcls1]; subst.
  inversion Hcls1 as [|? ? H2 Hcls2]; subst.
  inversion Hcls2 as [|? ? H3 _]; subst.
  unfold Str.is_nl in *. apply Ascii.eqb_eq in H1, H2, H3. subst c1 c2 c3.
  eexists. cbn. reflexivity.
Qed.

(** A run of fewer than three newlines is copied. *)
Lemma sub_blank_short_run repl (m : str) : forall r,
  Forall (fun c => c = Str.nl) m -> length m < 3 ->
  match r with c :: _ => c <> Str.nl | [] => True end ->
  sub_scan re_blank repl (m ++ r) 0 = m ++ sub_scan re_blank repl r 0.
Proof.
  induction m as [|c m IH]; intros r Hm Hlen Hr; [reflexivity|].
  inversion Hm as [|? ? Hc Hm']; subst. cbn [app sub_scan].
  destruct (match_segs re_blank (Str.nl :: m ++ r)) as [[gs rest]|] eqn:E.
  - exfalso. apply blank_match_needs_three in E as [t E]. injection E as E.
    cbn [length] in Hlen.
    destruct m as [|c1 m]; cbn [app] in E.
    + subst r. now apply Hr.
    + inversion Hm' as [|? ? Hc1 Hm'']; subst. injection E as E.
      destruct m as [|c2 m]; cbn [app length] in *; [|lia].
      subst r. now apply Hr.
  - f_equal. apply IH; [exact Hm'|cbn [length] in Hlen; lia|exact Hr].
Qed.

(** A run of three newlines or more is replaced by two. *)
Lemma sub_blank_long_run (m : str) r :
  Forall (fun c => c = Str.nl) m -> 3 <= length m ->
  match r with c :: _ => c <> Str.nl | [] => True end ->
  sub_scan re_blank (fun _ => [Str.nl; Str.nl]) (m ++ r) 0 =
  [Str.nl; Str.nl] ++ sub_scan re_blank (fun _ => [Str.nl; Str.nl]) r 0.
Proof.
  intros Hm Hlen Hr. pose proof (blank_match_run m r Hm Hlen Hr) as E.
  destruct m as [|c m]; [cbn in Hlen; lia|].
  cbn [app sub_scan] in *. rewrite E. cbn [concat]. rewrite app_nil_r. cbn [length].
  now rewrite sub_scan_skip.
Qed.

Lemma newline_run (s : str) :
  exists m r, s = m ++ r /\ Forall (fun c => c = Str.nl) m /\
              match r with c :: _ => c <> Str.nl | [] => True end.
Proof.
  induction s as [|c s (m & r & -> & Hm & Hr)]; [exists [], []; repeat split; constructor|].
  destruct (ascii_dec c Str.nl) as [->|Hc].
  - exists (Str.nl :: m), r. repeat split; [now constructor|exact Hr].
  - exists [], (c :: m ++ r). repeat split; [constructor|exact Hc].
Qed.

Lemma no_triple_cons c out :
  c <> Str.nl ->
  Str.contains [Str.nl; Str.nl; Str.nl] out = false ->
  Str.contains [Str.nl; Str.nl; Str.nl] (c :: out) = false.
Proof.
  intros Hc H. cbn [Str.contains Str.startswith]. rewrite H.
  apply Ascii.eqb_neq in Hc. rewrite Ascii.eqb_sym, Hc. reflexivity.
Qed.

Lemma no_triple_newline out :
  match out with c :: _ => c <> Str.nl | [] => True end ->
  Str.contains [Str.nl; Str.nl; Str.nl] out = false ->
  Str.contains [Str.nl; Str.nl; Str.nl] (Str.nl :: out) = false /\
  Str.contains [Str.nl; Str.nl; Str.nl] (Str.nl :: Str.nl :: out) = false.
Proof.
  intros Hh H.
  assert (H1 : Str.contains [Str.nl; Str.nl; Str.nl] (Str.nl :: out) = false).
  { change (Str.contains [Str.nl; Str.nl; Str.nl] (Str.nl :: out)) with
      (Str.startswith [Str.nl; Str.nl; Str.nl] (Str.nl :: out)
       || Str.contains [Str.nl; Str.nl; Str.nl] out).
    rewrite H, orb_false_r. destruct out as [|c out]; [reflexivity|].
    cbn [Str.startswith]. apply Ascii.eqb_neq in Hh. rewrite Ascii.eqb_sym in Hh.
    rewrite Hh. now rewrite andb_false_r. }
  split; [exact H1|].
  change (Str.contains [Str.nl; Str.nl; Str.nl] (Str.nl :: Str.nl :: out)) with
    (Str.startswith [Str.nl; Str.nl; Str.nl] (Str.nl :: Str.nl :: out)
     || Str.contains [Str.nl; Str.nl; Str.nl] (Str.nl :: out)).
  rewrite H1, orb_false_r. destruct out as [|c out]; [reflexivity|].
  cbn [Str.startswith]. apply Ascii.eqb_neq in Hh. rewrite Ascii.eqb_sym in Hh.
  rewrite Hh. now rewrite !andb_false_r.
Qed.

Lemma no_triple_run (m : str) out :
  Forall (fun c => c = Str.nl) m -> length m <= 2 ->
  match out with c :: _ => c <> Str.nl | [] => True end ->
  Str.contains [Str.nl; Str.nl; Str.nl] out = false ->
  Str.contains [Str.nl; Str.nl; Str.nl] (m ++ out) = false.
Proof.
  intros Hm Hlen Hh H. destruct (no_triple_newline out Hh H) as [H1 H2].
  destruct m as [|c1 [|c2 [|c3 m]]]; cbn [length] in Hlen; try lia.
  - exact H.
  - inversion Hm; subst. exact H1.
  - inversion Hm as [|? ? ? Hm']; subst. inversion Hm'; subst. exact H2.
Qed.

(** After the substitution of the blank lines no three newlines follow one
    another. *)
Lemma sub_blank_no_triple : forall n (s : str),
  length s <= n ->
  Str.contains [Str.nl; Str.nl; Str.nl]
    (sub_scan re_blank (fun _ => [Str.nl; Str.nl]) s 0) = false.
Proof.
  induction n as [|n IH]; intros s Hn.
  - destruct s; [reflexivity|cbn in Hn; lia].
  - destruct (newline_run s) as (m & r & -> & Hm & Hr).
    assert (Hrest : exists out,
              sub_scan re_blank (fun _ => [Str.nl; Str.nl]) r 0 = out /\
              match out with c :: _ => c <> Str.nl | [] => True end /\
              Str.contains [Str.nl; Str.nl; Str.nl] out = false).
    { destruct r as [|c r]; [exists []; repeat split|].
      eexists. split; [reflexivity|]. cbn [sub_scan].
      destruct (match_segs re_blank (c :: r)) as [[gs rest]|] eqn:E.
      { exfalso. apply blank_match_needs_three in E as [t E]. injection E as -> _.
        now apply Hr. }
      split; [exact Hr|]. apply no_triple_cons; [exact Hr|].
      apply IH. rewrite length_app in Hn. cbn [length] in Hn. lia. }
    destruct Hrest as (out & Hout & Hh & Hc).
    destruct (Nat.lt_ge_cases (length m) 3) as [Hshort|Hlong].
    + rewrite sub_blank_short_run by assumption. rewrite Hout.
      apply no_triple_run; try assumption. lia.
    + rewrite sub_blank_long_run by assumption. rewrite Hout.
      apply (no_triple_run [Str.nl; Str.nl]); try assumption; [repeat constructor|cbn; lia].
Qed.

Lemma contains_prefix_false p a b :
  Str.contains p (a ++ b) = false -> Str.contains p a = false.
Proof.
  assert (Hs : forall p a, Str.startswith p a = true -> Str.startswith p (a ++ b) = true).
  { clear. induction p as [|x p IH]; intros a H; [reflexivity|].
    destruct a as [|y a]; [discriminate|]. cbn [Str.startswith app] in *.
    apply andb_true_iff in H as [-> H]. now rewrite IH. }
  induction a as [|c a IH]; intro H.
  - destruct (Str.contains p []) eqn:E; [|reflexivity].
    cbn [Str.contains] in E. rewrite orb_false_r in E. apply Hs in E. cbn [app] in E.
    cbn [app] in H. destruct b; cbn [Str.contains] in H; rewrite E in H; discriminate.
  - cbn [app] in H. apply contains_cons in H as [H1 H2].
    cbn [Str.contains]. rewrite (IH H2), orb_false_r.
    destruct (Str.startswith p (c :: a)) eqn:E; [|reflexivity].
    apply Hs in E. cbn [app] in E. congruence.
Qed.

(** X8. The normalized text holds no three consecutive newlines: there is
    at most one empty line between two lines of text. *)
Theorem clean_markdown_blank_lines (text : str) :
  Str.contains [Str.nl; Str.nl; Str.nl] (clean_markdown text) = false.
Proof.
  unfold clean_markdown. cbv zeta. unfold sub at 1.
  match goal with |- context [sub_scan re_blank ?f ?s 0] =>
    pose proof (sub_blank_no_triple (length s) s (Nat.le_refl _)) as H;
    set (t := sub_scan re_blank f s 0) in * end.
  unfold Str.strip.
  destruct (lstrip_suffix t) as [pre Hpre].
  destruct (rstrip_prefix (Str.lstrip t)) as [suf Hsuf].
  rewrite Hpre in H. apply contains_suffix_false in H.
  rewrite Hsuf in H. now apply contains_prefix_false in H.
Qed.

(* ================================================================= *)
(** ** Blank documents and blank lines *)

Lemma strip_blank (s : str) :
  Forall (fun c => Str.is_space c = true) s -> Str.strip s = [].
Proof.
  intro H. unfold Str.strip.
  assert (Hl : Str.lstrip s = []).
  { induction H as [|c s Hc _ IH]; [reflexivity|]. cbn. now rewrite Hc. }
  now rewrite Hl.
Qed.

Lemma sub_scan_blank segs repl :
  (forall gs, Forall (fun c => Str.is_space c = true) (repl gs)) ->
  forall s skip,
    Forall (fun c => Str.is_space c = true) s ->
    Forall (fun c => Str.is_space c = true) (sub_scan segs repl s skip).
Proof.
  intros Hrepl. induction s as [|c s IH]; intros skip Hs; [constructor|].
  inversion Hs as [|? ? Hc Hs']; subst. cbn [sub_scan].
  destruct skip as [|n]; [|now apply IH].
  destruct (match_segs segs (c :: s)) as [[gs rest]|].
  - destruct (length (concat gs)).
    + apply Forall_app. split; [apply Hrepl|]. constructor; [exact Hc|now apply IH].
    + apply Forall_app. split; [apply Hrepl|now apply IH].
  - constructor; [exact Hc|now apply IH].
Qed.

Lemma blank_class_free (x : ascii) (s : str) :
  Str.is_space x = false ->
  Forall (fun c => Str.is_space c = true) s -> Forall (fun c => chr x c = false) s.
Proof.
  intros Hx Hs. eapply Forall_impl; [|exact Hs]. intros c Hc. cbv beta in Hc.
  unfold chr. apply Ascii.eqb_neq. intros ->. congruence.
Qed.

Lemma blank_text_normalized (text : str) :
  Forall (fun c => Str.is_space c = true) text -> clean_markdown text = [].
Proof.
  intro H. unfold clean_markdown. cbv zeta. apply strip_blank.
  unfold re_html, re_link, re_fence, re_code, re_heading, re_bold, re_italic.
  rewrite (sub_class_free (lit "<")); [|cbn; lia|now apply blank_class_free].
  rewrite (sub_class_free (lit "[")); [|cbn; lia|now apply blank_class_free].
  rewrite (sub_class_free (lit "`") (_ :: _)); [|cbn; lia|now apply blank_class_free].
  rewrite (sub_class_free (lit "`")); [|cbn; lia|now apply blank_class_free].
  rewrite (sub_class_free (plus (chr "#"))); [|cbn; lia|now apply blank_class_free].
  rewrite (sub_class_free (lit "*") (_ :: _)); [|cbn; lia|now apply blank_class_free].
  rewrite (sub_class_free (lit "*")); [|cbn; lia|now apply blank_class_free].
  apply sub_scan_blank; [|exact H]. intros _. repeat constructor.
Qed.

Lemma split_without_hash (content : str) :
  Forall (fun c => c <> "#"%char) content -> Re.split re_header 1 content = [content].
Proof.
  intro H. unfold Re.split.
  pose proof (scan_body content [] H I) as Hs. rewrite app_nil_r in Hs.
  rewrite Hs. cbn. now rewrite app_nil_r.
Qed.

(** X9. A document that is empty or holds only whitespace gives no chunk. *)
Theorem blank_document_no_chunk (Vec : Type) (settings : Settings)
  (content doc_path title : str) :
  Forall (fun c => Str.is_space c = true) content ->
  chunk_by_headers Vec settings content doc_path title = Some [].
Proof.
  intro H. unfold chunk_by_headers.
  rewrite split_without_hash.
  - now rewrite (blank_text_normalized content H).
  - eapply Forall_impl; [|exact H]. intros c Hc ->. discriminate.
Qed.

Lemma blank_document_no_chunk_witness :
  Forall (fun c => Str.is_space c = true) ([Str.nl; Str.nl; Str.nl] ++ "  ") /\
  chunk_by_headers unit default_settings ([Str.nl; Str.nl; Str.nl] ++ "  ") "empty.md" "Empty"
    = Some [].
Proof.
  assert (H : Forall (fun c => Str.is_space c = true) ([Str.nl; Str.nl; Str.nl] ++ "  "))
    by (repeat constructor).
  split; [exact H|].
  exact (blank_document_no_chunk unit default_settings _ "empty.md" "Empty" H).
Defined.

(* ================================================================= *)
(** ** What every chunk of a document looks like *)

Section ChunkShape.
Variable Vec : Type.
Variable settings : Settings.

Lemma section_candidates_origin title header section_content cs :
  section_candidates settings title header section_content = Some cs ->
  Forall (from_section settings title) cs.
Proof.
  unfold section_candidates. destruct (_ >? _)%Z.
  - destruct (chunk_by_size _ _ _) as [ws|] eqn:E; [|discriminate].
    intro H. injection H as <-. apply Forall_forall. intros c Hc.
    apply In_nth_error in Hc as [n Hn].
    apply window_candidates_nth in Hn as (w & Hw & ->).
    exists header, section_content. cbn. repeat split. right.
    exists n, ws. repeat split; assumption.
  - destruct (50 <? _) eqn:E; intro H; injection H as <-; constructor; [|constructor].
    exists header, section_content. cbn. repeat split. left.
    apply Nat.ltb_lt in E. repeat split. exact E.
Qed.

Lemma sections_candidates_origin title sections : forall cs,
  sections_candidates settings title sections = Some cs ->
  Forall (from_section settings title) cs.
Proof.
  induction sections as [|[h b] sections IH]; intros cs H; cbn in H.
  - injection H as <-. constructor.
  - destruct (section_candidates settings title h b) as [a|] eqn:Ea; [|discriminate].
    destruct (sections_candidates settings title sections) as [r|]; [|discriminate].
    injection H as <-. apply Forall_app. split.
    + now apply section_candidates_origin in Ea.
    + now apply IH.
Qed.

Lemma candidates_origin content title cs :
  candidates settings content title = Some cs ->
  Forall (fun c =>
      (from_plain title c /\ cand_text c <> [] /\
       (1 < length (Re.split re_header 1 content) -> 50 < length (cand_text c))) \/
      from_section settings title c) cs.
Proof.
  unfold candidates.
  destruct (split_interleave re_header 1 content) as (first & ps & ->).
  destruct ps as [|[h b] ps]; cbn [interleave].
  - intro H. injection H as <-.
    destruct (nonempty (clean_markdown content)) eqn:E; constructor; [|constructor].
    left. repeat split; cbn; eauto.
    + intro Hn. rewrite Hn in E. discriminate.
    + intro Hl. lia.
  - change (h :: b :: interleave ps) with (interleave ((h, b) :: ps)).
    rewrite pairs_interleave.
    destruct (sections_candidates settings title ((h, b) :: ps)) as [r|] eqn:Er;
      [|discriminate].
    intro H. injection H as <-. apply Forall_app. split.
    + unfold plain_candidates.
      destruct (nonempty (Str.strip first) && (50 <? length (clean_markdown first))) eqn:E;
        constructor; [|constructor].
      apply andb_true_iff in E as [_ E]. apply Nat.ltb_lt in E.
      left. repeat split; cbn; eauto.
      intro Hn. rewrite Hn in E. cbn in E. lia.
    + apply sections_candidates_origin in Er.
      eapply Forall_impl; [|exact Er]. intros c Hc. now right.
Qed.

(** X10. Every chunk of a document carries the document's path, no embedding,
    and one metadata entry, its section label: the document title for text
    outside the sections, with the title unchanged, and otherwise the label
    that the chunk title shows after the document title and a dash. *)
Theorem chunk_fields (content doc_path title : str) (chunks : list (Chunk Vec)) :
  chunk_by_headers Vec settings content doc_path title = Some chunks ->
  Forall (fun c =>
      DocumentChunk.doc_path c = doc_path /\
      DocumentChunk.embedding c = None /\
      exists label,
        DocumentChunk.metadata c = [(list_ascii_of_string "section", label)] /\
        ((label = title /\ DocumentChunk.title c = title) \/
         DocumentChunk.title c = title ++ " - " ++ label)) chunks.
Proof.
  rewrite chunk_by_headers_candidates.
  destruct (candidates settings content title) as [cs|] eqn:E; [|discriminate].
  intro H. injection H as <-. apply candidates_origin in E.
  apply Forall_forall. intros c Hc. apply In_nth_error in Hc as [n Hn].
  apply number_nth in Hn as (cand & Hcand & ->).
  apply nth_error_In in Hcand. rewrite Forall_forall in E. apply E in Hcand.
  cbn. repeat split. exists (cand_section cand). split; [reflexivity|].
  destruct Hcand as [((Ht & Hs & _) & _)|(h & b & Ht & Hs & _)].
  - left. now split.
  - right. now rewrite Ht, Hs.
Qed.

End ChunkShape.

Lemma chunk_fields_witness :
  chunk_by_headers unit default_settings two_section_doc "guide.md" "Guide"
    = Some two_section_chunks /\
  Forall (fun c =>
      DocumentChunk.doc_path c = list_ascii_of_string "guide.md" /\
      DocumentChunk.embedding c = None /\
      exists label,
        DocumentChunk.metadata c = [(list_ascii_of_string "section", label)] /\
        ((label = list_ascii_of_string "Guide" /\
          DocumentChunk.title c = list_ascii_of_string "Guide") \/
         DocumentChunk.title c = "Guide" ++ " - " ++ label)) two_section_chunks.
Proof.
  assert (H : chunk_by_headers unit default_settings two_section_doc "guide.md" "Guide"
              = Some two_section_chunks) by (vm_compute; reflexivity).
  split; [exact H|].
  exact (chunk_fields unit default_settings two_section_doc "guide.md" "Guide"
           two_section_chunks H).
Defined.

(** Every window starts with a word. *)
Lemma chunk_loop_starts (words : list str) (size overlap : Z) :
  Forall is_word words ->
  (0 <= overlap < size)%Z ->
  forall fuel start acc result,
    (0 <= start)%Z ->
    chunk_loop fuel words size overlap start acc = Some result ->
    exists ws,
      result = acc ++ ws /\
      Forall (fun w => exists c r, w = c :: r /\ Str.is_space c = false) ws.
Proof.
  intros Hw Hso. induction fuel as [|fuel IH]; intros start acc result Hs H; [discriminate|].
  cbn [chunk_loop] in H.
  destruct (start <? Z.of_nat (length words))%Z eqn:E1.
  - apply Z.ltb_lt in E1.
    assert (Hhead : exists c r,
              Str.join " " (Str.slice words start (start + size)) = c :: r /\
              Str.is_space c = false).
    { rewrite slice_from by lia.
      destruct (skipn (Z.to_nat start) words) as [|x xs] eqn:Ex.
      { apply (f_equal (@length str)) in Ex. rewrite length_skipn in Ex. cbn in Ex. lia. }
      assert (Hx : is_word x).
      { apply (Forall_skipn _ (Z.to_nat start)) in Hw. rewrite Ex in Hw. now inversion Hw. }
      destruct (Z.to_nat (start + size - start)) as [|n] eqn:En; [lia|].
      cbn [firstn]. destruct Hx as [Hne Hx]. destruct x as [|c x]; [congruence|].
      inversion Hx; subst.
      exists c. destruct (firstn n xs); cbn [Str.join app]; eauto. }
    cbn [list_ascii_of_string] in Hhead.
    destruct (start + size >=? Z.of_nat (length words))%Z eqn:E2.
    + injection H as <-. eexists. split; [reflexivity|]. constructor; [exact Hhead|constructor].
    + rewrite Z.geb_leb in E2. apply Z.leb_gt in E2.
      apply IH in H; [|lia]. destruct H as (ws & -> & Hall).
      eexists. split; [rewrite <- app_assoc; reflexivity|].
      cbn [app]. constructor; assumption.
  - injection H as <-. exists []. split; [now rewrite app_nil_r|constructor].
Qed.

Lemma chunk_by_size_window (text : str) (size overlap : Z) windows j w :
  (0 <= overlap < size)%Z ->
  chunk_by_size text size overlap = Some windows ->
  nth_error windows j = Some w ->
  (exists c r, w = c :: r /\ Str.is_space c = false) /\
  (Z.of_nat (length (Str.split w)) <= size)%Z.
Proof.
  intros Hso H Hj. split.
  - unfold chunk_by_size in H.
    apply (chunk_loop_starts _ size overlap (split_words text) Hso) in H; [|lia].
    destruct H as (ws & -> & Hall). cbn [app] in Hj.
    apply nth_error_In in Hj. rewrite Forall_forall in Hall. now apply Hall.
  - destruct (chunk_by_size_runs text size overlap Hso) as (ws & Hws & _ & Hk).
    rewrite Hws in H. injection H as <-. now apply Hk in Hj.
Qed.

Section ChunkTexts.
Variable Vec : Type.
Variable settings : Settings.

(** X11. Under a configuration with [0 <= chunk_overlap < chunk_size] no chunk
    is empty: the text of every chunk starts with a character that is not
    whitespace. *)
Theorem chunk_text_starts_with_word (content doc_path title : str)
  (chunks : list (Chunk Vec)) :
  valid_settings settings ->
  chunk_by_headers Vec settings content doc_path title = Some chunks ->
  Forall (fun c => exists ch r,
            DocumentChunk.text c = ch :: r /\ Str.is_space ch = false) chunks.
Proof.
  intro Hv. rewrite chunk_by_headers_candidates.
  destruct (candidates settings content title) as [cs|] eqn:E; [|discriminate].
  intro H. injection H as <-. apply candidates_origin in E.
  apply Forall_forall. intros c Hc. apply In_nth_error in Hc as [n Hn].
  apply number_nth in Hn as (cand & Hcand & ->).
  apply nth_error_In in Hcand. rewrite Forall_forall in E. apply E in Hcand. cbn.
  destruct Hcand as [((_ & _ & _ & raw & Hraw) & Hne & _)|
                     (h & b & _ & _ & [(_ & Ht & Hl)|(j & ws & _ & Hws & Hj)])].
  - destruct (cand_text cand) as [|ch r] eqn:Et; [congruence|].
    exists ch, r. split; [reflexivity|]. symmetry in Hraw. now apply clean_markdown_head in Hraw.
  - destruct (cand_text cand) as [|ch r] eqn:Et; [cbn in Hl; lia|].
    exists ch, r. split; [reflexivity|]. unfold section_text in Ht. symmetry in Ht.
    now apply clean_markdown_head in Ht.
  - now apply (chunk_by_size_window _ _ _ _ _ _ Hv Hws Hj).
Qed.

(** X12. On a document that holds a header line, with
    [0 <= chunk_overlap < chunk_size]: the chunk at position [n] is either
    kept whole, with the identifier of [n] alone and a text of more than 50
    characters, or it is a window, with the identifier of [n] and its window
    index and a text of at most [chunk_size] words. *)
Theorem chunk_length_filter (content doc_path title : str) (chunks : list (Chunk Vec)) :
  valid_settings settings ->
  1 < length (Re.split re_header 1 content) ->
  chunk_by_headers Vec settings content doc_path title = Some chunks ->
  forall n c, nth_error chunks n = Some c ->
    (DocumentChunk.id c = MD5.hexdigest (key doc_path n) /\
     50 < length (DocumentChunk.text c)) \/
    (exists j,
       DocumentChunk.id c = MD5.hexdigest (window_key doc_path n j) /\
       (Z.of_nat (length (Str.split (DocumentChunk.text c))) <= chunk_size settings)%Z).
Proof.
  intros Hv Hh. rewrite chunk_by_headers_candidates.
  destruct (candidates settings content title) as [cs|] eqn:E; [|discriminate].
  intro H. injection H as <-. apply candidates_origin in E.
  intros n c Hn.
  apply number_nth in Hn as (cand & Hcand & ->).
  apply nth_error_In in Hcand. rewrite Forall_forall in E. apply E in Hcand. cbn.
  destruct Hcand as [((_ & _ & Hw & _) & _ & Hl)|
                     (h & b & _ & _ & [(Hw & _ & Hl)|(j & ws & Hw & Hws & Hj)])].
  - left. rewrite Hw. split; [reflexivity|now apply Hl].
  - left. rewrite Hw. split; [reflexivity|exact Hl].
  - right. exists j. rewrite Hw. split; [reflexivity|].
    now apply (chunk_by_size_window _ _ _ _ _ _ Hv Hws Hj).
Qed.

End ChunkTexts.

Lemma chunk_text_starts_with_word_witness :
  valid_settings small_windows /\
  exists chunks,
    chunk_by_headers unit small_windows thirteen_words_doc "p.md" "P" = Some chunks /\
    Forall (fun c => exists ch r,
              DocumentChunk.text c = ch :: r /\ Str.is_space ch = false) chunks.
Proof.
  assert (Hv : valid_settings small_windows) by (unfold valid_settings; cbn; lia).
  split; [exact Hv|].
  eexists. split; [vm_compute; reflexivity|].
  apply (chunk_text_starts_with_word unit small_windows thirteen_words_doc "p.md" "P" _ Hv).
  vm_compute. reflexivity.
Defined.

Lemma chunk_length_filter_witness :
  valid_settings small_windows /\
  1 < length (Re.split re_header 1 thirteen_words_doc) /\
  exists c,
    nth_error (match chunk_by_headers unit small_windows thirteen_words_doc "p.md" "P" with
               | Some chunks => chunks
               | None => []
               end) 1 = Some c /\
    length (DocumentChunk.text c) = 38 /\
    ((DocumentChunk.id c = MD5.hexdigest (key "p.md" 1) /\
      50 < length (DocumentChunk.text c)) \/
     (exists j,
        DocumentChunk.id c = MD5.hexdigest (window_key "p.md" 1 j) /\
        (Z.of_nat (length (Str.split (DocumentChunk.text c))) <= 8)%Z)).
Proof.
  assert (Hv : valid_settings small_windows) by (unfold valid_settings; cbn; lia).
  assert (Hh : 1 < length (Re.split re_header 1 thirteen_words_doc))
    by (vm_compute; lia).
  split; [exact Hv|]. split; [exact Hh|].
  eexists. split; [vm_compute; reflexivity|]. split; [vm_compute; reflexivity|].
  eapply (chunk_length_filter unit small_windows thirteen_words_doc "p.md" "P" _ Hv Hh).
  - vm_compute. reflexivity.
  - vm_compute. reflexivity.
Defined.

(* ================================================================= *)
(** ** The form of the identifiers *)

Lemma le_bytes_length n : forall x, length (MD5.le_bytes n x) = n.
Proof. induction n as [|n IH]; intro x; cbn; [reflexivity|now rewrite IH]. Qed.

Lemma le_bytes_range n : forall x,
  Forall (fun b => (0 <= b < 256)%Z) (MD5.le_bytes n x).
Proof.
  induction n as [|n IH]; intro x; cbn [MD5.le_bytes]; constructor; [|apply IH].
  change 255%Z with (Z.ones 8). rewrite Z.land_ones by lia.
  apply Z.mod_pos_bound. reflexivity.
Qed.

Lemma digest_bytes m :
  length (MD5.digest m) = 16 /\ Forall (fun b => (0 <= b < 256)%Z) (MD5.digest m).
Proof.
  unfold MD5.digest.
  destruct (MD5.blocks _ _ _) as [[[a b] c] d].
  split.
  - rewrite !length_app, !le_bytes_length. reflexivity.
  - repeat (apply Forall_app; split); apply le_bytes_range.
Qed.

Lemma hex_digit_range x :
  (0 <= x < 16)%Z -> In (MD5.hex_digit x) (list_ascii_of_string "0123456789abcdef").
Proof.
  intro H. unfold MD5.hex_digit. apply nth_In. cbn [length list_ascii_of_string]. lia.
Qed.

Lemma hex_bytes bytes :
  Forall (fun b => (0 <= b < 256)%Z) bytes ->
  length (MD5.hex bytes) = 2 * length bytes /\
  Forall (fun c => In c (list_ascii_of_string "0123456789abcdef")) (MD5.hex bytes).
Proof.
  induction 1 as [|b bytes Hb _ [IHl IHf]]; [split; [reflexivity|constructor]|].
  unfold MD5.hex in *. cbn [flat_map app length]. split; [rewrite IHl; lia|].
  constructor; [|constructor; [|exact IHf]]; apply hex_digit_range.
  - rewrite Z.shiftr_div_pow2 by lia. change (2 ^ 4)%Z with 16%Z.
    split; [apply Z.div_pos; lia|apply Z.div_lt_upper_bound; lia].
  - change 15%Z with (Z.ones 4). rewrite Z.land_ones by lia.
    apply Z.mod_pos_bound. reflexivity.
Qed.

Lemma hexdigest_form (s : str) :
  length (MD5.hexdigest s) = 32 /\
  Forall (fun c => In c (list_ascii_of_string "0123456789abcdef")) (MD5.hexdigest s).
Proof.
  unfold MD5.hexdigest. destruct (digest_bytes (MD5.utf8 s)) as [Hl Hr].
  destruct (hex_bytes _ Hr) as [Hl' Hf]. split; [rewrite Hl', Hl; reflexivity|exact Hf].
Qed.

(** X13. Every chunk identifier is a string of 32 characters, each a digit
    or a letter from [a] to [f]. *)
Theorem chunk_id_form (Vec : Type) (settings : Settings) (content doc_path title : str)
  (chunks : list (Chunk Vec)) :
  chunk_by_headers Vec settings content doc_path title = Some chunks ->
  Forall (fun c =>
      length (DocumentChunk.id c) = 32 /\
      Forall (fun x => In x (list_ascii_of_string "0123456789abcdef")) (DocumentChunk.id c))
    chunks.
Proof.
  rewrite chunk_by_headers_candidates.
  destruct (candidates settings content title) as [cs|]; [|discriminate].
  intro H. injection H as <-.
  apply Forall_forall. intros c Hc. apply In_nth_error in Hc as [n Hn].
  apply number_nth in Hn as (cand & _ & ->). cbn [DocumentChunk.id chunk_of].
  apply hexdigest_form.
Qed.

Lemma chunk_id_form_witness :
  chunk_by_headers unit default_settings two_section_doc "guide.md" "Guide"
    = Some two_section_chunks /\
  Forall (fun c => length (DocumentChunk.id c) = 32) two_section_chunks.
Proof.
  assert (H : chunk_by_headers unit default_settings two_section_doc "guide.md" "Guide"
              = Some two_section_chunks) by (vm_compute; reflexivity).
  split; [exact H|].
  eapply Forall_impl;
    [|exact (chunk_id_form unit default_settings two_section_doc "guide.md" "Guide"
               two_section_chunks H)].
  intros c Hc. exact (proj1 Hc).
Defined.

(* ================================================================= *)
(** ** More on the ingestion run *)

Section Tracks.
Variable Vec : Type.

Lemma tracks_stable {A} (m : Eff.M (World Vec) A) : stable m -> tracks m.
Proof.
  intros [v Hm] col. exists v, col. intros w <-. exact (Hm w).
Qed.

Lemma tracks_bind {A B} (m : Eff.M (World Vec) A) (k : A -> Eff.M (World Vec) B) :
  tracks m -> (forall a, tracks (k a)) -> tracks (Eff.bind m k).
Proof.
  intros Hm Hk col. destruct (Hm col) as (v & col1 & H1).
  destruct v as [a|e|].
  - destruct (Hk a col1) as (v' & col2 & H2). exists v', col2. intros w Hw.
    destruct (H1 w Hw) as [l1 E1]. unfold Eff.bind. rewrite E1.
    destruct (H2 {| collection := col1; log := log w ++ l1; prompts := prompts w |} eq_refl)
      as [l2 E2].
    exists (l1 ++ l2). rewrite E2. cbn. now rewrite app_assoc.
  - exists (Raise e), col1. intros w Hw. destruct (H1 w Hw) as [l1 E1]. exists l1.
    unfold Eff.bind. now rewrite E1.
  - exists Diverge, col1. intros w Hw. destruct (H1 w Hw) as [l1 E1]. exists l1.
    unfold Eff.bind. now rewrite E1.
Qed.

Lemma tracks_count : tracks (VectorStore.count Vec).
Proof.
  intro col. exists (Ok (length col)), col. intros w <-. exists [].
  unfold VectorStore.count, Eff.bind, Eff.get, Eff.ret. rewrite app_nil_r. now destruct w.
Qed.

Lemma tracks_clear : tracks (VectorStore.clear Vec).
Proof.
  intro col. exists (Ok tt), []. intros w _. exists [Info "Vector store cleared"].
  reflexivity.
Qed.

Lemma tracks_add_chunks chunks : tracks (VectorStore.add_chunks Vec chunks).
Proof.
  destruct chunks as [|c chunks]; [apply tracks_stable, stable_ret|].
  intro col. exists (Ok tt), (col ++ map (VectorStore.record_of Vec) (c :: chunks)).
  intros w <-. eexists. reflexivity.
Qed.

End Tracks.

Section IngestMore.
Variable Vec : Type.
Variable settings : Settings.
Variable embed_content : str -> str -> Exception + Vec.

Lemma stable_embed_loop total todo : forall i done,
  stable (embed_loop Vec embed_content total i todo done).
Proof.
  induction todo as [|c todo IH]; intros i done; cbn [embed_loop].
  - apply stable_ret.
  - apply stable_bind; [|intro; apply IH].
    apply stable_try.
    + apply stable_bind; [apply stable_lift|]. intro e.
      apply stable_bind; [|intro; apply stable_ret].
      destruct (_ =? _); [apply stable_logger|apply stable_ret].
    + intro err. apply stable_bind; [apply stable_logger|]. intros _. apply stable_raise.
Qed.

Lemma stable_embed_chunks chunks : stable (embed_chunks Vec embed_content chunks).
Proof.
  unfold embed_chunks. apply stable_bind; [apply stable_logger|]. intros _.
  apply stable_bind; [apply stable_embed_loop|]. intro cs.
  apply stable_bind; [apply stable_logger|]. intros _. apply stable_ret.
Qed.

Lemma tracks_ingest_docs corpus : tracks (ingest_docs Vec settings embed_content corpus).
Proof.
  unfold ingest_docs.
  apply tracks_bind; [apply tracks_stable, stable_logger|]. intros _.
  apply tracks_bind; [apply tracks_clear|]. intros _.
  destruct (negb (docs_path_exists corpus)); [apply tracks_stable, stable_raise|].
  apply tracks_bind; [apply tracks_stable, stable_logger|]. intros _.
  apply tracks_bind; [apply tracks_stable, stable_files_loop|]. intros [|c cs].
  - apply tracks_bind; [apply tracks_stable, stable_logger|]. intros _.
    apply tracks_stable, stable_ret.
  - apply tracks_bind; [apply tracks_stable, stable_logger|]. intros _.
    apply tracks_bind; [apply tracks_stable, stable_embed_chunks|]. intro embedded.
    apply tracks_bind; [apply tracks_add_chunks|]. intros _.
    apply tracks_bind; [apply tracks_count|]. intro n.
    apply tracks_bind; [apply tracks_stable, stable_logger|]. intros _.
    apply tracks_stable, stable_ret.
Qed.

(** The run clears the collection before anything reads it. *)
Lemma ingest_docs_from_empty corpus (w : World Vec) :
  ingest_docs Vec settings embed_content corpus w =
  ingest_docs Vec settings embed_content corpus
    {| collection := []; log := log w; prompts := prompts w |}.
Proof. reflexivity. Qed.

(** X14. A run of [ingest_docs] starts the index over: its outcome and the
    collection it leaves are the same from every state, so nothing of an
    earlier collection influences the run or survives it.  The run only adds
    to the log and sends no prompt. *)
Theorem ingest_docs_starts_over (corpus : Corpus) :
  exists outcome records, forall w : World Vec, exists entries,
    ingest_docs Vec settings embed_content corpus w =
      (outcome,
       {| collection := records; log := log w ++ entries; prompts := prompts w |}).
Proof.
  destruct (tracks_ingest_docs corpus []) as (v & col & H).
  exists v, col. intro w. rewrite ingest_docs_from_empty.
  exact (H {| collection := []; log := log w; prompts := prompts w |} eq_refl).
Qed.

Lemma stable_value {A} (m : Eff.M (World Vec) A) (w0 : World Vec) v :
  stable m -> fst (m w0) = v ->
  forall w, exists entries,
    m w = (v, {| collection := collection w; log := log w ++ entries;
                 prompts := prompts w |}).
Proof.
  intros [v' H] Hv w. destruct (H w0) as [l0 E0]. rewrite E0 in Hv. cbn in Hv. subst v'.
  exact (H w).
Qed.

(** The chunks of a run are the chunks of its files, one file after the
    other. *)
Lemma files_loop_chunks files : forall css acc (w : World Vec),
  Forall2 (fun f cs => file_chunks Vec settings f = Some cs) files css ->
  fst (files_loop Vec settings files acc w) = Ok (acc ++ concat css).
Proof.
  induction files as [|f files IH]; intros css acc w H; inversion H as [|? cs ? css' Hf Hfs];
    subst; cbn [files_loop concat].
  - now rewrite app_nil_r.
  - unfold file_chunks, skipped in Hf.
    destruct (Str.startswith "." (name f) || Str.contains "node_modules" (path f)).
    + injection Hf as <-. cbn [app]. now apply IH.
    + unfold process_file.
      destruct (parse_markdown_file f) as [e|[[p t] c]].
      * injection Hf as <-. cbn [app].
        unfold Eff.bind at 1. unfold Eff.try_except, Eff.bind at 1, Eff.lift, Eff.raise.
        unfold Eff.bind at 1. cbn. now apply IH.
      * unfold Eff.bind at 1. unfold Eff.try_except, Eff.bind at 1, Eff.lift, Eff.ret.
        unfold Eff.bind at 1. cbn [logger Eff.modify]. rewrite Hf.
        unfold Eff.bind at 1. cbn [logger Eff.modify Eff.ret].
        rewrite (app_assoc acc cs). now apply IH.
Qed.

Lemma file_chunks_total f :
  valid_settings settings -> exists cs, file_chunks Vec settings f = Some cs.
Proof.
  intro Hv. unfold file_chunks. destruct (skipped f); [eauto|].
  destruct (parse_markdown_file f) as [e|[[p t] c]]; [eauto|].
  rewrite chunk_by_headers_candidates.
  destruct (candidates_total settings c t Hv) as [cs ->]. cbn. eauto.
Qed.

(** X15. The chunks that the loop over the files collects are the chunks of
    the files, in the order of the files: a file that is passed over or that
    fails to parse adds nothing, and no file changes what another one
    adds.  With [0 <= chunk_overlap < chunk_size] every file has its list of
    chunks, so the loop ends and returns. *)
Theorem files_loop_concatenates (files : list MdFile) :
  (valid_settings settings ->
   exists css, Forall2 (fun f cs => file_chunks Vec settings f = Some cs) files css) /\
  (forall css,
     Forall2 (fun f cs => file_chunks Vec settings f = Some cs) files css ->
     forall acc (w : World Vec),
       fst (files_loop Vec settings files acc w) = Ok (acc ++ concat css)).
Proof.
  split.
  - intro Hv. induction files as [|f files [css IH]]; [exists []; constructor|].
    destruct (file_chunks_total f Hv) as [cs Hcs]. exists (cs :: css). now constructor.
  - intros css H acc w. now apply files_loop_chunks.
Qed.

Lemma embed_loop_succeeds total todo : forall embedded i done (w : World Vec),
  Forall2 (fun c c' => exists e,
             embed_content "retrieval_document" (DocumentChunk.text c) = inr e /\
             c' = with_embedding Vec c e) todo embedded ->
  exists entries,
    embed_loop Vec embed_content total i todo done w =
      (Ok (done ++ embedded),
       {| collection := collection w; log := log w ++ entries; prompts := prompts w |}).
Proof.
  induction todo as [|c todo IH]; intros embedded i done w H;
    inversion H as [|? c' ? embedded' (e & He & Hc') Hrest]; subst; cbn [embed_loop].
  - exists []. rewrite !app_nil_r. unfold Eff.ret. now destruct w.
  - unfold Eff.bind at 1. unfold Eff.try_except, Eff.bind at 1, Eff.lift. rewrite He.
    unfold Eff.ret at 1.
    destruct ((i + 1) mod 10 =? 0).
    + unfold Eff.bind at 1. cbn [logger Eff.modify Eff.ret].
      match goal with |- context [embed_loop _ _ _ _ _ _ ?w1] =>
        destruct (IH embedded' (S i) (done ++ [with_embedding Vec c e]) w1 Hrest)
          as [entries E] end.
      rewrite E. cbn [collection log prompts]. eexists.
      rewrite <- !app_assoc. cbn [app]. reflexivity.
    + unfold Eff.bind at 1. cbn [Eff.ret].
      destruct (IH embedded' (S i) (done ++ [with_embedding Vec c e]) w Hrest)
        as [entries E].
      rewrite E. exists entries. rewrite <- !app_assoc. reflexivity.
Qed.

Lemma embedded_exists (chunks : list (Chunk Vec)) :
  (forall c, In c chunks ->
     exists e, embed_content "retrieval_document" (DocumentChunk.text c) = inr e) ->
  exists embedded,
    Forall2 (fun c c' => exists e,
               embed_content "retrieval_document" (DocumentChunk.text c) = inr e /\
               c' = with_embedding Vec c e) chunks embedded.
Proof.
  induction chunks as [|c chunks IH]; intro H; [exists []; constructor|].
  destruct (H c (or_introl eq_refl)) as [e He].
  destruct IH as [embedded IH]; [intros c' Hc'; apply H; now right|].
  exists (with_embedding Vec c e :: embedded). constructor; [eauto|exact IH].
Qed.

(** X16. When every chunk of the run is embedded, [ingest_docs] returns the
    number of chunks and the collection holds one record per chunk, in the
    order of the chunks, each with the identifier, the text and the metadata
    of its chunk and the embedding of the chunk's text; the count returned is
    the number of records.  ([collection.add] is taken to accept the
    batch.) *)
Theorem ingest_docs_success (corpus : Corpus) (w : World Vec)
  (all_chunks : list (Chunk Vec)) :
  docs_path_exists corpus = true ->
  fst (files_loop Vec settings (md_files corpus) [] w) = Ok all_chunks ->
  (forall c, In c all_chunks ->
     exists e, embed_content "retrieval_document" (DocumentChunk.text c) = inr e) ->
  fst (ingest_docs Vec settings embed_content corpus w) = Ok (length all_chunks) /\
  length (collection (snd (ingest_docs Vec settings embed_content corpus w)))
    = length all_chunks /\
  Forall2 (fun c r => exists e,
             embed_content "retrieval_document" (DocumentChunk.text c) = inr e /\
             r = VectorStore.record_of Vec (with_embedding Vec c e))
    all_chunks (collection (snd (ingest_docs Vec settings embed_content corpus w))).
Proof.
  intros Hex Hfiles Hembed.
  destruct (embedded_exists all_chunks Hembed) as [embedded Hemb].
  assert (Hrec : Forall2 (fun c r => exists e,
             embed_content "retrieval_document" (DocumentChunk.text c) = inr e /\
             r = VectorStore.record_of Vec (with_embedding Vec c e))
           all_chunks (map (VectorStore.record_of Vec) embedded)).
  { clear -Hemb. induction Hemb as [|c c' cs cs' (e & He & ->) _ IH]; cbn [map];
      constructor; eauto. }
  assert (Hlen : length embedded = length all_chunks).
  { symmetry. eapply Forall2_length. exact Hemb. }
  set (w1 := Build_World Vec []
               ((log w ++ [Info "Starting document ingestion..."])
                  ++ [Info "Vector store cleared"])
               (prompts w)).
  set (w2 := add_log w1 (Info ("Found " ++ Str.of_nat (length (md_files corpus))
                                 ++ " markdown files"))).
  destruct (stable_value _ w (Ok all_chunks) (stable_files_loop Vec settings (md_files corpus) [])
              Hfiles w2) as [l2 H2].
  set (w3 := {| collection := collection w2; log := log w2 ++ l2; prompts := prompts w2 |})
    in H2.
  assert (Hing : exists w',
             ingest_docs Vec settings embed_content corpus w = (Ok (length all_chunks), w') /\
             collection w' = map (VectorStore.record_of Vec) embedded).
  { unfold ingest_docs, VectorStore.clear. rewrite Hex. cbn [negb].
    rewrite (bind_ok _ _ w tt (add_log w (Info "Starting document ingestion...")))
      by reflexivity.
    rewrite (bind_ok _ _ _ tt w1) by reflexivity.
    rewrite (bind_ok _ _ w1 tt w2) by reflexivity.
    rewrite (bind_ok _ _ w2 all_chunks w3) by exact H2.
    destruct all_chunks as [|c0 rest].
    - inversion Hemb; subst. eexists. split; reflexivity.
    - set (w4 := add_log w3 (Info ("Total chunks created: "
                                     ++ Str.of_nat (length (c0 :: rest))))).
      set (w5 := add_log w4 (Info ("Embedding " ++ Str.of_nat (length (c0 :: rest))
                                     ++ " chunks..."))).
      destruct (embed_loop_succeeds (length (c0 :: rest)) (c0 :: rest) embedded 0 [] w5 Hemb)
        as [l5 H5].
      cbn [app] in H5.
      rewrite (bind_ok _ _ w3 tt w4) by reflexivity.
      erewrite (bind_ok (embed_chunks Vec embed_content (c0 :: rest)) _ w4 embedded).
      2:{ unfold embed_chunks. rewrite (bind_ok _ _ w4 tt w5) by reflexivity.
          erewrite bind_ok by exact H5. reflexivity. }
      destruct embedded as [|e0 erest]; [discriminate Hlen|].
      rewrite <- Hlen. eexists. split.
      + unfold VectorStore.add_chunks, VectorStore.count.
        unfold Eff.bind, Eff.get, Eff.ret, set_collection, logger, Eff.modify.
        reflexivity.
      + reflexivity. }
  destruct Hing as (w' & -> & Hcol). cbn [fst snd]. rewrite Hcol.
  split; [reflexivity|]. split; [now rewrite length_map|exact Hrec].
Qed.

End IngestMore.

Lemma files_loop_concatenates_witness :
  valid_settings default_settings /\
  Forall2 (fun f cs => file_chunks unit default_settings f = Some cs)
    (md_files two_section_corpus) [two_section_chunks] /\
  fst (files_loop unit default_settings (md_files two_section_corpus) []
         (unit_world [old_record])) = Ok ([] ++ concat [two_section_chunks]).
Proof.
  assert (Hv : valid_settings default_settings) by (unfold valid_settings; cbn; lia).
  assert (H : Forall2 (fun f cs => file_chunks unit default_settings f = Some cs)
                (md_files two_section_corpus) [two_section_chunks]).
  { constructor; [vm_compute; reflexivity|constructor]. }
  split; [exact Hv|]. split; [exact H|].
  exact (proj2 (files_loop_concatenates unit default_settings (md_files two_section_corpus))
           [two_section_chunks] H [] (unit_world [old_record])).
Defined.

Lemma ingest_docs_success_witness :
  docs_path_exists two_section_corpus = true /\
  fst (files_loop unit default_settings (md_files two_section_corpus) []
         (unit_world [old_record])) = Ok two_section_chunks /\
  (forall c, In c two_section_chunks ->
     exists e, steady_embed "retrieval_document" (DocumentChunk.text c) = inr e) /\
  fst (ingest_docs unit default_settings steady_embed two_section_corpus
         (unit_world [old_record])) = Ok 2.
Proof.
  assert (H1 : docs_path_exists two_section_corpus = true) by reflexivity.
  assert (H2 : fst (files_loop unit default_settings (md_files two_section_corpus) []
                      (unit_world [old_record])) = Ok two_section_chunks)
    by (vm_compute; reflexivity).
  assert (H3 : forall c, In c two_section_chunks ->
                 exists e, steady_embed "retrieval_document" (DocumentChunk.text c) = inr e).
  { intros c _. exists tt. reflexivity. }
  split; [exact H1|]. split; [exact H2|]. split; [exact H3|].
  exact (proj1 (ingest_docs_success unit default_settings steady_embed two_section_corpus
                  (unit_world [old_record]) two_section_chunks H1 H2 H3)).
Defined.

(* ================================================================= *)
(** ** More on the vector store *)

Section StoreMore.
Variable Vec : Type.
Variable settings : Settings.

(** X17. What is stored for a chunk of [chunk_by_headers] gives its fields
    back: the record carries the identifier, the text and the embedding of
    the chunk, and its metadata answers the keys that [search] reads,
    [doc_path] and [title], with the path and the title of the chunk, and
    the key [section] with the chunk's section label. *)
Theorem stored_record_round_trip (content doc_path title : str)
  (chunks : list (Chunk Vec)) :
  chunk_by_headers Vec settings content doc_path title = Some chunks ->
  Forall (fun c => forall e,
      let r := VectorStore.record_of Vec (with_embedding Vec c e) in
      rec_id r = DocumentChunk.id c /\
      rec_document r = DocumentChunk.text c /\
      rec_embedding r = Some e /\
      dict_get (rec_metadata r) "doc_path" [] = doc_path /\
      dict_get (rec_metadata r) "title" [] = DocumentChunk.title c /\
      DocumentChunk.metadata c =
        [(list_ascii_of_string "section", dict_get (rec_metadata r) "section" [])])
    chunks.
Proof.
  rewrite chunk_by_headers_candidates.
  destruct (candidates settings content title) as [cs|]; [|discriminate].
  intro H. injection H as <-.
  apply Forall_forall. intros c Hc. apply In_nth_error in Hc as [n Hn].
  apply number_nth in Hn as (cand & _ & ->).
  intros e r. repeat split.
Qed.

End StoreMore.

Lemma stored_record_round_trip_witness :
  chunk_by_headers unit default_settings two_section_doc "guide.md" "Guide"
    = Some two_section_chunks /\
  Forall (fun c =>
      dict_get (rec_metadata (VectorStore.record_of unit (with_embedding unit c tt)))
        "doc_path" [] = list_ascii_of_string "guide.md") two_section_chunks.
Proof.
  assert (H : chunk_by_headers unit default_settings two_section_doc "guide.md" "Guide"
              = Some two_section_chunks) by (vm_compute; reflexivity).
  split; [exact H|].
  eapply Forall_impl;
    [|exact (stored_record_round_trip unit default_settings two_section_doc
               "guide.md" "Guide" two_section_chunks H)].
  intros c Hc. exact (proj1 (proj2 (proj2 (proj2 (Hc tt))))).
Defined.

Section SearchMore.
Variable Vec : Type.
Variable store_query :
  list (StoredRecord Vec) -> Vec -> Z -> Exception + VectorStore.QueryResults.

Import VectorStore.

Lemma cell_cell_value {X} (field : option (list (list X))) i d (w : World Vec) :
  cell Vec field i d w =
  match cell_value field i d with
  | Some x => (Ok x, w)
  | None => (Raise (list_ascii_of_string "list index out of range"), w)
  end.
Proof.
  unfold cell, cell_value. destruct (first_row field) as [row|]; [|reflexivity].
  destruct (nth_error row i); reflexivity.
Qed.

(** The loop over the identifiers, when every position has its cells. *)
Lemma collect_rows res row : forall i acc (w : World Vec),
  (forall n, n < length row ->
     exists m t d,
       cell_value (metadatas res) (i + n) [] = Some m /\
       cell_value (documents res) (i + n) [] = Some t /\
       cell_value (distances res) (i + n) 1%Q = Some d) ->
  exists cs,
    collect Vec res i row acc w = (Ok (acc ++ cs), w) /\
    length cs = length row /\
    forall n c, nth_error cs n = Some c ->
      cell_value (metadatas res) (i + n) [] = Some (RetrievedChunk.metadata c) /\
      cell_value (documents res) (i + n) [] = Some (RetrievedChunk.text c) /\
      (exists d, cell_value (distances res) (i + n) 1%Q = Some d /\
                 RetrievedChunk.score c = score_of_distance d) /\
      RetrievedChunk.doc_path c = dict_get (RetrievedChunk.metadata c) "doc_path" [] /\
      RetrievedChunk.title c = dict_get (RetrievedChunk.metadata c) "title" [].
Proof.
  induction row as [|x row IH]; intros i acc w H.
  - exists []. cbn [collect]. rewrite app_nil_r. split; [reflexivity|].
    split; [reflexivity|]. intros [|n] c Hc; discriminate.
  - destruct (H 0) as (m & t & d & Hm & Ht & Hd); [cbn; lia|].
    rewrite Nat.add_0_r in Hm, Ht, Hd.
    cbn [collect]. unfold Eff.bind.
    rewrite !cell_cell_value, Hm. cbn iota. rewrite !cell_cell_value, Ht. cbn iota.
    rewrite !cell_cell_value, Hd. cbn iota.
    edestruct (IH (S i)) as (cs & -> & Hlen & Hcs).
    { intros n Hn. destruct (H (S n)) as (m' & t' & d' & Hx); [cbn; lia|].
      rewrite <- Nat.add_succ_comm in Hx. eauto. }
    eexists (_ :: cs). split; [rewrite <- app_assoc; reflexivity|].
    split; [cbn; now rewrite Hlen|].
    intros [|n] c Hc.
    + injection Hc as <-. rewrite Nat.add_0_r. cbn. repeat split; eauto.
    + cbn [nth_error] in Hc. apply Hcs in Hc. now rewrite <- Nat.add_succ_comm.
Qed.

(** The loop over the identifiers, when a position lacks one of its cells. *)
Lemma collect_short res row : forall i acc (w : World Vec) n,
  n < length row ->
  cell_value (metadatas res) (i + n) [] = None \/
  cell_value (documents res) (i + n) [] = None \/
  cell_value (distances res) (i + n) 1%Q = None ->
  collect Vec res i row acc w = (Raise (list_ascii_of_string "list index out of range"), w).
Proof.
  induction row as [|x row IH]; intros i acc w n Hn H; [cbn in Hn; lia|].
  cbn [collect]. unfold Eff.bind.
  rewrite !cell_cell_value.
  destruct (cell_value (metadatas res) i []) as [m|] eqn:Hm; [|reflexivity]. cbn iota.
  rewrite !cell_cell_value.
  destruct (cell_value (documents res) i []) as [t|] eqn:Ht; [|reflexivity]. cbn iota.
  rewrite !cell_cell_value.
  destruct (cell_value (distances res) i 1%Q) as [d|] eqn:Hd; [|reflexivity]. cbn iota.
  destruct n as [|n].
  - rewrite Nat.add_0_r in H. rewrite Hm, Ht, Hd in H.
    destruct H as [H|[H|H]]; discriminate.
  - apply (IH (S i) _ w n); [cbn in Hn; lia|]. now rewrite Nat.add_succ_comm.
Qed.

(** X18. When the store answers a query with identifiers and every one of
    them has its metadata, document and distance (a field that is absent
    counts as the default: no metadata, the empty text, the distance 1),
    [search] returns one chunk per identifier, in the order of the answer:
    the chunk at position [n] has the metadata and the text of that position,
    the score of its distance, and the path and title found in its
    metadata. *)
Theorem search_returns_rows (e : Vec) (k : Z) (w : World Vec)
  (res : QueryResults) (row : list str) :
  collection w <> [] ->
  store_query (collection w) e k = inr res ->
  first_row (ids res) = Some row ->
  (forall n, n < length row ->
     exists m t d,
       cell_value (metadatas res) n [] = Some m /\
       cell_value (documents res) n [] = Some t /\
       cell_value (distances res) n 1%Q = Some d) ->
  exists cs,
    fst (search Vec store_query e k w) = Ok cs /\
    length cs = length row /\
    forall n c, nth_error cs n = Some c ->
      cell_value (metadatas res) n [] = Some (RetrievedChunk.metadata c) /\
      cell_value (documents res) n [] = Some (RetrievedChunk.text c) /\
      (exists d, cell_value (distances res) n 1%Q = Some d /\
                 RetrievedChunk.score c = score_of_distance d) /\
      RetrievedChunk.doc_path c = dict_get (RetrievedChunk.metadata c) "doc_path" [] /\
      RetrievedChunk.title c = dict_get (RetrievedChunk.metadata c) "title" [].
Proof.
  intros Hne Hq Hrow Hcells.
  destruct (collect_rows res row 0 [] w Hcells) as (cs & Hrun & Hlen & Hcs).
  exists cs. split; [|split; [exact Hlen|exact Hcs]].
  unfold search, search_counting, count.
  destruct (collection w) as [|r0 coll] eqn:Hc; [congruence|].
  clear Hne. run_eff.
Qed.

(** X19. When an identifier of the answer has no metadata, no document or no
    distance at its position (a row shorter than the row of identifiers),
    [search] returns no chunk at all, not the chunks before that position,
    and logs the error. *)
Theorem search_short_row (e : Vec) (k : Z) (w : World Vec)
  (res : QueryResults) (row : list str) (n : nat) :
  collection w <> [] ->
  store_query (collection w) e k = inr res ->
  first_row (ids res) = Some row ->
  n < length row ->
  cell_value (metadatas res) n [] = None \/
  cell_value (documents res) n [] = None \/
  cell_value (distances res) n 1%Q = None ->
  search Vec store_query e k w =
    (Ok [], add_log w (Error "Error searching vector store: list index out of range")).
Proof.
  intros Hne Hq Hrow Hn Hcell.
  pose proof (collect_short res row 0 [] w n Hn Hcell) as Hrun.
  unfold search, search_counting, count.
  destruct (collection w) as [|r0 coll] eqn:Hc; [congruence|].
  clear Hne. run_eff.
Qed.

Lemma collect_outcome res row : forall i acc (w : World Vec),
  (exists cs, collect Vec res i row acc w = (Ok (acc ++ cs), w) /\
              length cs = length row) \/
  (exists err, collect Vec res i row acc w = (Raise err, w)).
Proof.
  induction row as [|x row IH]; intros i acc w.
  - left. exists []. cbn [collect]. rewrite app_nil_r. split; reflexivity.
  - cbn [collect]. unfold Eff.bind.
    rewrite !cell_cell_value.
    destruct (cell_value (metadatas res) i []) as [m|]; [|right; eexists; reflexivity].
    cbn iota. rewrite !cell_cell_value.
    destruct (cell_value (documents res) i []) as [t|]; [|right; eexists; reflexivity].
    cbn iota. rewrite !cell_cell_value.
    destruct (cell_value (distances res) i 1%Q) as [d|]; [|right; eexists; reflexivity].
    cbn iota.
    match goal with |- context [collect Vec res (S i) row ?acc' w] =>
      destruct (IH (S i) acc' w) as [(cs & -> & Hlen)|[err ->]] end.
    + left. eexists (_ :: cs). split; [rewrite <- app_assoc; reflexivity|].
      cbn [length]. now rewrite Hlen.
    + right. eexists. reflexivity.
Qed.

(** X20. [search] raises only when [self.collection.count()] raises, the
    one call on the store before the [try]: that exception is passed on as
    it is.  Once [count()] has returned, [search] returns a list whatever
    the query does, leaves the collection and the prompts as they are and
    adds exactly one entry to the log; a list that is not empty has one
    chunk for each identifier of the store's answer.  With a [count()] that
    returns the number of records, [search] always returns. *)
Theorem search_raises_only_from_count (count : M Vec nat) (e : Vec) (k : Z)
  (w : World Vec) :
  (forall err w', count w = (Raise err, w') ->
     search_counting Vec store_query count e k w = (Raise err, w')) /\
  (forall n w', count w = (Ok n, w') ->
     exists cs entry,
       search_counting Vec store_query count e k w =
         (Ok cs, {| collection := collection w'; log := log w' ++ [entry];
                    prompts := prompts w' |}) /\
       (cs <> [] ->
        exists res row,
          store_query (collection w') e k = inr res /\
          first_row (ids res) = Some row /\ length cs = length row)) /\
  (exists cs entry,
     search Vec store_query e k w =
       (Ok cs, {| collection := collection w; log := log w ++ [entry];
                  prompts := prompts w |}) /\
     (cs <> [] ->
      exists res row,
        store_query (collection w) e k = inr res /\
        first_row (ids res) = Some row /\ length cs = length row)).
Proof.
  assert (Hreturned : forall n w' (cnt : M Vec nat), cnt w = (Ok n, w') ->
     exists cs entry,
       search_counting Vec store_query cnt e k w =
         (Ok cs, {| collection := collection w'; log := log w' ++ [entry];
                    prompts := prompts w' |}) /\
       (cs <> [] ->
        exists res row,
          store_query (collection w') e k = inr res /\
          first_row (ids res) = Some row /\ length cs = length row)).
  { intros n w' cnt Hcnt. unfold search_counting.
    rewrite (bind_ok _ _ w n w' Hcnt).
    destruct (Nat.eqb n 0).
    - exists [], (Warning "Vector store is empty. No documents to search.").
      split; [run_eff|congruence].
    - destruct (store_query (collection w') e k) as [err|res] eqn:Hq.
      + exists [], (Error ("Error searching vector store: " ++ err)).
        split; [run_eff|congruence].
      + destruct (first_row (ids res)) as [row|] eqn:Hr.
        * destruct (collect_outcome res row 0 [] w') as [(cs & H & Hlen)|[err H]].
          -- exists cs, (Info ("Search returned " ++ Str.of_nat (length cs) ++ " results")).
             split; [run_eff|]. intros _. exists res, row. repeat split; assumption.
          -- exists [], (Error ("Error searching vector store: " ++ err)).
             split; [run_eff|congruence].
        * exists [], (Warning "Query returned no results").
          split; [run_eff|congruence]. }
  split; [|split].
  - intros err w' Hcnt. unfold search_counting. now rewrite (bind_raise _ _ w err w' Hcnt).
  - intros n w' Hcnt. exact (Hreturned n w' count Hcnt).
  - apply (Hreturned (length (collection w)) w (VectorStore.count Vec)). reflexivity.
Qed.

End SearchMore.

Lemma search_raises_only_from_count_witness :
  VectorStore.search_counting unit (answering_store two_rows)
    (Eff.raise "collection unavailable") tt 5 (unit_world [old_record])
    = (Raise "collection unavailable", unit_world [old_record]) /\
  exists cs entry,
    VectorStore.search unit (answering_store two_rows) tt 5 (unit_world [old_record])
      = (Ok cs, {| collection := [old_record]; log := [entry]; prompts := [] |}) /\
    length cs = 2.
Proof.
  destruct (search_raises_only_from_count unit (answering_store two_rows)
              (Eff.raise "collection unavailable") tt 5%Z (unit_world [old_record]))
    as (Hraise & _ & (cs & entry & Hrun & Hrows)).
  split; [apply Hraise; reflexivity|].
  exists cs, entry. split; [exact Hrun|].
  assert (Hne : cs <> []).
  { intros ->. vm_compute in Hrun. discriminate Hrun. }
  destruct (Hrows Hne) as (res & row & Hq & Hrow & Hlen).
  injection Hq as <-. vm_compute in Hrow. injection Hrow as <-. exact Hlen.
Defined.

Lemma search_returns_rows_witness :
  collection (unit_world [old_record]) <> [] /\
  VectorStore.first_row (VectorStore.ids two_rows)
    = Some [list_ascii_of_string "a"; list_ascii_of_string "b"] /\
  exists c1 c2,
    fst (VectorStore.search unit (answering_store two_rows) tt 5 (unit_world [old_record]))
      = Ok [c1; c2] /\
    RetrievedChunk.doc_path c1 = list_ascii_of_string "guide.md" /\
    RetrievedChunk.text c2 = list_ascii_of_string "second text" /\
    RetrievedChunk.doc_path c2 = [] /\
    RetrievedChunk.score c2 = 0%Q.
Proof.
  assert (H1 : collection (unit_world [old_record]) <> []) by discriminate.
  assert (H2 : VectorStore.first_row (VectorStore.ids two_rows)
               = Some [list_ascii_of_string "a"; list_ascii_of_string "b"]) by reflexivity.
  split; [exact H1|]. split; [exact H2|].
  destruct (search_returns_rows unit (answering_store two_rows) tt 5%Z
              (unit_world [old_record]) two_rows _ H1 eq_refl H2) as (cs & Hcs & _).
  { intros [|[|n]] Hn; [do 3 eexists; repeat split; reflexivity ..|cbn in Hn; lia]. }
  vm_compute in Hcs. injection Hcs as <-.
  do 2 eexists. split; [reflexivity|]. repeat split; reflexivity.
Defined.

Lemma search_short_row_witness :
  collection (unit_world [old_record]) <> [] /\
  cell_value (VectorStore.documents short_rows) 1 [] = None /\
  fst (VectorStore.search unit (answering_store short_rows) tt 5 (unit_world [old_record]))
    = Ok [].
Proof.
  assert (H1 : collection (unit_world [old_record]) <> []) by discriminate.
  assert (H2 : cell_value (VectorStore.documents short_rows) 1 [] = None) by reflexivity.
  split; [exact H1|]. split; [exact H2|].
  rewrite (search_short_row unit (answering_store short_rows) tt 5%Z
             (unit_world [old_record]) short_rows
             [list_ascii_of_string "a"; list_ascii_of_string "b"] 1 H1 eq_refl eq_refl).
  - reflexivity.
  - cbn. lia.
  - right. left. exact H2.
Defined.

(* ================================================================= *)
(** ** Choosing a provider *)

Section Providers.
Variable Vec : Type.
Variable settings : Settings.

Import LLMFactory.

Lemma stable_GeminiProvider name : stable (GeminiProvider Vec settings name).
Proof.
  unfold GeminiProvider. apply stable_bind; [apply stable_logger|]. intros _. apply stable_ret.
Qed.

Lemma stable_create_provider model_key : stable (create_provider Vec settings model_key).
Proof.
  unfold create_provider. destruct model_key as [key|]; [|apply stable_GeminiProvider].
  destruct (_ || _); [apply stable_GeminiProvider|].
  destruct (lookup key AVAILABLE_MODELS) as [[name cls]|].
  - apply stable_try.
    + destruct cls; [apply stable_GeminiProvider|].
      unfold GroqProvider. destruct (groq_api_key settings); [apply stable_raise|].
      apply stable_bind; [apply stable_logger|]. intros _. apply stable_ret.
    + intro e. apply stable_bind; [apply stable_logger|]. intros _.
      apply stable_GeminiProvider.
  - apply stable_bind; [apply stable_logger|]. intros _. apply stable_GeminiProvider.
Qed.

Lemma available_models_named key name cls :
  lookup key AVAILABLE_MODELS = Some (name, cls) -> name <> [].
Proof.
  unfold AVAILABLE_MODELS. cbn [lookup].
  repeat (destruct (Str.eqb key _); [intro H; injection H as <- <-; discriminate|]).
  discriminate.
Qed.

(** X21. [create_provider] never raises.  Without a key, and with the key
    [gemini], the empty key or a key that is not in the table, it gives the
    Gemini provider of the configured generation model.  A key of the table
    gives the provider and the model of its entry, except that a Groq entry
    without a configured [GROQ_API_KEY] falls back to that Gemini provider
    and logs a warning. *)
Theorem create_provider_falls_back (model_key : option str) (w : World Vec) :
  exists p entries,
    create_provider Vec settings model_key w =
      (Ok p, {| collection := collection w; log := log w ++ entries;
                prompts := prompts w |}) /\
    match model_key with
    | None => p = default_provider settings
    | Some key =>
        if Str.eqb key "gemini" then p = default_provider settings
        else
          match lookup key AVAILABLE_MODELS with
          | None => p = default_provider settings
          | Some (name, Gemini) => p = {| provider_class := Gemini; model_name := name |}
          | Some (name, Groq) =>
              match groq_api_key settings with
              | [] =>
                  p = default_provider settings /\
                  In (Warning ("Failed to initialize GroqProvider: "
                                 ++ "GROQ_API_KEY not configured"
                                 ++ ". Falling back to Gemini")) entries
              | _ :: _ => p = {| provider_class := Groq; model_name := name |}
              end
          end
    end.
Proof.
  unfold create_provider, default_provider.
  destruct model_key as [key|]; [|do 2 eexists; split; reflexivity].
  destruct (Str.eqb key "gemini") eqn:Eg.
  { rewrite orb_true_r. do 2 eexists; split; reflexivity. }
  rewrite orb_false_r.
  destruct (Str.eqb key []) eqn:Ee.
  { unfold Str.eqb in Ee. destruct (list_eq_dec ascii_dec key []) as [->|]; [|discriminate].
    do 2 eexists; split; reflexivity. }
  destruct (lookup key AVAILABLE_MODELS) as [[name cls]|] eqn:El.
  - pose proof (available_models_named key name cls El) as Hname.
    destruct name as [|c name]; [congruence|].
    destruct cls.
    + do 2 eexists; split; reflexivity.
    + unfold GroqProvider. destruct (groq_api_key settings) as [|k ks].
      * eexists. eexists [_; _]. split; [|split; [reflexivity|left; reflexivity]].
        unfold Eff.try_except, Eff.raise, Eff.bind, logger, Eff.modify, GeminiProvider,
          Eff.ret. cbn. rewrite <- app_assoc. reflexivity.
      * do 2 eexists; split; reflexivity.
  - eexists. eexists [_; _]. split; [|reflexivity].
    unfold Eff.bind, logger, Eff.modify, GeminiProvider, Eff.ret. cbn.
    rewrite <- app_assoc. reflexivity.
Qed.

End Providers.

Example create_provider_groq :
  fst (LLMFactory.create_provider unit groq_settings (Some (list_ascii_of_string "groq-llama-70b"))
         (unit_world [])) =
  Ok {| LLMFactory.provider_class := LLMFactory.Groq;
        LLMFactory.model_name := "llama-3.1-70b-versatile" |}.
Proof. vm_compute. reflexivity. Qed.

Example create_provider_groq_without_key :
  fst (LLMFactory.create_provider unit default_settings
         (Some (list_ascii_of_string "groq-llama-70b")) (unit_world [])) =
  Ok (default_provider default_settings).
Proof. vm_compute. reflexivity. Qed.

(* ================================================================= *)
(** ** More on the query path *)

Section QueryMore.
Variable Vec : Type.
Variable settings : Settings.
Variable embed_content : str -> str -> Exception + Vec.
Variable store_query :
  list (StoredRecord Vec) -> Vec -> Z -> Exception + VectorStore.QueryResults.
Variable generate : LLMFactory.LLMProvider -> str -> Exception + str.

Import VectorStore Retriever.

(** [query] up to the call of [_generate_answer], when the question is
    embedded and the search finds chunks. *)
Lemma query_reaches_generation question model_key history (w : World Vec) e cs :
  embed_content "retrieval_query" question = inr e ->
  fst (search Vec store_query e (top_k_results settings) w) = Ok cs ->
  cs <> [] ->
  exists entries,
    query Vec settings embed_content store_query generate question model_key history w =
    Eff.bind
      (_generate_answer Vec settings generate question cs model_key history)
      (fun answer =>
         Eff.ret {| answer := answer; chunks := cs; query_text := question |})
      {| collection := collection w; log := log w ++ entries; prompts := prompts w |}.
Proof.
  intros He Hs Hne.
  set (w1 := add_log w (Info ("Processing query: " ++ question ++ " with model: "
                                ++ model_label model_key))).
  destruct (search_spec Vec store_query e (top_k_results settings) w1)
    as (cs' & entry & Hrun & _ & _ & _ & Hsame & _).
  assert (cs' = cs) as ->.
  { specialize (Hsame w eq_refl). rewrite Hs in Hsame. now injection Hsame. }
  eexists [_; _; _]. unfold query.
  rewrite (bind_ok _ _ w tt w1) by reflexivity.
  rewrite (bind_ok _ _ w1 e w1) by (now apply embed_query_ok).
  rewrite (bind_ok _ _ w1 cs (add_log w1 entry)) by exact Hrun.
  destruct cs as [|c cs]; [congruence|].
  rewrite (bind_ok _ _ _ tt
             (add_log (add_log w1 entry)
                (Info ("Retrieved " ++ Str.of_nat (length (c :: cs)) ++ " relevant chunks"))))
    by reflexivity.
  unfold w1, add_log. cbn [collection log prompts]. rewrite <- !app_assoc. reflexivity.
Qed.

(** X22. When the question is embedded, the search finds chunks and the
    provider chosen for the model key answers the prompt, [query] returns
    that answer with the chunks found, in their order; one prompt was sent,
    the one built from the question, the chunks and the history, and the
    collection is as before. *)
Theorem query_answers_from_chunks question model_key history (w : World Vec) e cs p ans :
  embed_content "retrieval_query" question = inr e ->
  fst (search Vec store_query e (top_k_results settings) w) = Ok cs ->
  cs <> [] ->
  fst (LLMFactory.create_provider Vec settings model_key w) = Ok p ->
  generate p (prompt_text question (_build_context cs) cs (history_text history)) = inr ans ->
  fst (query Vec settings embed_content store_query generate question model_key history w)
    = Ok {| answer := ans; chunks := cs; query_text := question |} /\
  prompts (snd (query Vec settings embed_content store_query generate
                  question model_key history w))
    = prompts w ++ [prompt_text question (_build_context cs) cs (history_text history)] /\
  collection (snd (query Vec settings embed_content store_query generate
                     question model_key history w)) = collection w.
Proof.
  intros He Hs Hne Hp Hg.
  destruct (query_reaches_generation question model_key history w e cs He Hs Hne)
    as [entries ->].
  set (w3 := {| collection := collection w; log := log w ++ entries; prompts := prompts w |}).
  destruct (stable_value Vec _ w (Ok p) (stable_create_provider Vec settings model_key) Hp w3)
    as [l3 H3].
  match goal with |- fst ?r = _ /\ _ =>
    assert (Hrun : exists lg,
      r = (Ok {| answer := ans; chunks := cs; query_text := question |},
           {| collection := collection w; log := lg;
              prompts := prompts w ++ [prompt_text question (_build_context cs) cs (history_text history)]
           |})) end.
  { destruct (build_prompt_run question (_build_context cs) cs history w3) as [lp Hp3].
    set (w4 := {| collection := collection w3; log := log w3 ++ lp;
                  prompts := prompts w3 |}) in Hp3.
    destruct (stable_value Vec _ w (Ok p) (stable_create_provider Vec settings model_key)
                Hp w4) as [l4 H4].
    eexists. unfold _generate_answer.
    unfold Eff.bind at 1. rewrite (bind_ok _ _ w3 _ w4 Hp3).
    unfold Eff.try_except. unfold Eff.bind at 1. rewrite H4.
    unfold Eff.bind at 1. cbn [record_prompt Eff.modify].
    unfold Eff.bind at 1. rewrite Hg. cbn [Eff.lift Eff.ret].
    unfold Eff.bind at 1. cbn. reflexivity. }
  destruct Hrun as [lg ->]. repeat split.
Qed.

(** X23. When the provider fails on the prompt, [query] does not return the
    chunks it found: it logs the error and raises it again, after the prompt
    was sent. *)
Theorem query_generation_failure question model_key history (w : World Vec) e cs p err :
  embed_content "retrieval_query" question = inr e ->
  fst (search Vec store_query e (top_k_results settings) w) = Ok cs ->
  cs <> [] ->
  fst (LLMFactory.create_provider Vec settings model_key w) = Ok p ->
  generate p (prompt_text question (_build_context cs) cs (history_text history)) = inl err ->
  fst (query Vec settings embed_content store_query generate question model_key history w)
    = Raise err /\
  prompts (snd (query Vec settings embed_content store_query generate
                  question model_key history w))
    = prompts w ++ [prompt_text question (_build_context cs) cs (history_text history)] /\
  In (Error ("Error generating answer: " ++ err))
     (log (snd (query Vec settings embed_content store_query generate
                  question model_key history w))).
Proof.
  intros He Hs Hne Hp Hg.
  destruct (query_reaches_generation question model_key history w e cs He Hs Hne)
    as [entries ->].
  set (w3 := {| collection := collection w; log := log w ++ entries; prompts := prompts w |}).
  destruct (stable_value Vec _ w (Ok p) (stable_create_provider Vec settings model_key) Hp w3)
    as [l3 H3].
  match goal with |- fst ?r = _ /\ _ =>
    assert (Hrun : exists lg,
      r = (Raise err,
           {| collection := collection w;
              log := lg ++ [Error ("Error generating answer: " ++ err)];
              prompts := prompts w ++ [prompt_text question (_build_context cs) cs (history_text history)]
           |})) end.
  { destruct (build_prompt_run question (_build_context cs) cs history w3) as [lp Hp3].
    set (w4 := {| collection := collection w3; log := log w3 ++ lp;
                  prompts := prompts w3 |}) in Hp3.
    destruct (stable_value Vec _ w (Ok p) (stable_create_provider Vec settings model_key)
                Hp w4) as [l4 H4].
    eexists. unfold _generate_answer.
    unfold Eff.bind at 1. rewrite (bind_ok _ _ w3 _ w4 Hp3).
    unfold Eff.try_except. unfold Eff.bind at 1. rewrite H4.
    unfold Eff.bind at 1. cbn [record_prompt Eff.modify].
    unfold Eff.bind at 1. rewrite Hg. cbn [Eff.lift Eff.raise].
    unfold Eff.bind at 1. cbn. reflexivity. }
  destruct Hrun as [lg ->]. cbn [fst snd log prompts]. repeat split.
  apply in_or_app. right. left. reflexivity.
Qed.

(** X24. When the question cannot be embedded, [query] logs the error and
    raises it again before anything is searched or sent: the log gains the
    two entries of the query and of the error, and the prompts and the
    collection are as before. *)
Theorem query_embedding_failure question model_key history (w : World Vec) err :
  embed_content "retrieval_query" question = inl err ->
  query Vec settings embed_content store_query generate question model_key history w =
    (Raise err,
     {| collection := collection w;
        log := log w ++ [Info ("Processing query: " ++ question ++ " with model: "
                                 ++ model_label model_key);
                         Error ("Error embedding query: " ++ err)];
        prompts := prompts w |}).
Proof.
  intro He. unfold query, _embed_query.
  unfold Eff.bind at 1. cbn [logger Eff.modify].
  unfold Eff.bind at 1. unfold Eff.try_except. rewrite He. cbn [Eff.lift Eff.raise].
  unfold Eff.bind at 1. cbn. rewrite <- app_assoc. reflexivity.
Qed.

Lemma keeps_bind {A B} (m : Eff.M (World Vec) A) (k : A -> Eff.M (World Vec) B) :
  (forall w, collection (snd (m w)) = collection w) ->
  (forall a w, collection (snd (k a w)) = collection w) ->
  forall w, collection (snd (Eff.bind m k w)) = collection w.
Proof.
  intros Hm Hk w. unfold Eff.bind. specialize (Hm w).
  destruct (m w) as [[a|e|] w']; cbn [snd] in *; [|exact Hm|exact Hm].
  now rewrite Hk.
Qed.

Lemma keeps_try {A} (m : Eff.M (World Vec) A) (h : Exception -> Eff.M (World Vec) A) :
  (forall w, collection (snd (m w)) = collection w) ->
  (forall e w, collection (snd (h e w)) = collection w) ->
  forall w, collection (snd (Eff.try_except m h w)) = collection w.
Proof.
  intros Hm Hh w. unfold Eff.try_except. specialize (Hm w).
  destruct (m w) as [[a|e|] w']; cbn [snd] in *; [exact Hm| |exact Hm].
  now rewrite Hh.
Qed.

Lemma keeps_stable {A} (m : Eff.M (World Vec) A) :
  stable m -> forall w, collection (snd (m w)) = collection w.
Proof. intros [v H] w. destruct (H w) as [l ->]. reflexivity. Qed.

(** X25. A query reads the index and never writes it: whatever the services
    answer, the collection after [query] is the collection before it. *)
Theorem query_keeps_collection question model_key history (w : World Vec) :
  collection (snd (query Vec settings embed_content store_query generate
                     question model_key history w)) = collection w.
Proof.
  revert w. unfold query.
  apply keeps_bind; [apply keeps_stable, stable_logger|]. intros _.
  apply keeps_bind.
  { unfold _embed_query. apply keeps_stable, stable_try; [apply stable_lift|].
    intro e. apply stable_bind; [apply stable_logger|]. intros _. apply stable_raise. }
  intro e. apply keeps_bind.
  { intro w. destruct (search_spec Vec store_query e (top_k_results settings) w)
      as (cs & entry & -> & _). reflexivity. }
  intros [|c cs]; [apply keeps_stable, stable_ret|].
  apply keeps_bind; [apply keeps_stable, stable_logger|]. intros _.
  apply keeps_bind; [|intro; apply keeps_stable, stable_ret].
  unfold _generate_answer.
  apply keeps_bind.
  { intro w. destruct (build_prompt_run question (_build_context (c :: cs)) (c :: cs)
                         history w) as [lp ->]. reflexivity. }
  intro prompt. apply keeps_try.
  - apply keeps_bind; [apply keeps_stable, stable_create_provider|]. intro p.
    apply keeps_bind; [reflexivity|]. intros _.
    apply keeps_bind; [apply keeps_stable, stable_lift|]. intro a.
    apply keeps_bind; [apply keeps_stable, stable_logger|]. intros _.
    apply keeps_stable, stable_ret.
  - intro e0. apply keeps_bind; [apply keeps_stable, stable_logger|]. intros _.
    apply keeps_stable, stable_raise.
Qed.

(** X26. [HybridRetriever.query] returns what [Retriever.query] returns, with
    web grounding switched on or off, and leaves the same collection and the
    same prompts: the switch only adds a line to the log. *)
Theorem hybrid_query_same_result use_web_grounding question model_key history
  (w : World Vec) :
  fst (HybridRetriever.query Vec settings embed_content store_query generate
         use_web_grounding question model_key history w)
    = fst (query Vec settings embed_content store_query generate
             question model_key history w) /\
  collection (snd (HybridRetriever.query Vec settings embed_content store_query generate
                     use_web_grounding question model_key history w))
    = collection (snd (query Vec settings embed_content store_query generate
                         question model_key history w)) /\
  prompts (snd (HybridRetriever.query Vec settings embed_content store_query generate
                  use_web_grounding question model_key history w))
    = prompts (snd (query Vec settings embed_content store_query generate
                      question model_key history w)).
Proof.
  unfold HybridRetriever.query, Eff.bind.
  destruct (query Vec settings embed_content store_query generate
              question model_key history w) as [[r|e|] w']; [|repeat split ..].
  destruct (use_web_grounding && (length (chunks r) <? 2)); repeat split.
Qed.

End QueryMore.

Lemma query_answers_from_chunks_witness :
  steady_embed "retrieval_query" "What is a chunk?" = inr tt /\
  fst (VectorStore.search unit (answering_store two_rows) tt (top_k_results default_settings)
         (unit_world [old_record])) = Ok two_rows_chunks /\
  two_rows_chunks <> [] /\
  fst (Retriever.query unit default_settings steady_embed (answering_store two_rows)
         echo_generate "What is a chunk?" None None (unit_world [old_record])) =
  Ok {| answer := Retriever.prompt_text "What is a chunk?"
                    (Retriever._build_context two_rows_chunks) two_rows_chunks
                    (Retriever.history_text None);
        chunks := two_rows_chunks;
        query_text := "What is a chunk?" |}.
Proof.
  assert (H1 : steady_embed "retrieval_query" "What is a chunk?" = inr tt) by reflexivity.
  assert (H2 : fst (VectorStore.search unit (answering_store two_rows) tt
                      (top_k_results default_settings) (unit_world [old_record]))
               = Ok two_rows_chunks) by (vm_compute; reflexivity).
  assert (H3 : two_rows_chunks <> []) by discriminate.
  split; [exact H1|]. split; [exact H2|]. split; [exact H3|].
  exact (proj1 (query_answers_from_chunks unit default_settings steady_embed
                  (answering_store two_rows) echo_generate "What is a chunk?" None None
                  (unit_world [old_record]) tt two_rows_chunks
                  (default_provider default_settings) _ H1 H2 H3 eq_refl eq_refl)).
Defined.

Lemma query_generation_failure_witness :
  steady_embed "retrieval_query" "What is a chunk?" = inr tt /\
  two_rows_chunks <> [] /\
  fst (Retriever.query unit default_settings steady_embed (answering_store two_rows)
         failing_generate "What is a chunk?" None None (unit_world [old_record])) =
  Raise "rate limit".
Proof.
  assert (H1 : steady_embed "retrieval_query" "What is a chunk?" = inr tt) by reflexivity.
  assert (H2 : fst (VectorStore.search unit (answering_store two_rows) tt
                      (top_k_results default_settings) (unit_world [old_record]))
               = Ok two_rows_chunks) by (vm_compute; reflexivity).
  assert (H3 : two_rows_chunks <> []) by discriminate.
  split; [exact H1|]. split; [exact H3|].
  exact (proj1 (query_generation_failure unit default_settings steady_embed
                  (answering_store two_rows) failing_generate "What is a chunk?" None None
                  (unit_world [old_record]) tt two_rows_chunks
                  (default_provider default_settings) "rate limit"
                  H1 H2 H3 eq_refl eq_refl)).
Defined.

Lemma query_embedding_failure_witness :
  failing_embed "retrieval_query" "What is a chunk?" = inl (list_ascii_of_string "no network") /\
  Retriever.query unit default_settings failing_embed (answering_store two_rows)
    echo_generate "What is a chunk?" (Some (list_ascii_of_string "groq-llama3")) None
    (unit_world [old_record]) =
  (Raise "no network",
   {| collection := [old_record];
      log := [Info "Processing query: What is a chunk? with model: groq-llama3";
              Error "Error embedding query: no network"];
      prompts := [] |}).
Proof.
  assert (H1 : failing_embed "retrieval_query" "What is a chunk?"
               = inl (list_ascii_of_string "no network")) by reflexivity.
  split; [exact H1|].
  rewrite (query_embedding_failure unit default_settings failing_embed
             (answering_store two_rows) echo_generate "What is a chunk?"
             (Some (list_ascii_of_string "groq-llama3")) None
             (unit_world [old_record]) "no network" H1).
  reflexivity.
Defined.

(* ================================================================= *)
(** ** The size of the history block *)

Lemma join_length_le (sep : str) (n : nat) (l : list str) :
  Forall (fun x => length x <= n) l -> l <> [] ->
  length (Str.join sep l) + length sep <= length l * (n + length sep).
Proof.
  induction 1 as [|x l Hx Hl IH]; intro Hne; [congruence|].
  destruct l as [|y l].
  - cbn. lia.
  - change (Str.join sep (x :: y :: l)) with (x ++ sep ++ Str.join sep (y :: l)).
    rewrite !length_app. specialize (IH ltac:(discriminate)).
    change (length (x :: y :: l)) with (S (length (y :: l))). lia.
Qed.

Lemma rendered_bounds item :
  length (rendered item) <= 1 /\ Forall (fun line => length line <= 503) (rendered item).
Proof.
  assert (H : forall p x : str, length p = 3 -> length (p ++ firstn 500 x) <= 503).
  { intros p x Hp. rewrite length_app, length_firstn, Hp. lia. }
  destruct item as [msg|]; cbn [rendered]; [|split; [cbn; lia|constructor]].
  destruct (Str.eqb (role msg) "user");
    [|destruct (Str.eqb (role msg) "assistant")];
    (split; [cbn; lia|]);
    first [apply Forall_nil | apply Forall_cons; [apply H; reflexivity|apply Forall_nil]].
Qed.

Lemma flat_map_rendered_bounds history :
  length (flat_map rendered history) <= length history /\
  Forall (fun line => length line <= 503) (flat_map rendered history).
Proof.
  induction history as [|item history [IHl IHf]]; [split; [reflexivity|constructor]|].
  destruct (rendered_bounds item) as [Hl Hf]. cbn [flat_map length].
  split; [rewrite length_app; lia|]. apply Forall_app. now split.
Qed.

(** X27. The history block of a prompt is bounded by the number of messages:
    no more lines than messages, no line of more than 503 characters, and
    at most 25 characters and 504 per message in all. *)
Theorem history_block_bounded (history : list Retriever.HistoryItem) :
  length (Retriever.history_loop history []) <= length history /\
  Forall (fun line => length line <= 503) (Retriever.history_loop history []) /\
  length (Retriever.history_text (Some history)) <= 25 + 504 * length history.
Proof.
  rewrite history_loop_flat_map. cbn [app].
  destruct (flat_map_rendered_bounds history) as [Hl Hf].
  split; [exact Hl|]. split; [exact Hf|].
  unfold Retriever.history_text.
  destruct history as [|item history]; [cbn; lia|].
  rewrite history_loop_flat_map. cbn [app].
  destruct (flat_map rendered (item :: history)) as [|line lines] eqn:E; [cbn; lia|].
  pose proof (join_length_le [Str.nl] 503 (line :: lines) Hf ltac:(discriminate)) as Hj.
  cbn [length app]. rewrite length_app. cbn [length list_ascii_of_string].
  rewrite length_app. cbn [length] in *. lia.
Qed.

(* ================================================================= *)
(** ** The sources of a chat answer *)

(** A stretch of text in which [old] does not start anywhere, also not with
    its end in what follows, is copied by [replace]. *)
Lemma replace_scan_copies old new rest : forall pre,
  (forall a b, pre = a ++ b -> b <> [] -> Str.startswith old (b ++ rest) = false) ->
  Str.replace_scan old new (pre ++ rest) 0 = pre ++ Str.replace_scan old new rest 0.
Proof.
  induction pre as [|c pre IH]; intro H; [reflexivity|].
  cbn [app Str.replace_scan].
  pose proof (H [] (c :: pre) eq_refl ltac:(discriminate)) as H0.
  cbn [app] in H0. rewrite H0.
  f_equal. apply IH. intros a b -> Hb. apply (H (c :: a) b); [reflexivity|exact Hb].
Qed.

Lemma replace_absent old new s :
  Str.contains old s = false -> Str.replace s old new = s.
Proof.
  intro H. unfold Str.replace. rewrite <- (app_nil_r s) at 1.
  rewrite replace_scan_copies; [apply app_nil_r|].
  intros a b -> Hb. rewrite app_nil_r.
  clear Hb. induction a as [|c a IH]; cbn [app] in *.
  - destruct b; [destruct old; [discriminate H|reflexivity]|].
    now apply contains_cons in H.
  - apply IH. now apply contains_cons in H.
Qed.

(** [.md] does not overlap itself: where it does not start within a text it
    does not start within that text followed by [.md] either, before the
    end. *)
Lemma md_no_overlap (b : str) :
  b <> [] -> Str.startswith ".md" b = false -> Str.startswith ".md" (b ++ ".md") = false.
Proof.
  intros Hb H.
  destruct b as [|c1 b]; [congruence|]. cbn [app Str.startswith list_ascii_of_string] in *.
  destruct (Ascii.eqb "." c1); [|reflexivity]. cbn [andb] in *.
  destruct b as [|c2 b]; [reflexivity|]. cbn [app Str.startswith] in *.
  destruct (Ascii.eqb "m" c2); [|reflexivity]. cbn [andb] in *.
  destruct b as [|c3 b]; [reflexivity|]. cbn [app Str.startswith] in *.
  exact H.
Qed.

Lemma replace_md_suffix (stem : str) :
  Str.contains ".md" stem = false ->
  Str.replace (stem ++ ".md") ".md" "/" = stem ++ "/".
Proof.
  intro H. unfold Str.replace. rewrite replace_scan_copies; [reflexivity|].
  intros a b -> Hb. apply md_no_overlap; [exact Hb|].
  apply contains_suffix_false in H. destruct b as [|c b]; [congruence|].
  now apply contains_cons in H.
Qed.

(** X28. The snippet of a source is the text of its chunk when that has at
    most 200 characters, and otherwise its first 200 characters followed by
    three dots: a snippet has at most 203 characters and starts as the text
    does. *)
Theorem snippet_bounded (chunk : RetrievedChunk.t) :
  length (Main.snippet (Main.source_of chunk)) <= 203 /\
  firstn 200 (Main.snippet (Main.source_of chunk)) = firstn 200 (RetrievedChunk.text chunk) /\
  (length (RetrievedChunk.text chunk) <= 200 ->
   Main.snippet (Main.source_of chunk) = RetrievedChunk.text chunk) /\
  (200 < length (RetrievedChunk.text chunk) ->
   Main.snippet (Main.source_of chunk) = firstn 200 (RetrievedChunk.text chunk) ++ "...").
Proof.
  cbn [Main.snippet Main.source_of].
  change 0%Z with (Z.of_nat 0). change 200%Z with (Z.of_nat 200).
  rewrite slice_prefix.
  destruct (200 <? length (RetrievedChunk.text chunk)) eqn:E.
  - apply Nat.ltb_lt in E. repeat split.
    + rewrite length_app, length_firstn. cbn [length list_ascii_of_string]. lia.
    + rewrite firstn_app, length_firstn. rewrite (Nat.min_l 200) by lia.
      rewrite Nat.sub_diag, firstn_firstn. cbn [firstn Nat.min]. now rewrite app_nil_r.
    + lia.
  - apply Nat.ltb_ge in E. repeat split; try lia.
Qed.

(** X29. The link of a source: for a path that ends in [.md] and holds no
    other [.md], the link is [../] followed by the path with that ending
    replaced by a slash; a path that holds no [.md] is linked as it is. *)
Theorem source_url (chunk : RetrievedChunk.t) :
  (forall stem,
     RetrievedChunk.doc_path chunk = stem ++ ".md" ->
     Str.contains ".md" stem = false ->
     Main.url (Main.source_of chunk) = Some ("../" ++ stem ++ "/")) /\
  (Str.contains ".md" (RetrievedChunk.doc_path chunk) = false ->
   Main.url (Main.source_of chunk) = Some ("../" ++ RetrievedChunk.doc_path chunk)).
Proof.
  cbn [Main.url Main.source_of]. split.
  - intros stem -> H. now rewrite replace_md_suffix.
  - intro H. now rewrite replace_absent.
Qed.

Example source_url_inner_occurrence :
  Str.replace "notes.md/draft.md" ".md" "/" = "notes//draft/".
Proof. reflexivity. Qed.
